(** * Scribe-Data: interactive session, request runner, command surface
      and the Portuguese verbs formatter

    Shallow embedding of
    - [src/scribe_data/cli/interactive.py]  (module [Interactive]),
    - [src/scribe_data/cli/main.py]         (module [Main]),
    - [src/scribe_data/language_data_extraction/Portuguese/verbs/format_verbs.py]
                                            (module [FormatVerbs]),
    preceded by the fragment of Python's [str] that these files use
    (module [PyStr]) and the values and exceptions they exchange with the
    functions they import (module [Py]).

    Modelling scope.  A Python [str] is a [string]: the bytes of the
    UTF-8 encoding of the text.  White space is that of Python
    ([str.isspace]), in ASCII and outside.  Case mapping is that of the
    ASCII letters; the theorems that state a lower-cased text are made
    for ASCII texts.  Byte-wise comparison of UTF-8 text is comparison by
    code point, which is the order Python uses on [str]. *)

From Stdlib Require Import Ascii String ZArith Lia Sorted Permutation.
From Stdlib Require OrderedTypeEx.
From stdpp Require Import base option list strings gmap sorting.

Local Open Scope string_scope.
Local Open Scope list_scope.

(* ===================================================================== *)
(** ** Python values, exceptions and results                              *)
(* ===================================================================== *)

Module Py.

(** The Python objects that flow through the modelled code: [None],
    booleans, strings and integers. *)
Inductive value :=
| VNone
| VBool (b : bool)
| VStr (s : string)
| VInt (z : Z).

(** Truth value testing, as [if v:] / [v or w] / [not v] apply it. *)
Definition truthy (v : value) : bool :=
  match v with
  | VNone => false
  | VBool b => b
  | VStr s => negb (String.eqb s "")
  | VInt z => negb (Z.eqb z 0)
  end.

(** [isinstance(v, str)] *)
Definition is_str (v : value) : bool :=
  match v with VStr _ => true | _ => false end.

Inductive exn :=
| ValueError (msg : string)
| AttributeError (msg : string)
| TypeError (msg : string)
| KeyError (key : string)
| KeyboardInterrupt
| OtherError (name : string).

(** A call either returns a value or raises. *)
Inductive result (A : Type) :=
| Ret (a : A)
| Raise (e : exn).
Arguments Ret {A} a.
Arguments Raise {A} e.

(** Keyword arguments of a call, in the order the call site writes them. *)
Definition kwargs := list (string * value).

End Py.

(* ===================================================================== *)
(** ** The fragment of [str] used by the sources                          *)
(* ===================================================================== *)

Module PyStr.

Definition is_upper (c : ascii) : bool :=
  let n := nat_of_ascii c in (65 <=? n)%nat && (n <=? 90)%nat.

Definition is_lower (c : ascii) : bool :=
  let n := nat_of_ascii c in (97 <=? n)%nat && (n <=? 122)%nat.

Definition lower_char (c : ascii) : ascii :=
  if is_upper c then ascii_of_nat (nat_of_ascii c + 32) else c.

Definition upper_char (c : ascii) : ascii :=
  if is_lower c then ascii_of_nat (nat_of_ascii c - 32) else c.

(** A text is held as the bytes of its UTF-8 encoding, which is how a
    string literal with characters outside ASCII is read.

    The white-space characters of Python (those of [str.isspace], which
    [strip] removes), by their encoding.  One byte: TAB, LF, VT, FF, CR,
    FS, GS, RS, US and the space. *)
Definition is_space (c : ascii) : bool :=
  let n := nat_of_ascii c in
  ((9 <=? n)%nat && (n <=? 13)%nat) || ((28 <=? n)%nat && (n <=? 32)%nat).

(** Two bytes: U+0085 (C2 85) and U+00A0 (C2 A0). *)
Definition is_space2 (b0 b1 : ascii) : bool :=
  let n0 := nat_of_ascii b0 in
  let n1 := nat_of_ascii b1 in
  (n0 =? 194)%nat && ((n1 =? 133)%nat || (n1 =? 160)%nat).

(** Three bytes: U+1680 (E1 9A 80), U+2000 to U+200A (E2 80 80 to
    E2 80 8A), U+2028 and U+2029 (E2 80 A8, E2 80 A9), U+202F (E2 80 AF),
    U+205F (E2 81 9F) and U+3000 (E3 80 80). *)
Definition is_space3 (b0 b1 b2 : ascii) : bool :=
  let n0 := nat_of_ascii b0 in
  let n1 := nat_of_ascii b1 in
  let n2 := nat_of_ascii b2 in
  ((n0 =? 225)%nat && (n1 =? 154)%nat && (n2 =? 128)%nat)
  || ((n0 =? 226)%nat && (n1 =? 128)%nat
      && (((128 <=? n2)%nat && (n2 <=? 138)%nat)
          || (n2 =? 168)%nat || (n2 =? 169)%nat || (n2 =? 175)%nat))
  || ((n0 =? 226)%nat && (n1 =? 129)%nat && (n2 =? 159)%nat)
  || ((n0 =? 227)%nat && (n1 =? 128)%nat && (n2 =? 128)%nat).

(** [s.lower()] on the ASCII letters: A to Z are mapped to a to z and
    every other byte is left as it is.  Python also lower-cases the cased
    characters outside ASCII, by the Unicode tables; a statement about
    the text [lower] returns is made for ASCII texts
    ([CommandLines.is_ascii]).  Whether the result is [y], and whether
    the capitalised text contains [All], are the same in both: no
    character outside ASCII is lower-cased to a text with l or y in it,
    and none is title-cased to A alone. *)
Fixpoint lower (s : string) : string :=
  match s with
  | EmptyString => EmptyString
  | String c s' => String (lower_char c) (lower s')
  end.

(** [s.capitalize()]: first character upper-cased, the rest lower-cased;
    on the ASCII letters, as [lower] is. *)
Definition capitalize (s : string) : string :=
  match s with
  | EmptyString => EmptyString
  | String c s' => String (upper_char c) (lower s')
  end.

(** [s.startswith(p)] *)
Fixpoint startswith (p s : string) : bool :=
  match p, s with
  | EmptyString, _ => true
  | String _ _, EmptyString => false
  | String a p', String b s' => Ascii.eqb a b && startswith p' s'
  end.

(** [sub in s] *)
Fixpoint contains (sub s : string) : bool :=
  startswith sub s ||
  match s with
  | EmptyString => false
  | String _ s' => contains sub s'
  end.

(** [s.split(sep)] for a one-character separator: never an empty list. *)
Fixpoint split (sep : ascii) (s : string) : list string :=
  match s with
  | EmptyString => [EmptyString]
  | String c s' =>
      if Ascii.eqb c sep then EmptyString :: split sep s'
      else match split sep s' with
           | [] => [String c EmptyString]
           | piece :: pieces => String c piece :: pieces
           end
  end.

(** [s.lstrip()]: the white-space characters at the head are removed,
    whatever their length in bytes. *)
Fixpoint lstrip (s : string) : string :=
  match s with
  | EmptyString => EmptyString
  | String b0 s1 =>
      if is_space b0 then lstrip s1
      else
        match s1 with
        | EmptyString => s
        | String b1 s2 =>
            if is_space2 b0 b1 then lstrip s2
            else
              match s2 with
              | EmptyString => s
              | String b2 s3 => if is_space3 b0 b1 b2 then lstrip s3 else s
              end
        end
  end.

(** [s.rstrip()]: the text is cut where what remains is white space only.
    No encoding of a white-space character starts with a continuation
    byte, so the cut never falls inside a character. *)
Fixpoint rstrip (s : string) : string :=
  match s with
  | EmptyString => EmptyString
  | String b s' =>
      if String.eqb (lstrip s) EmptyString then EmptyString
      else String b (rstrip s')
  end.

(** [s.strip()] *)
Definition strip (s : string) : string := rstrip (lstrip s).

(** [s.replace(old, new)] for one-character [old] and [new]. *)
Fixpoint replace (old new : ascii) (s : string) : string :=
  match s with
  | EmptyString => EmptyString
  | String c s' =>
      String (if Ascii.eqb c old then new else c) (replace old new s')
  end.

(** [sep.join(pieces)] *)
Definition join (sep : string) (pieces : list string) : string :=
  String.concat sep pieces.

(** The text [s] holds no character [sep]. *)
Definition free_of (sep : ascii) (s : string) : Prop :=
  ∀ n, String.get n s ≠ Some sep.

End PyStr.

(* ===================================================================== *)
(** ** [scribe_data/cli/interactive.py]                                   *)
(* ===================================================================== *)

Module Interactive.
Import Py PyStr.

(** [class ScribeDataConfig].  [languages] and [data_types] are the two
    lists of the Vocabulary Registry, read once when the object is built;
    [output_dir] holds the text of the [Path]. *)
Record ScribeDataConfig := {
  languages : list string;
  data_types : list string;
  selected_languages : list string;
  selected_data_types : list string;
  output_type : string;
  output_dir : string;
  overwrite : bool;
  configured : bool;
}.

(** [ScribeDataConfig.__init__]; [list_all_languages(language_metadata)],
    [data_type_metadata.keys()] and [DEFAULT_JSON_EXPORT_DIR] come from
    [scribe_data.utils] and are taken as arguments. *)
Definition ScribeDataConfig_init
    (all_languages all_data_types : list string) (default_dir : string)
    : ScribeDataConfig :=
  {| languages := all_languages;
     data_types := all_data_types;
     selected_languages := [];
     selected_data_types := [];
     output_type := "json";
     output_dir := default_dir;
     overwrite := false;
     configured := false |}.

(** Attribute assignments [config.<field> = v]. *)
Definition set_selected_languages (v : list string) (c : ScribeDataConfig) :=
  {| languages := languages c; data_types := data_types c;
     selected_languages := v; selected_data_types := selected_data_types c;
     output_type := output_type c; output_dir := output_dir c;
     overwrite := overwrite c; configured := configured c |}.

Definition set_selected_data_types (v : list string) (c : ScribeDataConfig) :=
  {| languages := languages c; data_types := data_types c;
     selected_languages := selected_languages c; selected_data_types := v;
     output_type := output_type c; output_dir := output_dir c;
     overwrite := overwrite c; configured := configured c |}.

Definition set_output_type (v : string) (c : ScribeDataConfig) :=
  {| languages := languages c; data_types := data_types c;
     selected_languages := selected_languages c;
     selected_data_types := selected_data_types c;
     output_type := v; output_dir := output_dir c;
     overwrite := overwrite c; configured := configured c |}.

Definition set_output_dir (v : string) (c : ScribeDataConfig) :=
  {| languages := languages c; data_types := data_types c;
     selected_languages := selected_languages c;
     selected_data_types := selected_data_types c;
     output_type := output_type c; output_dir := v;
     overwrite := overwrite c; configured := configured c |}.

Definition set_overwrite (v : bool) (c : ScribeDataConfig) :=
  {| languages := languages c; data_types := data_types c;
     selected_languages := selected_languages c;
     selected_data_types := selected_data_types c;
     output_type := output_type c; output_dir := output_dir c;
     overwrite := v; configured := configured c |}.

Definition set_configured (v : bool) (c : ScribeDataConfig) :=
  {| languages := languages c; data_types := data_types c;
     selected_languages := selected_languages c;
     selected_data_types := selected_data_types c;
     output_type := output_type c; output_dir := output_dir c;
     overwrite := overwrite c; configured := v |}.

(** What the module shows or asks of its environment, in program order. *)
Inductive event :=
| Rprint (text : string)                       (* rich.print *)
| ConsolePrint (text : string)                 (* console.print of a text *)
| ConsoleTable (title : string) (rows : list (string * string))
| Prompt (message default : string)            (* prompt_toolkit.prompt *)
| TqdmOpen (total : nat) (desc unit : string)  (* with tqdm(...) as pbar *)
| SetDescription (desc : string)               (* pbar.set_description *)
| Call (callee : string) (kw : kwargs)         (* an imported function *)
| LoggerInfo (text : string)                   (* logger.info *)
| PbarUpdate (n : nat)                         (* pbar.update *)
| TqdmClose.                                   (* leaving the with block *)

Definition NL : string := String (ascii_of_nat 10) EmptyString.

Definition FOLLOW_PROMPTS : string :=
  "[cyan]Follow the prompts below. Press tab for completions and enter to select.[/cyan]".
Definition ASK_LANGUAGES : string :=
  "Select languages (comma-separated or type 'All'): ".
Definition NO_LANGUAGE : string :=
  "[yellow]No language selected. Please try again.[/yellow]".
Definition ASK_DATA_TYPES : string :=
  "Select data types (comma-separated or type 'All'): ".
Definition NO_DATA_TYPE : string :=
  "[yellow]No data type selected. Please try again.[/yellow]".
Definition ASK_OUTPUT_TYPE : string := "Select output type (json/csv/tsv): ".
Definition INVALID_OUTPUT_TYPE : string :=
  "[yellow]Invalid output type selected. Please try again.[/yellow]".
Definition ASK_OVERWRITE : string := "Overwrite existing files? (Y/n): ".
Definition NOT_CONFIGURED : string :=
  "[bold red]Error: Please configure languages and data types.[/bold red]".
Definition COMPLETED : string :=
  "[bold green]Data request completed successfully![/bold green]".

Definition ask_output_dir (c : ScribeDataConfig) : string :=
  "Enter output directory (default: " +:+ output_dir c +:+ "): ".

(** [x or "None"] on strings *)
Definition or_str (s alt : string) : string :=
  if String.eqb s "" then alt else s.

(** [display_summary()] *)
Definition display_summary (c : ScribeDataConfig) : list event :=
  [ ConsolePrint NL;
    ConsoleTable "Scribe-Data Request Configuration Summary"
      [ ("Languages", or_str (join ", " (selected_languages c)) "None");
        ("Data Types", or_str (join ", " (selected_data_types c)) "None");
        ("Output Type", output_type c);
        ("Output Directory", output_dir c);
        ("Overwrite", if overwrite c then "Yes" else "No") ];
    ConsolePrint NL ].

(** *** [configure_settings]

    The function is run against a script: the texts the user submits at
    the successive prompts.  When the script is used up the run stops at
    the prompt that is waiting; the states name the prompts (and
    [Configured] the return of the function).  The interpreter's bound on
    the depth of recursion is not part of the model. *)
Inductive session_state :=
| AwaitingLanguages      (* prompt of line 117 *)
| AwaitingDataTypes      (* prompt of line 139 *)
| AwaitingOutputType     (* prompts of lines 160 and 165 *)
| AwaitingOutputDir      (* prompt of line 170 *)
| AwaitingOverwrite      (* prompt of line 176 *)
| Configured.            (* after display_summary() *)

Record session := {
  at_state : session_state;
  config : ScribeDataConfig;
  shown : list event;
  unread : list string;
}.

Definition waiting (s : session_state) (c : ScribeDataConfig)
    (out : list event) : session :=
  {| at_state := s; config := c; shown := out; unread := [] |}.

(** Lines 123-130: the value assigned to [config.selected_languages]. *)
Definition language_selection (c : ScribeDataConfig) (answer : string)
    : list string :=
  if contains "All" answer then languages c
  else filter (λ lang, lang ∈ languages c) (strip <$> split "," answer).

(** Lines 145-152: the value assigned to [config.selected_data_types]. *)
Definition data_type_selection (c : ScribeDataConfig) (answer : string)
    : list string :=
  if contains "All" (capitalize answer) then data_types c
  else filter (λ dt, dt ∈ data_types c) (strip <$> split "," answer).

(** Lines 175-179: [(answer or "y").lower() == "y"]. *)
Definition overwrite_choice (answer : string) : bool :=
  String.eqb (lower (or_str answer "y")) "y".

Section Session.

(** [str(Path(text))]: the normal form pathlib gives to a path text. *)
Variable Path : string → string.

(** Lines 169-182, entered once the output type is accepted. *)
Definition output_dir_onwards (inputs : list string) (c : ScribeDataConfig)
    (out : list event) : session :=
  let out := out ++ [Prompt (ask_output_dir c) ""] in
  match inputs with
  | [] => waiting AwaitingOutputDir c out
  | output_dir :: inputs =>
      let c := if String.eqb output_dir "" then c
               else set_output_dir (Path output_dir) c in
      let out := out ++ [Prompt ASK_OVERWRITE ""] in
      match inputs with
      | [] => waiting AwaitingOverwrite c out
      | answer :: inputs =>
          let c := set_overwrite (overwrite_choice answer) c in
          let c := set_configured true c in
          {| at_state := Configured; config := c;
             shown := out ++ display_summary c; unread := inputs |}
      end
  end.

(** Lines 163-167: the [while] loop, entered with [config.output_type]
    holding the last answer. *)
Fixpoint output_type_loop (inputs : list string) (c : ScribeDataConfig)
    (out : list event) : session :=
  if decide (output_type c ∈ ["json"; "csv"; "tsv"]) then
    output_dir_onwards inputs c out
  else
    let out := out ++ [Rprint INVALID_OUTPUT_TYPE; Prompt ASK_OUTPUT_TYPE ""] in
    match inputs with
    | [] => waiting AwaitingOutputType c out
    | answer :: inputs => output_type_loop inputs (set_output_type answer c) out
    end.

(** Lines 158-182. *)
Definition output_type_onwards (inputs : list string) (c : ScribeDataConfig)
    (out : list event) : session :=
  let out := out ++ [Prompt ASK_OUTPUT_TYPE ""] in
  match inputs with
  | [] => waiting AwaitingOutputType c out
  | answer :: inputs => output_type_loop inputs (set_output_type answer c) out
  end.

(** Events of an earlier part of the run, put in front of a session's. *)
Definition after (out : list event) (s : session) : session :=
  {| at_state := at_state s; config := config s;
     shown := out ++ shown s; unread := unread s |}.

Fixpoint configure_settings (inputs : list string) (c : ScribeDataConfig)
    : session :=
  let out := [Rprint FOLLOW_PROMPTS;
              Prompt ASK_LANGUAGES (join ", " (selected_languages c))] in
  match inputs with
  | [] => waiting AwaitingLanguages c out
  | answer :: inputs =>
      let c := set_selected_languages (language_selection c answer) c in
      match selected_languages c with
      | [] => after (out ++ [Rprint NO_LANGUAGE]) (configure_settings inputs c)
      | _ :: _ =>
          let out :=
            out ++ [Prompt ASK_DATA_TYPES (join ", " (selected_data_types c))] in
          match inputs with
          | [] => waiting AwaitingDataTypes c out
          | answer :: inputs =>
              let c := set_selected_data_types (data_type_selection c answer) c in
              match selected_data_types c with
              | [] =>
                  after (out ++ [Rprint NO_DATA_TYPE])
                        (configure_settings inputs c)
              | _ :: _ => after out (output_type_onwards inputs c [])
              end
          end
      end
  end.

(** *** Reading a session

    What answering the prompt that is waiting does: the next state, the
    configuration and what is shown.  [answer_prompt_refines] below proves
    that [configure_settings] run on a script with one more answer is the
    session of the shorter script, answered. *)
Definition react (s : session_state) (c : ScribeDataConfig) (answer : string)
    : session_state * ScribeDataConfig * list event :=
  let restart c :=
    [Rprint FOLLOW_PROMPTS;
     Prompt ASK_LANGUAGES (join ", " (selected_languages c))] in
  match s with
  | AwaitingLanguages =>
      let c := set_selected_languages (language_selection c answer) c in
      match selected_languages c with
      | [] => (AwaitingLanguages, c, Rprint NO_LANGUAGE :: restart c)
      | _ :: _ =>
          (AwaitingDataTypes, c,
           [Prompt ASK_DATA_TYPES (join ", " (selected_data_types c))])
      end
  | AwaitingDataTypes =>
      let c := set_selected_data_types (data_type_selection c answer) c in
      match selected_data_types c with
      | [] => (AwaitingLanguages, c, Rprint NO_DATA_TYPE :: restart c)
      | _ :: _ => (AwaitingOutputType, c, [Prompt ASK_OUTPUT_TYPE ""])
      end
  | AwaitingOutputType =>
      let c := set_output_type answer c in
      if decide (answer ∈ ["json"; "csv"; "tsv"])
      then (AwaitingOutputDir, c, [Prompt (ask_output_dir c) ""])
      else (AwaitingOutputType, c,
            [Rprint INVALID_OUTPUT_TYPE; Prompt ASK_OUTPUT_TYPE ""])
  | AwaitingOutputDir =>
      let c := if String.eqb answer "" then c
               else set_output_dir (Path answer) c in
      (AwaitingOverwrite, c, [Prompt ASK_OVERWRITE ""])
  | AwaitingOverwrite =>
      let c := set_configured true (set_overwrite (overwrite_choice answer) c) in
      (Configured, c, display_summary c)
  | Configured => (Configured, c, [])
  end.

Definition answer_prompt (s : session) (answer : string) : session :=
  match at_state s with
  | Configured =>
      {| at_state := Configured; config := config s; shown := shown s;
         unread := unread s ++ [answer] |}
  | _ =>
      let '(s', c', out) := react (at_state s) (config s) answer in
      {| at_state := s'; config := c'; shown := shown s ++ out; unread := [] |}
  end.

End Session.

(** *** [run_request]

    The module-level [config], what lies behind the imported functions
    (a world of type [W]) and the console are threaded as one state.
    An imported function is given its keyword arguments and the world; it
    returns a value or raises, and leaves a new world. *)
Section Runner.

Variable W : Type.
Variable extern : string → kwargs → W → result value * W.

Record state := {
  st_config : ScribeDataConfig;
  st_world : W;
  st_output : list event;
}.

Definition emit (e : event) (st : state) : state :=
  {| st_config := st_config st; st_world := st_world st;
     st_output := st_output st ++ [e] |}.

(** A call of an imported function: logged, then run on the world. *)
Definition call (callee : string) (kw : kwargs) (st : state)
    : result value * state :=
  let st := emit (Call callee kw) st in
  let '(r, w) := extern callee kw (st_world st) in
  (r, {| st_config := st_config st; st_world := w;
         st_output := st_output st |}).

(** The keyword arguments of lines 206-213. *)
Definition get_data_kwargs (c : ScribeDataConfig) (language data_type : string)
    : kwargs :=
  [ ("language", VStr language);
    ("data_type", VStr data_type);
    ("output_type", VStr (output_type c));
    ("output_dir", VStr (output_dir c));
    ("overwrite", VBool (overwrite c));
    ("interactive", VBool true) ].

Definition exporting (language data_type : string) : string :=
  "Exporting " +:+ language +:+ " " +:+ data_type +:+ " data".
Definition exported (language data_type : string) : string :=
  "[green]✔ Exported " +:+ language +:+ " " +:+ data_type +:+ " data.[/green]".
Definition failed_export (language data_type : string) : string :=
  "[red]✘ Failed to export " +:+ language +:+ " " +:+ data_type +:+ " data.[/red]".

(** Lines 203-223: [for data_type in config.selected_data_types]. *)
Fixpoint for_data_types (language : string) (todo : list string) (st : state)
    : result unit * state :=
  match todo with
  | [] => (Ret (), st)
  | data_type :: todo =>
      let st := emit (SetDescription (exporting language data_type)) st in
      match call "get_data"
                 (get_data_kwargs (st_config st) language data_type) st with
      | (Raise e, st) => (Raise e, st)
      | (Ret v, st) =>
          let st :=
            emit (LoggerInfo (if truthy v then exported language data_type
                              else failed_export language data_type)) st in
          let st := emit (PbarUpdate 1) st in
          for_data_types language todo st
      end
  end.

(** Lines 202-223: [for language in config.selected_languages]. *)
Fixpoint for_languages (todo : list string) (st : state)
    : result unit * state :=
  match todo with
  | [] => (Ret (), st)
  | language :: todo =>
      match for_data_types language (selected_data_types (st_config st)) st with
      | (Raise e, st) => (Raise e, st)
      | (Ret _, st) => for_languages todo st
      end
  end.

Definition run_request (st : state) : result unit * state :=
  let c := st_config st in
  if bool_decide (selected_languages c = [])
     || bool_decide (selected_data_types c = []) then
    (Ret (), emit (Rprint NOT_CONFIGURED) st)
  else
    let total_operations :=
      (length (selected_languages c) * length (selected_data_types c))%nat in
    let st := emit (TqdmOpen total_operations "Exporting data" "operation") st in
    let '(r, st) := for_languages (selected_languages (st_config st)) st in
    let st := emit TqdmClose st in
    match r with
    | Raise e => (Raise e, st)
    | Ret _ =>
        (Ret (),
         if overwrite (st_config st) then emit (Rprint COMPLETED) st else st)
    end.

End Runner.

Arguments st_config {W} _.
Arguments st_world {W} _.
Arguments st_output {W} _.

(** The [get_data] calls among the events, with their keyword arguments. *)
Definition get_data_calls (out : list event) : list kwargs :=
  omap (λ e, match e with
             | Call callee kw =>
                 if String.eqb callee "get_data" then Some kw else None
             | _ => None
             end) out.

(** The texts written through [rich.print]. *)
Definition printed (out : list event) : list string :=
  omap (λ e, match e with Rprint text => Some text | _ => None end) out.

(** The lines written through [logger.info]. *)
Definition logged (out : list event) : list string :=
  omap (λ e, match e with LoggerInfo text => Some text | _ => None end) out.

(** The value a call was given for a keyword ([None] when it was not
    given). *)
Fixpoint keyword (name : string) (kw : kwargs) : value :=
  match kw with
  | [] => VNone
  | (key, v) :: kw => if String.eqb key name then v else keyword name kw
  end.

(** *** Reading a run

    The definitions below are used to state what a run does. *)
Section Reading.

Variable W : Type.

(** A [get_data] that succeeds or fails by the pair it is called for:
    it returns [ok language data_type] for the language and the data
    type of its keyword arguments, and leaves the world as it is. *)
Definition answering (ok : string → string → bool)
    : string → kwargs → W → value * W :=
  λ _ kw w,
    (match keyword "language" kw, keyword "data_type" kw with
     | VStr language, VStr data_type => VBool (ok language data_type)
     | _, _ => VNone
     end, w).

(** An oracle whose calls all return: [f] gives the value and the world. *)
Definition returning (f : string → kwargs → W → value * W)
    : string → kwargs → W → result value * W :=
  λ callee kw w, let '(v, w') := f callee kw w in (Ret v, w').

(** The state in which a run starts: nothing shown yet. *)
Definition start (c : ScribeDataConfig) (w : W) : state W :=
  {| st_config := c; st_world := w; st_output := [] |}.

(** The work items: languages outside, data types inside, in list order. *)
Definition work_items (c : ScribeDataConfig) : list (string * string) :=
  language ← selected_languages c;
  data_type ← selected_data_types c;
  [(language, data_type)].

(** What one item that returns [v] leaves on the console. *)
Definition item_events (c : ScribeDataConfig) (item : string * string)
    (v : value) : list event :=
  [ SetDescription (exporting item.1 item.2);
    Call "get_data" (get_data_kwargs c item.1 item.2);
    LoggerInfo (if truthy v then exported item.1 item.2
                else failed_export item.1 item.2);
    PbarUpdate 1 ].

(** A flat loop over a list of items, for an oracle that returns. *)
Fixpoint replay (f : string → kwargs → W → value * W) (c : ScribeDataConfig)
    (items : list (string * string)) (w : W) : list event * W :=
  match items with
  | [] => ([], w)
  | item :: items =>
      let '(v, w) := f "get_data" (get_data_kwargs c item.1 item.2) w in
      let '(out, w) := replay f c items w in
      (item_events c item v ++ out, w)
  end.

(** The success ([true]) or failure of each item, in order. *)
Fixpoint outcomes (f : string → kwargs → W → value * W) (c : ScribeDataConfig)
    (items : list (string * string)) (w : W) : list bool :=
  match items with
  | [] => []
  | item :: items =>
      let '(v, w) := f "get_data" (get_data_kwargs c item.1 item.2) w in
      truthy v :: outcomes f c items w
  end.

Definition log_line (item : string * string) (ok : bool) : string :=
  if ok then exported item.1 item.2 else failed_export item.1 item.2.

End Reading.

Arguments returning {W} f.
Arguments answering {W} ok.
Arguments start {W} c w.
Arguments replay {W} f c items w.
Arguments outcomes {W} f c items w.

End Interactive.

(* ===================================================================== *)
(** ** [scribe_data/cli/main.py]                                          *)
(* ===================================================================== *)

Module Main.
Import Py PyStr.

(** [argparse.Namespace]: the attributes [parse_args] has set.  An
    attribute of a subcommand is present only when that subcommand was
    given; an option that was not passed holds its default ([None] unless
    the parser says otherwise).  Reading an absent attribute raises. *)
Abbreviation Namespace := (gmap string value).

Definition attr (args : Namespace) (name : string) : result value :=
  match args !! name with
  | Some v => Ret v
  | None => Raise (AttributeError name)
  end.

(** Sequencing of steps that may raise: [x ← r; k]. *)
#[global] Instance result_bind : MBind result := λ A B k r,
  match r with
  | Ret a => k a
  | Raise e => Raise e
  end.

(** [v.lower()]: only a [str] has the method. *)
Definition lower_method (v : value) : result value :=
  match v with
  | VStr s => Ret (VStr (lower s))
  | _ => Raise (AttributeError "lower")
  end.

(** [v in names] for a list of string literals. *)
Definition among (v : value) (names : list string) : bool :=
  match v with
  | VStr s => bool_decide (s ∈ names)
  | _ => false
  end.

Inductive event :=
| Print (text : string)                 (* builtin print *)
| Rprint (text : string)                (* rich.print *)
| PrintHelp                             (* parser.print_help() *)
| Call (callee : string) (kw : kwargs). (* an imported function *)

Definition VALIDATION_FAILED : string := "Input validation failed with error: ".
Definition INTERRUPTED : string :=
  "[bold red]Execution was interrupted by the user.[/bold red]".

(** Lines 298-307, 289-291, 314-322, 325-333: the keyword arguments,
    evaluated left to right. *)
Definition get_data_kwargs (args : Namespace) : result kwargs :=
  language ← attr args "language";
  language ← lower_method language;
  data_type ← attr args "data_type";
  data_type ← lower_method data_type;
  output_type ← attr args "output_type";
  output_dir ← attr args "output_dir";
  outputs_per_entry ← attr args "outputs_per_entry";
  overwrite ← attr args "overwrite";
  all ← attr args "all";
  identifier_case ← attr args "identifier_case";
  Ret [ ("language", language); ("data_type", data_type);
        ("output_type", output_type); ("output_dir", output_dir);
        ("outputs_per_entry", outputs_per_entry); ("overwrite", overwrite);
        ("all", all); ("identifier_case", identifier_case) ].

Definition list_wrapper_kwargs (args : Namespace) : result kwargs :=
  language ← attr args "language";
  data_type ← attr args "data_type";
  all ← attr args "all";
  Ret [ ("language", language); ("data_type", data_type); ("all_bool", all) ].

(** [v.lower() if v is not None else None] *)
Definition lower_unless_none (v : value) : result value :=
  match v with
  | VNone => Ret VNone
  | _ => lower_method v
  end.

Definition total_wrapper_kwargs (args : Namespace) : result kwargs :=
  language ← attr args "language";
  language ← lower_unless_none language;
  data_type ← attr args "data_type";
  data_type ← lower_unless_none data_type;
  all ← attr args "all";
  Ret [ ("language", language); ("data_type", data_type); ("all_bool", all) ].

Definition convert_wrapper_kwargs (args : Namespace) : result kwargs :=
  language ← attr args "language";
  language ← lower_method language;
  data_type ← attr args "data_type";
  output_type ← attr args "output_type";
  input_file ← attr args "input_file";
  output_dir ← attr args "output_dir";
  overwrite ← attr args "overwrite";
  identifier_case ← attr args "identifier_case";
  Ret [ ("language", language); ("data_type", data_type);
        ("output_type", output_type); ("input_file", input_file);
        ("output_dir", output_dir); ("overwrite", overwrite);
        ("identifier_case", identifier_case) ].

Definition VALIDATE : string := "validate_language_and_data_type".

(** The data-type value that lines 266-267 leave (an empty text is left
    as it is, and replacing in it changes nothing). *)
Definition normalised (data_type : value) : value :=
  match data_type with
  | VStr s => VStr (replace "-" "_" s)
  | v => v
  end.

Section Program.

Variable W : Type.

(** The imported functions ([validate_language_and_data_type],
    [upgrade_cli], [list_wrapper], [get_data], [total_wrapper],
    [convert_wrapper], [start_interactive_mode]) reached through one
    oracle: keyword arguments and world in, value or exception and world
    out.  [start_interactive_mode] is called with [operation=...]; the
    definition in interactive.py takes no parameter, so with that module
    the oracle answers this call by [Raise (TypeError _)]. *)
Variable extern : string → kwargs → W → result value * W.

Record state := {
  world : W;
  output : list event;
}.

Definition emit (e : event) (st : state) : state :=
  {| world := world st; output := output st ++ [e] |}.

(** A call statement: the arguments are evaluated, the call is logged and
    run; the value it returns is dropped. *)
Definition invoke (callee : string) (kw : result kwargs) (st : state)
    : result unit * state :=
  match kw with
  | Raise e => (Raise e, st)
  | Ret kw =>
      let st := emit (Call callee kw) st in
      let '(r, w) := extern callee kw (world st) in
      (r ≫= (λ _, Ret ()), {| world := w; output := output st |})
  end.

(** Lines 266-267. *)
Definition normalise_data_type (args : Namespace) : result Namespace :=
  data_type ← attr args "data_type";
  Ret (match data_type with
       | VStr s =>
           if truthy data_type
           then <["data_type" := VStr (replace "-" "_" s)]> args
           else args
       | _ => args
       end).

(** Lines 270-273: the body of the first [try]. *)
Definition validation (args : Namespace) (st : state) : result unit * state :=
  match attr args "language" with
  | Raise e => (Raise e, st)
  | Ret language =>
      let validate :=
        invoke VALIDATE
          (data_type ← attr args "data_type";
           Ret [("language", language); ("data_type", data_type)]) st in
      if truthy language then validate
      else match attr args "data_type" with
           | Raise e => (Raise e, st)
           | Ret data_type =>
               if truthy data_type then validate else (Ret (), st)
           end
  end.

(** Lines 288-336: the body of the second [try]. *)
Definition dispatch (args : Namespace) (st : state) : result unit * state :=
  match attr args "command" with
  | Raise e => (Raise e, st)
  | Ret command =>
      if among command ["list"; "l"] then
        invoke "list_wrapper" (list_wrapper_kwargs args) st
      else if among command ["get"; "g"] then
        match attr args "interactive" with
        | Raise e => (Raise e, st)
        | Ret interactive =>
            if truthy interactive then
              invoke "start_interactive_mode" (Ret [("operation", VStr "get")]) st
            else invoke "get_data" (get_data_kwargs args) st
        end
      else if among command ["total"; "t"] then
        match attr args "interactive" with
        | Raise e => (Raise e, st)
        | Ret interactive =>
            if truthy interactive then
              invoke "start_interactive_mode"
                     (Ret [("operation", VStr "total")]) st
            else invoke "total_wrapper" (total_wrapper_kwargs args) st
        end
      else if among command ["convert"; "c"] then
        invoke "convert_wrapper" (convert_wrapper_kwargs args) st
      else (Ret (), emit PrintHelp st)
  end.

(** Lines 264-339, from the parsed arguments on. *)
Definition main (args : Namespace) (st : state) : result unit * state :=
  match normalise_data_type args with
  | Raise e => (Raise e, st)
  | Ret args =>
      match validation args st with
      | (Raise (ValueError msg), st) =>
          (Ret (), emit (Print (VALIDATION_FAILED +:+ msg)) st)
      | (Raise e, st) => (Raise e, st)
      | (Ret _, st) =>
          match attr args "upgrade" with
          | Raise e => (Raise e, st)
          | Ret upgrade =>
              if truthy upgrade then invoke "upgrade_cli" (Ret []) st
              else
                match attr args "command" with
                | Raise e => (Raise e, st)
                | Ret command =>
                    if negb (truthy command) then (Ret (), emit PrintHelp st)
                    else
                      match dispatch args st with
                      | (Raise KeyboardInterrupt, st) =>
                          (Ret (), emit (Rprint INTERRUPTED) st)
                      | run => run
                      end
                end
          end
      end
  end.

(** The state in which [main] starts: nothing shown yet. *)
Definition begin (w : W) : state := {| world := w; output := [] |}.

End Program.

Arguments world {W} _.
Arguments output {W} _.
Arguments begin {W} w.

(** The calls among the events, as (callee, keyword arguments). *)
Definition calls (out : list event) : list (string * kwargs) :=
  omap (λ e, match e with Call callee kw => Some (callee, kw) | _ => None end)
       out.

(** Namespaces as [parse_args] builds them for [get] and for [list]. *)
Definition optional (s : option string) : value :=
  match s with Some s => VStr s | None => VNone end.

Definition get_namespace (command : string) (upgrade : bool)
    (language data_type output_type output_dir : option string)
    (outputs_per_entry : option Z) (overwrite : bool) (all : option bool)
    (interactive : bool) (identifier_case : string) : Namespace :=
  list_to_map
    [ ("command", VStr command); ("upgrade", VBool upgrade);
      ("language", optional language); ("data_type", optional data_type);
      ("output_type", optional output_type);
      ("output_dir", optional output_dir);
      ("outputs_per_entry",
         match outputs_per_entry with Some n => VInt n | None => VNone end);
      ("overwrite", VBool overwrite);
      ("all", match all with Some b => VBool b | None => VNone end);
      ("interactive", VBool interactive);
      ("identifier_case", VStr identifier_case) ].

Definition list_namespace (command : string) (upgrade : bool)
    (language data_type : value) (all : option bool) : Namespace :=
  list_to_map
    [ ("command", VStr command); ("upgrade", VBool upgrade);
      ("language", language); ("data_type", data_type);
      ("all", match all with Some b => VBool b | None => VNone end) ].

End Main.

(* ===================================================================== *)
(** ** [language_data_extraction/Portuguese/verbs/format_verbs.py]        *)
(* ===================================================================== *)

Module FormatVerbs.
Import Py.

Definition all_conjugations : list string :=
  [ "presFPS"; "presSPS"; "presTPS"; "presFPP"; "presSPP"; "presTPP";
    "perfFPS"; "perfSPS"; "perfTPS"; "perfFPP"; "perfSPP"; "perfTPP";
    "impFPS"; "impSPS"; "impTPS"; "impFPP"; "impSPP"; "impTPP";
    "fSimpFPS"; "fSimpSPS"; "fSimpTPS"; "fSimpFPP"; "fSimpSPP"; "fSimpTPP" ].

(** A queried row as [load_queried_data] returns it: a JSON object whose
    fields hold text. *)
Abbreviation row := (gmap string string).

(** A [dict] that is written and then read in order: the items in
    insertion order, keys distinct. *)
Definition dict (V : Type) := list (string * V).

(** [d[k] = v]: a present key keeps its place, a new one goes last. *)
Fixpoint setitem {V} (k : string) (v : V) (d : dict V) : dict V :=
  match d with
  | [] => [(k, v)]
  | (k', v') :: d' =>
      if String.eqb k' k then (k, v) :: d' else (k', v') :: setitem k v d'
  end.

(** [d[k]] *)
Fixpoint getitem {V} (k : string) (d : dict V) : option V :=
  match d with
  | [] => None
  | (k', v') :: d' => if String.eqb k' k then Some v' else getitem k d'
  end.

(** [d[k][k2] = v]: the inner dict is updated where it stands. *)
Fixpoint setitem2 {V} (k k2 : string) (v : V) (d : dict (dict V))
    : result (dict (dict V)) :=
  match d with
  | [] => Raise (KeyError k)
  | (k', inner) :: d' =>
      if String.eqb k' k then Ret ((k', setitem k2 v inner) :: d')
      else match setitem2 k k2 v d' with
           | Ret d'' => Ret ((k', inner) :: d'')
           | Raise e => Raise e
           end
  end.

(** Lines 51-55: [for conj in all_conjugations] ([conj] is written
    [conjugation] here). *)
Fixpoint for_conjugations (verb_vals : row) (conjs : list string)
    (verbs_formatted : dict (dict string)) : result (dict (dict string)) :=
  match conjs with
  | [] => Ret verbs_formatted
  | conjugation :: conjs =>
      match verb_vals !! "infinitive" with
      | None => Raise (KeyError "infinitive")
      | Some infinitive =>
          let v := match verb_vals !! conjugation with
                   | Some v => v
                   | None => ""
                   end in
          match setitem2 infinitive conjugation v verbs_formatted with
          | Raise e => Raise e
          | Ret verbs_formatted =>
              for_conjugations verb_vals conjs verbs_formatted
          end
      end
  end.

(** Lines 48-55: [for verb_vals in verbs_list]. *)
Fixpoint for_verbs (verbs_list : list row)
    (verbs_formatted : dict (dict string)) : result (dict (dict string)) :=
  match verbs_list with
  | [] => Ret verbs_formatted
  | verb_vals :: verbs_list =>
      match verb_vals !! "infinitive" with
      | None => Raise (KeyError "infinitive")
      | Some infinitive =>
          let verbs_formatted := setitem infinitive [] verbs_formatted in
          match for_conjugations verb_vals all_conjugations verbs_formatted with
          | Raise e => Raise e
          | Ret verbs_formatted => for_verbs verbs_list verbs_formatted
          end
      end
  end.

(** [sorted(d.items())].  The keys of a dict are distinct, so the order of
    two items is the order of their keys: a stable insertion sort on the
    key gives the list Python's sort gives. *)
Fixpoint insert_item {V} (x : string * V) (l : list (string * V))
    : list (string * V) :=
  match l with
  | [] => [x]
  | y :: l' =>
      if String.ltb x.1 y.1 then x :: l else y :: insert_item x l'
  end.

Definition sorted_items {V} (d : dict V) : list (string * V) :=
  foldr insert_item [] d.

(** [collections.OrderedDict(items)] *)
Definition OrderedDict {V} (items : list (string * V)) : dict V :=
  foldl (λ d kv, setitem kv.1 kv.2 d) [] items.

(** Lines 19 and 48-57: the [formatted_data] handed to
    [export_formatted_data]. *)
Definition verbs_formatted (verbs_list : list row)
    : result (dict (dict string)) :=
  match for_verbs verbs_list [] with
  | Raise e => Raise e
  | Ret d => Ret (OrderedDict (sorted_items d))
  end.

(** *** Reading the result *)

(** The canonical entry of a row: every conjugation, in the order of
    [all_conjugations], with the row's text or the empty text. *)
Definition entry_of (verb_vals : row) : dict string :=
  (λ conjugation, (conjugation, default "" (verb_vals !! conjugation)))
    <$> all_conjugations.

(** The last row of a list whose infinitive is [k]. *)
Fixpoint latest (k : string) (verbs_list : list row) : option row :=
  match verbs_list with
  | [] => None
  | verb_vals :: verbs_list =>
      match latest k verbs_list with
      | Some later => Some later
      | None =>
          if decide (verb_vals !! "infinitive" = Some k)
          then Some verb_vals else None
      end
  end.

(** The row has the field every row is indexed by. *)
Definition has_infinitive (verb_vals : row) : Prop :=
  is_Some (verb_vals !! "infinitive").

(** Items in increasing order of their keys. *)
Definition key_lt {V} (x y : string * V) : Prop := String.ltb x.1 y.1 = true.

End FormatVerbs.

(* ===================================================================== *)
(** ** Sample data                                                        *)
(* ===================================================================== *)

Module Samples.
Import Py Interactive.

(** A registry of two languages and two data types. *)
Definition registry : ScribeDataConfig :=
  ScribeDataConfig_init ["English"; "French"] ["nouns"; "verbs"] "scribe_data_json_export".

(** The scenario of the specification: French and German, nouns. *)
Definition french_german_nouns : ScribeDataConfig :=
  set_selected_data_types ["nouns"]
    (set_selected_languages ["French"; "German"] registry).

(** Imported functions that do nothing and return [None]. *)
Definition quiet : string → kwargs → unit → result value * unit :=
  λ _ _ w, (Ret VNone, w).

(** [get_data] succeeds on every call but the second; the world counts
    the calls. *)
Definition second_fails : string → kwargs → nat → value * nat :=
  λ _ _ n, (VBool (negb (Nat.eqb n 1)), S n).

(** [get_data] is interrupted on its first call. *)
Definition interrupted : string → kwargs → unit → result value * unit :=
  λ _ _ w, (Raise KeyboardInterrupt, w).


(** [get --language Portuguese --data-type proper-nouns --output-type json] *)
Definition get_portuguese : Main.Namespace :=
  Main.get_namespace "get" false (Some "Portuguese") (Some "proper-nouns")
    (Some "json") None None false None false "camel".

(** [get --output-type json]: neither [--language] nor [--data-type]. *)
Definition get_nothing : Main.Namespace :=
  Main.get_namespace "get" false None None (Some "json") None None false None
    false "camel".


(** Two queried rows; the second has no conjugation at all. *)
Definition verb_ser : FormatVerbs.row :=
  list_to_map [("infinitive", "ser"); ("presFPS", "sou"); ("lexeme", "L1")].

Definition verb_amar : FormatVerbs.row :=
  list_to_map [("infinitive", "amar")].

(** [pathlib] leaving a path text as it is. *)
Definition plain_path : string → string := λ text, text.

End Samples.

(* ===================================================================== *)
(** ** What a session has settled, prompt by prompt                      *)
(* ===================================================================== *)

Module Settled.
Import Py PyStr Interactive.

Definition OUTPUT_TYPES : list string := ["json"; "csv"; "tsv"].

(** The selection is not empty and every member is in the registry list. *)
Definition chosen_from (selection registry : list string) : Prop :=
  selection ≠ [] ∧ selection ⊆ registry.

(** What [configure_settings] has established when it waits at a prompt,
    or has returned. *)
Definition settled (s : session) : Prop :=
  let c := config s in
  match at_state s with
  | AwaitingLanguages => True
  | AwaitingDataTypes =>
      chosen_from (selected_languages c) (languages c)
  | AwaitingOutputType =>
      chosen_from (selected_languages c) (languages c)
      ∧ chosen_from (selected_data_types c) (data_types c)
  | AwaitingOutputDir | AwaitingOverwrite =>
      chosen_from (selected_languages c) (languages c)
      ∧ chosen_from (selected_data_types c) (data_types c)
      ∧ output_type c ∈ OUTPUT_TYPES
  | Configured =>
      chosen_from (selected_languages c) (languages c)
      ∧ chosen_from (selected_data_types c) (data_types c)
      ∧ output_type c ∈ OUTPUT_TYPES
      ∧ configured c = true
  end.

(** The total a progress bar was opened with, and the steps it was
    advanced by, summed over the events. *)
Definition announced (out : list event) : nat :=
  sum_list (omap (λ e, match e with
                       | TqdmOpen total _ _ => Some total
                       | _ => None
                       end) out).

Definition advanced (out : list event) : nat :=
  sum_list (omap (λ e, match e with PbarUpdate n => Some n | _ => None end)
                 out).

End Settled.

(* ===================================================================== *)
(** ** More parsed command lines                                          *)
(* ===================================================================== *)

Module CommandLines.
Import Py Main.

(** The namespace [parse_args] builds for [total]. *)
Definition total_namespace (command : string) (upgrade : bool)
    (language data_type : option string) (all : option bool)
    (interactive : bool) : Namespace :=
  list_to_map
    [ ("command", VStr command); ("upgrade", VBool upgrade);
      ("language", optional language); ("data_type", optional data_type);
      ("all", match all with Some b => VBool b | None => VNone end);
      ("interactive", VBool interactive) ].

(** The namespace of a command line without subcommand: the attributes
    of the top-level parser alone. *)
Definition bare_namespace (upgrade : bool) : Namespace :=
  list_to_map [ ("command", VNone); ("upgrade", VBool upgrade) ].

(** The text has ASCII characters only: no byte of it is 128 or more.
    On such a text [PyStr.lower] is [str.lower]; outside ASCII Python
    lower-cases by the Unicode tables, which are not part of this
    development. *)
Fixpoint is_ascii (text : string) : bool :=
  match text with
  | EmptyString => true
  | String b text => (nat_of_ascii b <? 128)%nat && is_ascii text
  end.

(** An option that was not passed, or whose text is ASCII. *)
Definition ascii_option (text : option string) : bool :=
  match text with
  | Some s => is_ascii s
  | None => true
  end.

End CommandLines.

(* ===================================================================== *)
(** ** Reading a list of queried rows                                     *)
(* ===================================================================== *)

Module Rows.
Import FormatVerbs.

(** The infinitives of the rows that have one, in the order of the rows. *)
Definition infinitives (verbs_list : list row) : list string :=
  omap (λ verb_vals : row, verb_vals !! "infinitive") verbs_list.

(** Two rows agree on the fields the formatter reads. *)
Definition same_read_fields (r1 r2 : row) : Prop :=
  ∀ key, key ∈ "infinitive" :: all_conjugations → r1 !! key = r2 !! key.

End Rows.

(* ===================================================================== *)
(** ** [scribe_data/cli/interactive.py]: the menus and the totals request *)
(* ===================================================================== *)

Module Menu.
Import Py PyStr Interactive.

Definition MESSAGE : string :=
  "[bold cyan]Thank you for using Scribe-Data![/bold cyan]".
Definition ASK_TOTAL_LANGUAGES : string :=
  "Select languages (comma-separated or 'All'): ".
Definition ASK_TOTAL_DATA_TYPES : string :=
  "Select data types (comma-separated or 'All'): ".
Definition WHAT_TO_DO : string := "What would you like to do?".
Definition WHAT_TO_LIST : string := "What would you like to list?".

(** *** [request_total_lexeme]

    Run against a script of answers, as [configure_settings] is. *)

(** Lines 244-251: the configuration after the language answer; an
    answer of white space alone assigns nothing. *)
Definition total_languages_answer (c : ScribeDataConfig) (answer : string)
    : ScribeDataConfig :=
  if contains "All" answer then set_selected_languages (languages c) c
  else if negb (String.eqb (strip answer) "") then
    set_selected_languages
      (filter (λ lang, lang ∈ languages c) (strip <$> split "," answer)) c
  else c.

(** Lines 265-272. *)
Definition total_data_types_answer (c : ScribeDataConfig) (answer : string)
    : ScribeDataConfig :=
  if contains "All" (capitalize answer) then
    set_selected_data_types (data_types c) c
  else if negb (String.eqb (strip answer) "") then
    set_selected_data_types
      (filter (λ dt, dt ∈ data_types c) (strip <$> split "," answer)) c
  else c.

Inductive lexeme_state :=
| LexemeLanguages      (* prompt of line 239 *)
| LexemeDataTypes      (* prompt of line 260 *)
| LexemeReturned.      (* the function has returned *)

Record lexeme_session := {
  lx_state : lexeme_state;
  lx_config : ScribeDataConfig;
  lx_shown : list Interactive.event;
  lx_unread : list string;
}.

Definition lx_after (out : list Interactive.event) (s : lexeme_session)
    : lexeme_session :=
  {| lx_state := lx_state s; lx_config := lx_config s;
     lx_shown := out ++ lx_shown s; lx_unread := lx_unread s |}.

Fixpoint request_total_lexeme (inputs : list string) (c : ScribeDataConfig)
    : lexeme_session :=
  let out := [Prompt ASK_TOTAL_LANGUAGES (join ", " (selected_languages c))] in
  match inputs with
  | [] => {| lx_state := LexemeLanguages; lx_config := c; lx_shown := out;
             lx_unread := [] |}
  | answer :: inputs =>
      let c := total_languages_answer c answer in
      match selected_languages c with
      | [] =>
          lx_after (out ++ [Rprint NO_LANGUAGE]) (request_total_lexeme inputs c)
      | _ :: _ =>
          let out :=
            out ++ [Prompt ASK_TOTAL_DATA_TYPES
                           (join ", " (selected_data_types c))] in
          match inputs with
          | [] => {| lx_state := LexemeDataTypes; lx_config := c;
                     lx_shown := out; lx_unread := [] |}
          | answer :: inputs =>
              let c := total_data_types_answer c answer in
              match selected_data_types c with
              | [] =>
                  lx_after (out ++ [Rprint NO_DATA_TYPE])
                           (request_total_lexeme inputs c)
              | _ :: _ =>
                  {| lx_state := LexemeReturned; lx_config := c;
                     lx_shown := out; lx_unread := inputs |}
              end
          end
      end
  end.

(** *** The menus

    [questionary.select(...).ask()] shows the choices and returns the
    value of the one that is picked: the script gives that value, and a
    script that names a value the menu does not offer describes no run
    ([NotOffered]).  Leaving a menu or a prompt by an interrupt is not
    modelled.  The loops consume at least one answer a turn; they are
    written with a bound on the number of turns ([OutOfTurns] is what a
    bound too small gives, and the entry point takes one that is large
    enough). *)
Inductive event :=
| Shown (e : Interactive.event)
| Select (message : string) (choices : list (string * string))
| TotalWrapper (language data_type : list string) (all_bool : bool).

Inductive stop :=
| Returned
| Waiting
| NotOffered
| Raised (e : exn)
| OutOfTurns.

Definition LEXEME_CHOICES : list (string * string) :=
  [ ("Request total lexeme", "total"); ("Run for total lexeme", "run");
    ("Exit", "exit") ].

Definition LIST_CHOICES : list (string * string) :=
  [ ("All languages", "all_languages");
    ("Languages for a specific data type", "languages_for_data_type");
    ("Data types for a specific language", "data_types_for_language") ].

(** Lines 340-355: the choices of the main menu. *)
Definition main_choices (c : ScribeDataConfig) : list (string * string) :=
  if bool_decide (selected_languages c = [])
     && bool_decide (selected_data_types c = [])
  then [ ("Request get data", "configure"); ("Request total lexeme", "total");
         ("See list of languages", "languages"); ("Exit", "exit") ]
  else if configured c
  then [ ("Request get data", "configure");
         ("Run configured data request", "run"); ("Exit", "exit") ]
  else [ ("Request get data", "configure"); ("Request total lexeme", "total");
         ("Exit", "exit") ].

(** The values a menu can return. *)
Definition offered (choices : list (string * string)) (choice : string) : bool :=
  bool_decide (choice ∈ choices.*2).

Section Menus.

Variable Path : string → string.
Variable W : Type.
Variable extern : string → kwargs → W → result value * W.

(** [total_wrapper(language=..., data_type=..., all_bool=...)], called
    with the two lists. *)
Variable total_wrapper :
  list string → list string → bool → W → result value * W.

(** The text [get_version_message()] returns. *)
Variable version_message : string.

Record state := {
  config : ScribeDataConfig;
  world : W;
  trace : list event;
}.

Record run := {
  stopped : stop;
  final : state;
  rest : list string;
}.

Definition emit (e : event) (st : state) : state :=
  {| config := config st; world := world st; trace := trace st ++ [e] |}.

Definition show (out : list Interactive.event) (st : state) : state :=
  {| config := config st; world := world st;
     trace := trace st ++ (Shown <$> out) |}.

Definition stop_at (how : stop) (st : state) (inputs : list string) : run :=
  {| stopped := how; final := st; rest := inputs |}.

(** A call of [request_total_lexeme()]. *)
Definition lexeme_request (inputs : list string) (st : state) : run :=
  let s := request_total_lexeme inputs (config st) in
  let st := show (lx_shown s)
                 {| config := lx_config s; world := world st;
                    trace := trace st |} in
  match lx_state s with
  | LexemeReturned => stop_at Returned st (lx_unread s)
  | _ => stop_at Waiting st []
  end.

(** A call of [configure_settings()]. *)
Definition settings_request (inputs : list string) (st : state) : run :=
  let s := configure_settings Path inputs (config st) in
  let st := show (shown s)
                 {| config := Interactive.config s; world := world st;
                    trace := trace st |} in
  match at_state s with
  | Configured => stop_at Returned st (unread s)
  | _ => stop_at Waiting st []
  end.

(** A call of [run_request()]. *)
Definition runner_request (inputs : list string) (st : state) : run :=
  let '(r, st') :=
    run_request W extern
      {| st_config := config st; st_world := world st; st_output := [] |} in
  let st := show (st_output st')
                 {| config := st_config st'; world := st_world st';
                    trace := trace st |} in
  match r with
  | Ret _ => stop_at Returned st inputs
  | Raise e => stop_at (Raised e) st inputs
  end.

(** Lines 279-306: [request_total_lexeme_loop]. *)
Fixpoint request_total_lexeme_loop (turns : nat) (inputs : list string)
    (st : state) : run :=
  match turns with
  | O => stop_at OutOfTurns st inputs
  | S turns =>
      let st := emit (Select WHAT_TO_DO LEXEME_CHOICES) st in
      match inputs with
      | [] => stop_at Waiting st []
      | choice :: inputs =>
          if negb (offered LEXEME_CHOICES choice) then
            stop_at NotOffered st inputs
          else if String.eqb choice "run" then
            let c := config st in
            let st :=
              emit (TotalWrapper (selected_languages c)
                                 (selected_data_types c) false) st in
            match total_wrapper (selected_languages c) (selected_data_types c)
                                false (world st) with
            | (Raise e, w) =>
                stop_at (Raised e)
                  {| config := config st; world := w; trace := trace st |}
                  inputs
            | (Ret _, w) =>
                let c := set_selected_data_types []
                           (set_selected_languages [] (config st)) in
                let st := {| config := c; world := w; trace := trace st |} in
                stop_at Returned (emit (Shown (Rprint MESSAGE)) st) inputs
            end
          else if String.eqb choice "exit" then stop_at Returned st inputs
          else
            let r := lexeme_request inputs st in
            match stopped r with
            | Returned => request_total_lexeme_loop turns (rest r) (final r)
            | _ => r
            end
      end
  end.

(** Lines 309-328: [see_list_languages]. *)
Definition see_list_languages (inputs : list string) (st : state) : run :=
  let st := emit (Select WHAT_TO_LIST LIST_CHOICES) st in
  match inputs with
  | [] => stop_at Waiting st []
  | choice :: inputs =>
      if negb (offered LIST_CHOICES choice) then stop_at NotOffered st inputs
      else
        let kw :=
          if String.eqb choice "all_languages"
          then Some [("all_bool", VBool true)]
          else if String.eqb choice "languages_for_data_type"
          then Some [("data_type", VBool true)]
          else if String.eqb choice "data_types_for_language"
          then Some [("language", VBool true)]
          else None in
        match kw with
        | None => stop_at Returned st inputs
        | Some kw =>
            let st := emit (Shown (Call "list_wrapper" kw)) st in
            match extern "list_wrapper" kw (world st) with
            | (Raise e, w) =>
                stop_at (Raised e)
                  {| config := config st; world := w; trace := trace st |}
                  inputs
            | (Ret _, w) =>
                stop_at Returned
                  {| config := config st; world := w; trace := trace st |}
                  inputs
            end
        end
  end.

(** Lines 338-374: the loop of [start_interactive_mode]. *)
Fixpoint main_menu (turns : nat) (inputs : list string) (st : state) : run :=
  match turns with
  | O => stop_at OutOfTurns st inputs
  | S turns =>
      let choices := main_choices (config st) in
      let st := emit (Select WHAT_TO_DO choices) st in
      match inputs with
      | [] => stop_at Waiting st []
      | choice :: inputs =>
          if negb (offered choices choice) then stop_at NotOffered st inputs
          else if String.eqb choice "configure" then
            let r := settings_request inputs st in
            match stopped r with
            | Returned => main_menu turns (rest r) (final r)
            | _ => r
            end
          else if String.eqb choice "total" then
            let r := lexeme_request inputs st in
            match stopped r with
            | Returned =>
                request_total_lexeme_loop (S (length (rest r))) (rest r)
                                          (final r)
            | _ => r
            end
          else if String.eqb choice "languages" then
            see_list_languages inputs st
          else if String.eqb choice "run" then
            let r := runner_request inputs st in
            match stopped r with
            | Returned =>
                stop_at Returned (emit (Shown (Rprint MESSAGE)) (final r))
                        (rest r)
            | _ => r
            end
          else stop_at Returned (emit (Shown (Rprint MESSAGE)) st) inputs
      end
  end.

Definition WELCOME : string :=
  "[bold cyan]Welcome to " +:+ version_message
  +:+ " interactive mode![/bold cyan]".

(** Lines 331-374. *)
Definition start_interactive_mode (inputs : list string) (st : state) : run :=
  main_menu (S (length inputs)) inputs (emit (Shown (Rprint WELCOME)) st).

(** The state in which the module is loaded: [config = ScribeDataConfig()]
    and nothing shown. *)
Definition loaded (c : ScribeDataConfig) (w : W) : state :=
  {| config := c; world := w; trace := [] |}.

End Menus.

Arguments config {W} _.
Arguments world {W} _.
Arguments trace {W} _.
Arguments stopped {W} _.
Arguments final {W} _.
Arguments rest {W} _.
Arguments loaded {W} c w.

(** The events of [interactive.py] proper among those of the menus. *)
Definition shown_in (tr : list event) : list Interactive.event :=
  omap (λ e, match e with Shown e => Some e | _ => None end) tr.

(** The [total_wrapper] calls among the events. *)
Definition total_calls (tr : list event) : list (list string * list string * bool) :=
  omap (λ e, match e with
             | TotalWrapper l d a => Some (l, d, a)
             | _ => None
             end) tr.

End Menu.

(* ===================================================================== *)
(** ** Reading a run of the menus                                         *)
(* ===================================================================== *)

Module MenuReading.
Import Py PyStr Interactive Settled Menu.

(** Every byte of the text is an ASCII white-space character or a byte
    of a character outside ASCII: what holds of a text of white space
    only, and leaves it no letter and no comma. *)
Definition blank (text : string) : Prop :=
  Forall (λ b, is_space b = true ∨ (128 ≤ nat_of_ascii b)%nat)
         (list_ascii_of_string text).

(** [c'] differs from [c] in the two selections at most. *)
Definition same_outside_selections (c c' : ScribeDataConfig) : Prop :=
  languages c' = languages c ∧ data_types c' = data_types c
  ∧ output_type c' = output_type c ∧ output_dir c' = output_dir c
  ∧ overwrite c' = overwrite c ∧ configured c' = configured c.

(** A configuration [run_request] can work on. *)
Definition complete (c : ScribeDataConfig) : Prop :=
  chosen_from (selected_languages c) (languages c)
  ∧ chosen_from (selected_data_types c) (data_types c)
  ∧ output_type c ∈ OUTPUT_TYPES.

(** The keyword arguments are those of an export of a language and a data
    type of the registry of [c], in one of the three output types. *)
Definition registry_export (c : ScribeDataConfig) (kw : kwargs) : Prop :=
  ∃ language data_type c',
    language ∈ languages c ∧ data_type ∈ data_types c
    ∧ output_type c' ∈ OUTPUT_TYPES
    ∧ kw = get_data_kwargs c' language data_type.

(** An event that is neither the error of [run_request] nor an export
    outside the registry of [c]. *)
Definition harmless (c : ScribeDataConfig) (e : Menu.event) : Prop :=
  match e with
  | Shown (Rprint text) => text ≠ NOT_CONFIGURED
  | Shown (Call callee kw) => callee = "get_data" → registry_export c kw
  | _ => True
  end.

(** What the main loop keeps true of [config] from one turn to the next. *)
Definition kept (c0 c : ScribeDataConfig) : Prop :=
  languages c = languages c0 ∧ data_types c = data_types c0
  ∧ (configured c = true → complete c).

(** The [list_wrapper] calls among the events. *)
Definition list_calls (tr : list Menu.event) : list kwargs :=
  omap (λ e, match e with
             | Shown (Call callee kw) =>
                 if String.eqb callee "list_wrapper" then Some kw else None
             | _ => None
             end) tr.

End MenuReading.

(* ===================================================================== *)
(** ** More sample data                                                   *)
(* ===================================================================== *)

Module Scenarios.
Import Py Interactive.

(** One pass through [configure_settings]: English, nouns, json, the
    default directory, overwrite. *)
Definition english_nouns : list string := ["English"; "nouns"; "json"; ""; "Y"].

(** The validator returns; every other imported function is interrupted. *)
Definition interrupted_export : string → kwargs → unit → result value * unit :=
  λ callee _ w,
    if String.eqb callee "validate_language_and_data_type"
    then (Ret VNone, w)
    else (Raise KeyboardInterrupt, w).

(** [--upgrade get --language Portuguese --data-type proper-nouns] *)
Definition get_upgrade : Main.Namespace :=
  Main.get_namespace "get" true (Some "Portuguese") (Some "proper-nouns")
    (Some "json") None None false None false "camel".

(** The row of [ser] without the field the formatter does not read. *)
Definition verb_ser_bare : FormatVerbs.row :=
  list_to_map [("infinitive", "ser"); ("presFPS", "sou")].

(** A [total_wrapper] that does nothing and returns [None]. *)
Definition quiet_totals
    : list string → list string → bool → unit → result value * unit :=
  λ _ _ _ w, (Ret VNone, w).

(** A [get_data] that succeeds on every call. *)
Definition succeeding : string → kwargs → unit → value * unit :=
  λ _ _ w, (VBool true, w).

Definition VERSION : string := "Scribe-Data v4.1.0".

(** The no-break space U+00A0, in UTF-8. *)
Definition NO_BREAK_SPACE : string :=
  String (ascii_of_nat 194) (String (ascii_of_nat 160) EmptyString).

(** The em space U+2003, in UTF-8. *)
Definition EM_SPACE : string :=
  String (ascii_of_nat 226)
    (String (ascii_of_nat 128) (String (ascii_of_nat 131) EmptyString)).

End Scenarios.

(* ===================================================================== *)
(** * Properties                                                          *)
(* ===================================================================== *)

(** ** Strings *)

Section StrFacts.
Import PyStr.

Ltac each_char c := destruct c as [[] [] [] [] [] [] [] []].

Lemma lower_char_not_A c : lower_char c ≠ "A"%char.
Proof. each_char c; by vm_compute. Qed.

Lemma upper_A_lower_a c :
  Ascii.eqb (upper_char c) "A" = Ascii.eqb (lower_char c) "a".
Proof. each_char c; by vm_compute. Qed.

Lemma lower_char_y_eqb c :
  Ascii.eqb (lower_char c) "y" = Ascii.eqb c "y" || Ascii.eqb c "Y".
Proof. each_char c; by vm_compute. Qed.

Lemma lower_char_y c :
  lower_char c = "y"%char ↔ c = "y"%char ∨ c = "Y"%char.
Proof.
  rewrite <- !Ascii.eqb_eq, lower_char_y_eqb. apply orb_true_iff.
Qed.

(** No capital A is left in a lower-cased text. *)
Lemma lower_has_no_A rest s : contains (String "A" rest) (lower s) = false.
Proof.
  induction s as [|c s IH]; [done|].
  cbn [lower contains startswith]. rewrite IH, orb_false_r.
  destruct (Ascii.eqb_spec "A" (lower_char c)) as [Heq|Hne]; [|done].
  by destruct (lower_char_not_A c).
Qed.

(** The test of line 145: the capitalised answer contains [All] exactly
    when the answer begins with a, l, l in any letter case. *)
Lemma capitalize_contains_All s :
  contains "All" (capitalize s) = startswith "all" (lower s).
Proof.
  destruct s as [|c s]; [done|].
  unfold capitalize. cbn [contains lower].
  rewrite lower_has_no_A, orb_false_r. cbn [startswith].
  by rewrite (Ascii.eqb_sym "A"), upper_A_lower_a, (Ascii.eqb_sym "a").
Qed.

Lemma lower_is_y s : lower s = "y" ↔ s = "y" ∨ s = "Y".
Proof.
  destruct s as [|c [|c' s]]; simpl.
  - split; [done|]. by intros [|].
  - split.
    + intros [= H]. apply lower_char_y in H as [->| ->]; auto.
    + intros [[= ->]|[= ->]]; done.
  - split; [done|]. by intros [|].
Qed.

(** The choice of lines 175-179. *)
Lemma overwrite_choice_true answer :
  Interactive.overwrite_choice answer = true
  ↔ answer = "" ∨ answer = "y" ∨ answer = "Y".
Proof.
  unfold Interactive.overwrite_choice, Interactive.or_str.
  destruct (String.eqb_spec answer "") as [->|Hne]; simpl.
  - split; auto.
  - rewrite String.eqb_eq, lower_is_y. split; [tauto|].
    intros [?|?]; [done|tauto].
Qed.

(** [split] undoes [join] on pieces that hold no separator. *)
Lemma free_of_cons sep c s :
  free_of sep (String c s) ↔ c ≠ sep ∧ free_of sep s.
Proof.
  split.
  - intros H. split.
    + intros ->. by apply (H 0%nat).
    + intros n. apply (H (S n)).
  - intros [Hc Hs] [|n]; simpl; [congruence|apply Hs].
Qed.

Lemma split_free sep s : free_of sep s → split sep s = [s].
Proof.
  induction s as [|c s IH]; [done|].
  intros [Hc Hs]%free_of_cons. simpl.
  destruct (Ascii.eqb_spec c sep); [done|]. by rewrite IH.
Qed.

Lemma split_piece_sep sep piece rest :
  free_of sep piece →
  split sep (piece +:+ String sep rest) = piece :: split sep rest.
Proof.
  induction piece as [|c piece IH]; simpl.
  - intros _. by rewrite Ascii.eqb_refl.
  - intros [Hc Hs]%free_of_cons.
    destruct (Ascii.eqb_spec c sep); [done|]. by rewrite IH.
Qed.

Lemma split_join sep pieces :
  pieces ≠ [] → Forall (free_of sep) pieces →
  split sep (join (String sep "") pieces) = pieces.
Proof.
  intros Hne Hfree. induction Hfree as [|piece pieces Hp Hfree IH]; [done|].
  destruct pieces as [|piece' pieces].
  - simpl. by apply split_free.
  - change (join (String sep "") (piece :: piece' :: pieces))
      with (piece +:+ String sep (join (String sep "") (piece' :: pieces))).
    rewrite split_piece_sep by done. by rewrite IH.
Qed.

End StrFacts.

(** ** The configuration session *)

Section SessionFacts.
Import Py PyStr Interactive.

Variable Path : string → string.

Lemma after_answer_prompt out s answer :
  after out (answer_prompt Path s answer)
  = answer_prompt Path (after out s) answer.
Proof.
  destruct s as [state c shown unread]. unfold answer_prompt, after; simpl.
  destruct state; simpl; try done;
    repeat match goal with
           | |- context [match ?l with [] => _ | _ :: _ => _ end] => destruct l
           | |- context [decide ?P] => destruct (decide P)
           end; simpl; by rewrite ?app_assoc.
Qed.

Lemma output_dir_onwards_snoc inputs c out answer :
  output_dir_onwards Path (inputs ++ [answer]) c out
  = answer_prompt Path (output_dir_onwards Path inputs c out) answer.
Proof.
  destruct inputs as [|dir [|ov rest]]; simpl; unfold answer_prompt; simpl.
  - by rewrite <- app_assoc.
  - done.
  - done.
Qed.

Lemma output_type_loop_snoc inputs c out answer :
  output_type_loop Path (inputs ++ [answer]) c out
  = answer_prompt Path (output_type_loop Path inputs c out) answer.
Proof.
  revert c out. induction inputs as [|t inputs IH]; intros c out; simpl.
  - destruct (decide (output_type c ∈ _)) as [Hin|Hout].
    + apply (output_dir_onwards_snoc []).
    + unfold answer_prompt; simpl.
      destruct (decide (answer ∈ _)); simpl; by rewrite <- app_assoc.
  - destruct (decide (output_type c ∈ _)) as [Hin|Hout].
    + apply (output_dir_onwards_snoc (t :: inputs)).
    + apply IH.
Qed.

Lemma output_type_onwards_snoc inputs c out answer :
  output_type_onwards Path (inputs ++ [answer]) c out
  = answer_prompt Path (output_type_onwards Path inputs c out) answer.
Proof.
  destruct inputs as [|t inputs]; unfold output_type_onwards; simpl.
  - unfold answer_prompt; simpl.
    destruct (decide (answer ∈ _)); simpl; by rewrite <- app_assoc.
  - apply output_type_loop_snoc.
Qed.

Lemma configure_settings_snoc_bounded n :
  ∀ inputs, (length inputs ≤ n)%nat → ∀ c answer,
    configure_settings Path (inputs ++ [answer]) c
    = answer_prompt Path (configure_settings Path inputs c) answer.
Proof.
  induction n as [n IH] using lt_wf_ind. intros inputs Hn c answer.
  destruct inputs as [|l inputs].
  - simpl. unfold answer_prompt; simpl.
    by destruct (language_selection c answer).
  - simpl in *.
    destruct (language_selection c l) as [|l1 ls] eqn:Hl.
    + rewrite (IH (length inputs)) by lia || done.
      apply after_answer_prompt.
    + destruct inputs as [|d inputs].
      * simpl. unfold answer_prompt; simpl.
        destruct (data_type_selection _ answer); simpl;
          by rewrite <- ?app_assoc.
      * simpl in *.
        destruct (data_type_selection _ d) as [|d1 ds] eqn:Hd.
        -- rewrite (IH (length inputs)) by lia || done.
           apply after_answer_prompt.
        -- rewrite output_type_onwards_snoc. apply after_answer_prompt.
Qed.

(** [configure_settings] on a script with one more answer is the session
    of the shorter script with the waiting prompt answered. *)
Lemma answer_prompt_refines inputs c answer :
  configure_settings Path (inputs ++ [answer]) c
  = answer_prompt Path (configure_settings Path inputs c) answer.
Proof. by apply (configure_settings_snoc_bounded (length inputs)). Qed.

Lemma language_selection_registry c1 c2 answer :
  languages c1 = languages c2 →
  language_selection c1 answer = language_selection c2 answer.
Proof. unfold language_selection. by intros ->. Qed.

(** The registry lists are never assigned to. *)
Lemma react_registry state c answer :
  languages (react Path state c answer).1.2 = languages c
  ∧ data_types (react Path state c answer).1.2 = data_types c.
Proof.
  destruct state; simpl;
    repeat match goal with
           | |- context [match ?l with [] => _ | _ :: _ => _ end] => destruct l
           | |- context [decide ?P] => destruct (decide P)
           | |- context [String.eqb ?a ?b] => destruct (String.eqb a b)
           end; done.
Qed.

Lemma configure_settings_registry inputs c :
  languages (config (configure_settings Path inputs c)) = languages c
  ∧ data_types (config (configure_settings Path inputs c)) = data_types c.
Proof.
  induction inputs as [|answer inputs IH] using rev_ind; [done|].
  rewrite answer_prompt_refines. unfold answer_prompt.
  pose proof (react_registry (at_state (configure_settings Path inputs c))
                (config (configure_settings Path inputs c)) answer) as Hr.
  destruct (at_state (configure_settings Path inputs c)); try done;
    destruct (react Path _ _ answer) as [[s' c'] out]; simpl in *;
    destruct IH, Hr; split; congruence.
Qed.

(** No token in the registry, and no [All]: nothing is selected. *)
Lemma no_valid_token (registry : list string) answer :
  Forall (λ token, token ∉ registry) (strip <$> split "," answer) →
  filter (λ token, token ∈ registry) (strip <$> split "," answer) = [].
Proof.
  induction 1 as [|token tokens Hout _ IH]; [done|].
  by rewrite filter_cons_False.
Qed.

Lemma invalid_languages_select_nothing c answer :
  contains "All" answer = false →
  Forall (λ token, token ∉ languages c) (strip <$> split "," answer) →
  language_selection c answer = [].
Proof.
  intros Hall Hout. unfold language_selection. rewrite Hall.
  by apply no_valid_token.
Qed.

Lemma invalid_data_types_select_nothing c answer :
  contains "All" (capitalize answer) = false →
  Forall (λ token, token ∉ data_types c) (strip <$> split "," answer) →
  data_type_selection c answer = [].
Proof.
  intros Hall Hout. unfold data_type_selection. rewrite Hall.
  by apply no_valid_token.
Qed.

(** What an answer containing [All] does at the language prompt, and what
    [All] in any letter case does at the data-type prompt. *)
Lemma language_prompt_All inputs c answer :
  at_state (configure_settings Path inputs c) = AwaitingLanguages →
  contains "All" answer = true →
  selected_languages (config (configure_settings Path (inputs ++ [answer]) c))
  = languages (config (configure_settings Path inputs c)).
Proof.
  intros Hat Hall. rewrite answer_prompt_refines. unfold answer_prompt.
  rewrite Hat; simpl. unfold language_selection. rewrite Hall.
  by destruct (languages _).
Qed.

Lemma data_type_prompt_all_any_case inputs c answer :
  at_state (configure_settings Path inputs c) = AwaitingDataTypes →
  lower answer = "all" →
  selected_data_types (config (configure_settings Path (inputs ++ [answer]) c))
  = data_types (config (configure_settings Path inputs c)).
Proof.
  intros Hat Hall. rewrite answer_prompt_refines. unfold answer_prompt.
  rewrite Hat; simpl. unfold data_type_selection.
  rewrite capitalize_contains_All, Hall; simpl.
  by destruct (data_types _).
Qed.

(** C4 (amended).  At the overwrite prompt the answer ends the session
    ([Configured]) and [config.overwrite] becomes true exactly for the
    empty answer and for the answers [y] and [Y]; every other answer sets
    it to false, in particular every non-empty answer that does not start
    with [y] or [Y]. *)
Theorem overwrite_prompt_answer inputs c answer :
  at_state (configure_settings Path inputs c) = AwaitingOverwrite →
  let s' := configure_settings Path (inputs ++ [answer]) c in
  at_state s' = Configured
  ∧ (overwrite (config s') = true ↔ answer = "" ∨ answer = "y" ∨ answer = "Y")
  ∧ (answer ≠ "" ∧ startswith "y" answer = false
     ∧ startswith "Y" answer = false → overwrite (config s') = false).
Proof.
  intros Hat. cbv zeta. rewrite answer_prompt_refines. unfold answer_prompt.
  rewrite Hat; simpl. split; [done|]. split.
  - apply overwrite_choice_true.
  - intros (Hne & Hy & HY). apply not_true_is_false.
    intros [->|[->| ->]]%overwrite_choice_true; done.
Qed.

(** C5 (amended).  When the selection made from an answer is empty (as it
    is when every trimmed token of the answer is outside the registry and
    the answer does not ask for all), [configure_settings] prints the
    warning of the step and calls itself: the session is back at the
    language prompt, after an empty language selection and after an empty
    data-type selection alike, and never at the prompt that follows.  No
    count of attempts is kept: any number of answers with an empty
    language selection leaves the session at the language prompt, with
    one warning for each. *)
Theorem empty_selection_restarts c :
  (∀ inputs answer,
     let s := configure_settings Path inputs c in
     let s' := configure_settings Path (inputs ++ [answer]) c in
     (at_state s = AwaitingLanguages
      ∧ language_selection (config s) answer = [])
     ∨ (at_state s = AwaitingDataTypes
        ∧ data_type_selection (config s) answer = []) →
     at_state s' = AwaitingLanguages
     ∧ shown s' =
       shown s ++
       [ Rprint (if at_state s is AwaitingLanguages
                 then NO_LANGUAGE else NO_DATA_TYPE);
         Rprint FOLLOW_PROMPTS;
         Prompt ASK_LANGUAGES (join ", " (selected_languages (config s'))) ])
  ∧ (∀ answers,
       Forall (λ answer, language_selection c answer = []) answers →
       let s := configure_settings Path answers c in
       at_state s = AwaitingLanguages
       ∧ length (filter (λ text, text = NO_LANGUAGE) (printed (shown s)))
         = length answers).
Proof.
  split.
  - intros inputs answer. cbv zeta. rewrite answer_prompt_refines.
    unfold answer_prompt.
    intros [[Hat Hsel]|[Hat Hsel]]; rewrite Hat; simpl; by rewrite Hsel.
  - intros answers Hall. cbv zeta.
    induction answers as [|answer answers IH] using rev_ind; [done|].
    apply Forall_app in Hall as [Hall Hlast].
    apply Forall_inv in Hlast.
    destruct (IH Hall) as [Hat Hcount]. clear IH.
    rewrite answer_prompt_refines. unfold answer_prompt. rewrite Hat; simpl.
    rewrite (language_selection_registry _ c)
      by apply configure_settings_registry.
    rewrite Hlast; simpl. split; [done|].
    unfold printed in *. rewrite omap_app, filter_app, !length_app, Hcount.
    done.
Qed.

(** C6 (amended).  At the language prompt an answer that does not contain
    [All], and at the data-type prompt an answer whose capitalised form
    does not contain [All] (an answer that does not begin with a, l, l in
    any letter case), selects exactly the trimmed comma-separated tokens
    that are in the registry list of the step, in the order of the answer
    (a sublist of the tokens); the other tokens are dropped and, when a
    token is kept, nothing but the next prompt is shown. *)
Theorem selection_keeps_valid_tokens inputs c answer :
  let s := configure_settings Path inputs c in
  let s' := configure_settings Path (inputs ++ [answer]) c in
  (at_state s = AwaitingLanguages ∧ contains "All" answer = false)
  ∨ (at_state s = AwaitingDataTypes
     ∧ contains "All" (capitalize answer) = false) →
  let tokens := strip <$> split "," answer in
  let registry := if at_state s is AwaitingLanguages
                  then languages (config s) else data_types (config s) in
  let selection := if at_state s is AwaitingLanguages
                   then selected_languages (config s')
                   else selected_data_types (config s') in
  selection = filter (λ token, token ∈ registry) tokens
  ∧ sublist selection tokens
  ∧ (∀ token, token ∈ selection ↔ token ∈ tokens ∧ token ∈ registry)
  ∧ (selection ≠ [] →
     at_state s' = (if at_state s is AwaitingLanguages
                    then AwaitingDataTypes else AwaitingOutputType)
     ∧ shown s' =
       shown s ++
       [ if at_state s is AwaitingLanguages
         then Prompt ASK_DATA_TYPES (join ", " (selected_data_types (config s')))
         else Prompt ASK_OUTPUT_TYPE "" ]).
Proof.
  cbv zeta. rewrite answer_prompt_refines. unfold answer_prompt.
  intros [[Hat Hall]|[Hat Hall]]; rewrite Hat; simpl.
  - unfold language_selection. rewrite Hall.
    set (registry := languages (config (configure_settings Path inputs c))).
    set (tokens := strip <$> split "," answer).
    assert (Hsel : ∀ l, l = filter (λ token, token ∈ registry) tokens →
              l = filter (λ token, token ∈ registry) tokens
              ∧ sublist l tokens
              ∧ (∀ token, token ∈ l ↔ token ∈ tokens ∧ token ∈ registry)).
    { intros l ->. split; [done|]. split; [apply sublist_filter|].
      intros token. rewrite list_elem_of_filter. tauto. }
    destruct (filter _ tokens) as [|t ts] eqn:Hf; simpl.
    + destruct (Hsel [] eq_refl) as (? & ? & ?).
      split; [done|]. split; [done|]. split; [done|]. by intros [].
    + destruct (Hsel (t :: ts) eq_refl) as (? & ? & ?).
      split; [done|]. split; [done|]. split; [done|]. by intros _.
  - unfold data_type_selection. rewrite Hall.
    set (registry := data_types (config (configure_settings Path inputs c))).
    set (tokens := strip <$> split "," answer).
    assert (Hsel : ∀ l, l = filter (λ token, token ∈ registry) tokens →
              l = filter (λ token, token ∈ registry) tokens
              ∧ sublist l tokens
              ∧ (∀ token, token ∈ l ↔ token ∈ tokens ∧ token ∈ registry)).
    { intros l ->. split; [done|]. split; [apply sublist_filter|].
      intros token. rewrite list_elem_of_filter. tauto. }
    destruct (filter _ tokens) as [|t ts] eqn:Hf; simpl.
    + destruct (Hsel [] eq_refl) as (? & ? & ?).
      split; [done|]. split; [done|]. split; [done|]. by intros [].
    + destruct (Hsel (t :: ts) eq_refl) as (? & ? & ?).
      split; [done|]. split; [done|]. split; [done|]. by intros _.
Qed.

End SessionFacts.

(** ** The request runner *)

Section RunnerFacts.
Import Py Interactive.

Variable W : Type.

Implicit Types (f : string → kwargs → W → value * W)
  (extern : string → kwargs → W → result value * W).

Lemma replay_app f c items1 items2 w :
  replay f c (items1 ++ items2) w =
  ((replay f c items1 w).1 ++ (replay f c items2 (replay f c items1 w).2).1,
   (replay f c items2 (replay f c items1 w).2).2).
Proof.
  revert w. induction items1 as [|item items1 IH]; intros w; simpl.
  - by destruct (replay f c items2 w).
  - destruct (f "get_data" _ w) as [v w1]. rewrite IH.
    destruct (replay f c items1 w1) as [out1 w2]; simpl.
    by destruct (replay f c items2 w2) as [out2 w3].
Qed.

Lemma get_data_calls_app out1 out2 :
  get_data_calls (out1 ++ out2) = get_data_calls out1 ++ get_data_calls out2.
Proof. apply omap_app. Qed.

Lemma logged_app out1 out2 : logged (out1 ++ out2) = logged out1 ++ logged out2.
Proof. apply omap_app. Qed.

Lemma replay_calls f c items w :
  get_data_calls (replay f c items w).1 =
  (λ item, get_data_kwargs c item.1 item.2) <$> items.
Proof.
  revert w. induction items as [|item items IH]; intros w; simpl; [done|].
  destruct (f "get_data" _ w) as [v w1]. specialize (IH w1).
  destruct (replay f c items w1) as [out w2]; simpl in *. by rewrite IH.
Qed.

Lemma replay_logged f c items w :
  logged (replay f c items w).1 = zip_with log_line items (outcomes f c items w).
Proof.
  revert w. induction items as [|item items IH]; intros w; simpl; [done|].
  destruct (f "get_data" _ w) as [v w1]. specialize (IH w1).
  destruct (replay f c items w1) as [out w2]; simpl in *. by rewrite IH.
Qed.

Lemma outcomes_length f c items w : length (outcomes f c items w) = length items.
Proof.
  revert w. induction items as [|item items IH]; intros w; simpl; [done|].
  destruct (f "get_data" _ w) as [v w1]. simpl. by rewrite IH.
Qed.

Lemma pairs_of_language (language : string) (data_types : list string) :
  (data_types ≫= λ data_type, [(language, data_type)])
  = pair language <$> data_types.
Proof.
  induction data_types as [|d ds IH]; csimpl; [done|]. by rewrite IH.
Qed.

Lemma work_items_length c :
  length (work_items c) =
  (length (selected_languages c) * length (selected_data_types c))%nat.
Proof.
  unfold work_items.
  induction (selected_languages c) as [|l ls IH]; csimpl; [done|].
  by rewrite length_app, IH, pairs_of_language, length_fmap.
Qed.

(** The inner loop is the flat loop over the pairs of one language. *)
Lemma for_data_types_returning f language todo (st : state W) :
  for_data_types W (returning f) language todo st =
  (Ret (),
   {| st_config := st_config st;
      st_world := (replay f (st_config st) (pair language <$> todo)
                          (st_world st)).2;
      st_output := st_output st ++
                   (replay f (st_config st) (pair language <$> todo)
                           (st_world st)).1 |}).
Proof.
  revert st. induction todo as [|data_type todo IH]; intros [c w out]; csimpl.
  - by rewrite app_nil_r.
  - unfold call, returning; csimpl.
    destruct (f "get_data" _ w) as [v w1]; csimpl.
    rewrite IH; csimpl.
    destruct (replay f c (pair language <$> todo) w1) as [out' w2]; csimpl.
    by rewrite <- !app_assoc.
Qed.

(** The two nested loops are the flat loop over the work items. *)
Lemma for_languages_returning f todo (st : state W) :
  for_languages W (returning f) todo st =
  (Ret (),
   {| st_config := st_config st;
      st_world :=
        (replay f (st_config st)
                (language ← todo;
                 data_type ← selected_data_types (st_config st);
                 [(language, data_type)]) (st_world st)).2;
      st_output :=
        st_output st ++
        (replay f (st_config st)
                (language ← todo;
                 data_type ← selected_data_types (st_config st);
                 [(language, data_type)]) (st_world st)).1 |}).
Proof.
  revert st. induction todo as [|language todo IH]; intros [c w out]; csimpl.
  - by rewrite app_nil_r.
  - rewrite for_data_types_returning; csimpl. rewrite IH; csimpl.
    rewrite pairs_of_language, replay_app; csimpl. by rewrite <- app_assoc.
Qed.

(** The loops never assign to [config], whatever the oracle does. *)
Lemma for_data_types_config extern language todo (st : state W) :
  st_config (for_data_types W extern language todo st).2 = st_config st.
Proof.
  revert st. induction todo as [|data_type todo IH]; intros st; simpl; [done|].
  unfold call; simpl. destruct (extern "get_data" _ _) as [[v|e] w1]; simpl.
  - by rewrite IH.
  - done.
Qed.

Lemma for_languages_config extern todo (st : state W) :
  st_config (for_languages W extern todo st).2 = st_config st.
Proof.
  revert st. induction todo as [|language todo IH]; intros st; simpl; [done|].
  pose proof (for_data_types_config extern language
                (selected_data_types (st_config st)) st) as Hc.
  destruct (for_data_types W extern language _ st) as [[u|e] st1]; simpl in *.
  - by rewrite IH.
  - done.
Qed.

Lemma run_request_config extern (st : state W) :
  st_config (run_request W extern st).2 = st_config st.
Proof.
  unfold run_request.
  destruct (bool_decide _ || bool_decide _); simpl; [done|].
  match goal with |- context [for_languages W extern ?t ?s] =>
    pose proof (for_languages_config extern t s) as Hc;
    destruct (for_languages W extern t s) as [[u|e] st1] end; simpl in *.
  - by destruct (overwrite (st_config st1)).
  - done.
Qed.

(** Whatever the oracle does, the [get_data] calls made are an initial
    part of the calls for the work items, and all of them when the loop
    returns. *)
Lemma calls_after_emit e (out : list event) :
  (∀ kw, e ≠ Call "get_data" kw) →
  get_data_calls (out ++ [e]) = get_data_calls out.
Proof.
  intros He. rewrite get_data_calls_app.
  destruct e; simpl; try by rewrite app_nil_r.
  destruct (String.eqb_spec callee "get_data") as [->|Hne]; simpl.
  - by destruct (He kw).
  - by rewrite app_nil_r.
Qed.

Lemma prefix_fmap {A B} (g : A → B) (l1 l2 : list A) :
  l1 `prefix_of` l2 → g <$> l1 `prefix_of` g <$> l2.
Proof. intros [k ->]. exists (g <$> k). apply fmap_app. Qed.

Lemma for_data_types_calls extern language todo (st : state W) :
  let r := for_data_types W extern language todo st in
  ∃ reached,
    reached `prefix_of` todo
    ∧ get_data_calls (st_output r.2)
      = get_data_calls (st_output st)
        ++ (get_data_kwargs (st_config st) language <$> reached)
    ∧ (r.1 = Ret () → reached = todo).
Proof.
  revert st. induction todo as [|data_type todo IH]; intros st; cbn zeta.
  - exists []. simpl. by rewrite app_nil_r.
  - cbn [for_data_types]. unfold call, emit; cbn [st_config st_world st_output].
    destruct (extern "get_data" _ (st_world st)) as [[v|e] w1].
    + match goal with |- context [for_data_types W extern language todo ?s] =>
        destruct (IH s) as (reached & Hpre & Hcalls & Hall) end.
      exists (data_type :: reached). split; [by apply prefix_cons|].
      cbn [st_config st_output] in Hcalls. split.
      * etrans; [exact Hcalls|]. rewrite !calls_after_emit by done.
        rewrite get_data_calls_app, calls_after_emit by done. csimpl.
        by rewrite <- app_assoc.
      * intros Hret. by rewrite (Hall Hret).
    + exists [data_type]. cbn [fst snd st_output]. split; [|split; [|done]].
      * apply prefix_cons, prefix_nil.
      * rewrite get_data_calls_app, calls_after_emit by done. done.
Qed.

Lemma for_languages_calls extern todo (st : state W) :
  let r := for_languages W extern todo st in
  ∃ reached,
    reached `prefix_of`
      (language ← todo;
       data_type ← selected_data_types (st_config st);
       [(language, data_type)])
    ∧ get_data_calls (st_output r.2)
      = get_data_calls (st_output st)
        ++ ((λ item, get_data_kwargs (st_config st) item.1 item.2) <$> reached)
    ∧ (r.1 = Ret () →
       reached = (language ← todo;
                  data_type ← selected_data_types (st_config st);
                  [(language, data_type)])).
Proof.
  revert st. induction todo as [|language todo IH]; intros st; cbn zeta.
  - exists []. csimpl. by rewrite app_nil_r.
  - cbn [for_languages]. csimpl. rewrite pairs_of_language.
    pose proof (for_data_types_config extern language
                  (selected_data_types (st_config st)) st) as Hconfig.
    destruct (for_data_types_calls extern language
                (selected_data_types (st_config st)) st)
      as (inner & Hpre & Hcalls & Hall).
    destruct (for_data_types W extern language _ st) as [[u|e] st1];
      cbn [fst snd] in *.
    + destruct u. rewrite (Hall eq_refl) in Hcalls. clear Hall Hpre.
      destruct (IH st1) as (reached & Hpre' & Hcalls' & Hall').
      rewrite Hconfig in Hpre', Hcalls', Hall'.
      exists ((pair language <$> selected_data_types (st_config st)) ++ reached).
      split; [by apply prefix_app|]. split.
      * rewrite Hcalls', Hcalls, fmap_app, <- list_fmap_compose.
        by rewrite <- app_assoc.
      * intros Hret. by rewrite (Hall' Hret).
    + exists (pair language <$> inner). split; [|split; [|done]].
      * apply prefix_app_r. by apply prefix_fmap.
      * by rewrite Hcalls, <- list_fmap_compose.
Qed.

Lemma run_request_calls_prefix extern c w :
  get_data_calls (st_output (run_request W extern (start c w)).2)
  `prefix_of` ((λ item, get_data_kwargs c item.1 item.2) <$> work_items c).
Proof.
  unfold run_request, start; cbn [st_config st_output].
  destruct (bool_decide _ || bool_decide _); [apply prefix_nil|].
  unfold emit; cbn [st_config st_world st_output app].
  match goal with |- context [for_languages W extern ?t ?s] =>
    destruct (for_languages_calls extern t s) as (reached & Hpre & Hcalls & _);
    destruct (for_languages W extern t s) as [[u|e] st1] end;
    cbn [fst snd st_config st_output] in *.
  - assert (Hall : get_data_calls
                     (st_output (if overwrite (st_config st1)
                                 then {| st_config := st_config st1;
                                         st_world := st_world st1;
                                         st_output := (st_output st1 ++ [TqdmClose])
                                                      ++ [Rprint COMPLETED] |}
                                 else {| st_config := st_config st1;
                                         st_world := st_world st1;
                                         st_output := st_output st1 ++ [TqdmClose] |}))
                   = get_data_calls (st_output st1)).
    { destruct (overwrite (st_config st1)); cbn [st_output];
        by rewrite !calls_after_emit. }
    rewrite Hall, Hcalls. by apply prefix_fmap.
  - rewrite calls_after_emit, Hcalls by done. by apply prefix_fmap.
Qed.

(** A run on an oracle that returns, written out. *)
Lemma run_request_returning f c w :
  run_request W (returning f) (start c w) =
  if bool_decide (selected_languages c = [])
     || bool_decide (selected_data_types c = [])
  then (Ret (), {| st_config := c; st_world := w;
                   st_output := [Rprint NOT_CONFIGURED] |})
  else (Ret (),
        {| st_config := c;
           st_world := (replay f c (work_items c) w).2;
           st_output :=
             [TqdmOpen (length (selected_languages c)
                        * length (selected_data_types c))
                       "Exporting data" "operation"]
             ++ (replay f c (work_items c) w).1 ++ [TqdmClose]
             ++ (if overwrite c then [Rprint COMPLETED] else []) |}).
Proof.
  unfold run_request, start; simpl.
  destruct (bool_decide _ || bool_decide _); [done|].
  rewrite for_languages_returning; simpl. unfold work_items, emit; simpl.
  destruct (overwrite c); simpl; f_equal; f_equal;
    rewrite <- ?app_assoc; simpl; by rewrite ?app_nil_r.
Qed.

Lemma work_items_no_language c : selected_languages c = [] → work_items c = [].
Proof. unfold work_items. by intros ->. Qed.

Lemma work_items_no_data_type c : selected_data_types c = [] → work_items c = [].
Proof.
  unfold work_items. intros ->.
  by induction (selected_languages c) as [|l ls IH]; csimpl.
Qed.

Lemma run_request_returning_calls f c w :
  get_data_calls (st_output (run_request W (returning f) (start c w)).2)
  = (λ item, get_data_kwargs c item.1 item.2) <$> work_items c.
Proof.
  rewrite run_request_returning.
  destruct (bool_decide (selected_languages c = [])) eqn:Hl;
    [|destruct (bool_decide (selected_data_types c = [])) eqn:Hd]; simpl.
  - apply bool_decide_eq_true in Hl. by rewrite work_items_no_language.
  - apply bool_decide_eq_true in Hd. by rewrite work_items_no_data_type.
  - rewrite get_data_calls_app, replay_calls.
    destruct (overwrite c); simpl; by rewrite app_nil_r.
Qed.

Lemma run_request_returning_logged f c w :
  logged (st_output (run_request W (returning f) (start c w)).2)
  = zip_with log_line (work_items c) (outcomes f c (work_items c) w).
Proof.
  rewrite run_request_returning.
  destruct (bool_decide (selected_languages c = [])) eqn:Hl;
    [|destruct (bool_decide (selected_data_types c = [])) eqn:Hd]; simpl.
  - apply bool_decide_eq_true in Hl. by rewrite work_items_no_language.
  - apply bool_decide_eq_true in Hd. by rewrite work_items_no_data_type.
  - rewrite logged_app, replay_logged.
    destruct (overwrite c); simpl; by rewrite app_nil_r.
Qed.

(** C10.  When [selected_languages] or [selected_data_types] is empty,
    [run_request] prints the error message and returns at once: nothing
    else is shown, no imported function is called (the world is the one
    it was given, and no [get_data] call is added to the events), and the
    configuration is the one it was given. *)
Theorem run_request_unconfigured extern (st : state W) :
  selected_languages (st_config st) = [] ∨
  selected_data_types (st_config st) = [] →
  let r := run_request W extern st in
  r.1 = Ret ()
  ∧ st_output r.2 = st_output st ++ [Rprint NOT_CONFIGURED]
  ∧ get_data_calls (st_output r.2) = get_data_calls (st_output st)
  ∧ st_world r.2 = st_world st
  ∧ st_config r.2 = st_config st.
Proof.
  intros Hempty. unfold run_request.
  assert (Hguard : bool_decide (selected_languages (st_config st) = [])
                   || bool_decide (selected_data_types (st_config st) = [])
                   = true).
  { destruct Hempty as [H|H]; rewrite H; simpl; [done|].
    by rewrite orb_true_r. }
  rewrite Hguard; simpl. repeat split.
  rewrite get_data_calls_app; simpl. by rewrite app_nil_r.
Qed.

Lemma bind_ret_fmap {A B} (g : A → B) (l : list A) :
  (l ≫= λ x, [g x]) = g <$> l.
Proof. induction l as [|x l IH]; csimpl; [done|]. by rewrite IH. Qed.

Lemma fmap_work_items {B} (g : string → string → B) c :
  (λ item, g item.1 item.2) <$> work_items c
  = (language ← selected_languages c;
     data_type ← selected_data_types c;
     [g language data_type]).
Proof.
  unfold work_items.
  induction (selected_languages c) as [|l ls IH]; csimpl; [done|].
  rewrite fmap_app, IH. f_equal.
  by rewrite !bind_ret_fmap, <- list_fmap_compose.
Qed.



Lemma outcomes_answering ok c items (w : W) :
  outcomes (answering ok) c items w = (λ item, ok item.1 item.2) <$> items.
Proof.
  induction items as [|item items IH]; [done|].
  cbn [outcomes answering get_data_kwargs keyword String.eqb Ascii.eqb
       Bool.eqb truthy fmap list_fmap].
  by rewrite IH.
Qed.

Lemma zip_with_fmap_r {A B C} (g : A → B → C) (h : A → B) (l : list A) :
  zip_with g l (h <$> l) = (λ x, g x (h x)) <$> l.
Proof. induction l as [|x l IH]; csimpl; [done|]. by rewrite IH. Qed.

(** C2.  Whatever [get_data] returns for each pair (the oracle [f] gives
    the value of every call, true or false), [run_request] returns
    without raising; it has called [get_data] for every pair and has
    logged, for every pair in order, the line "✔ Exported <language>
    <data type> data." when the value was true and the line "✘ Failed to
    export <language> <data type> data." when it was false.  In
    particular, for a [get_data] that succeeds on the pairs [ok] holds of
    and fails on the others, however many these are (all of them, if [ok]
    holds of none), the run returns and every pair has its line. *)
Theorem run_request_survives_failures f ok c w :
  let pairs :=
    language ← selected_languages c;
    data_type ← selected_data_types c;
    [(language, data_type)] in
  let call_for (item : string * string) : kwargs :=
    [ ("language", VStr item.1);
      ("data_type", VStr item.2);
      ("output_type", VStr (output_type c));
      ("output_dir", VStr (output_dir c));
      ("overwrite", VBool (overwrite c));
      ("interactive", VBool true) ] in
  let line (item : string * string) (success : bool) : string :=
    if success
    then "[green]✔ Exported " +:+ item.1 +:+ " " +:+ item.2
         +:+ " data.[/green]"
    else "[red]✘ Failed to export " +:+ item.1 +:+ " " +:+ item.2
         +:+ " data.[/red]" in
  let r := run_request W (returning f) (start c w) in
  let r1 := run_request W (returning (answering ok)) (start c w) in
  r.1 = Ret ()
  ∧ get_data_calls (st_output r.2) = call_for <$> pairs
  ∧ logged (st_output r.2) = zip_with line pairs (outcomes f c pairs w)
  ∧ length (logged (st_output r.2))
    = (length (selected_languages c) * length (selected_data_types c))%nat
  ∧ r1.1 = Ret ()
  ∧ get_data_calls (st_output r1.2) = call_for <$> pairs
  ∧ logged (st_output r1.2)
    = (λ item, line item (ok item.1 item.2)) <$> pairs.
Proof.
  intros pairs call_for line r r1. subst r r1.
  change pairs with (work_items c).
  split; [|split; [|split; [|split; [|split; [|split]]]]].
  - rewrite run_request_returning. by destruct (_ || _).
  - apply run_request_returning_calls.
  - apply run_request_returning_logged.
  - rewrite run_request_returning_logged, length_zip_with, outcomes_length,
      work_items_length. lia.
  - rewrite run_request_returning. by destruct (_ || _).
  - apply run_request_returning_calls.
  - rewrite run_request_returning_logged, outcomes_answering.
    apply (zip_with_fmap_r log_line).
Qed.

End RunnerFacts.

(** ** The session and the runner on sample data *)

Section OnSamples.
Import Py PyStr Interactive Samples.

(** C3.  The claim fails at the language prompt: the test of line 123 is
    the case-sensitive ["All" in answer].  With the sample registry the
    answer [all] selects no language, the warning is printed and the
    language prompt is shown again, whereas the same answer at the
    data-type prompt (line 145 capitalises the answer first) selects
    every data type. *)
Theorem lower_case_all_at_language_prompt :
  language_selection registry "all" = []
  ∧ selected_languages (config (configure_settings plain_path ["all"] registry))
    ≠ languages registry
  ∧ at_state (configure_settings plain_path ["all"] registry) = AwaitingLanguages
  ∧ shown (configure_settings plain_path ["all"] registry)
    = shown (configure_settings plain_path [] registry)
      ++ [Rprint NO_LANGUAGE; Rprint FOLLOW_PROMPTS; Prompt ASK_LANGUAGES ""]
  ∧ selected_languages
      (config (configure_settings plain_path ["All"] registry))
    = languages registry
  ∧ selected_data_types
      (config (configure_settings plain_path ["All"; "all"] registry))
    = data_types registry.
Proof. by vm_compute. Qed.

(** C4, the claim as stated fails: [yes] starts with [y], and the session
    that receives it at the overwrite prompt ends with
    [config.overwrite] false. *)
Lemma overwrite_yes_is_refused :
  at_state (configure_settings plain_path
              ["English"; "nouns"; "json"; ""] registry) = AwaitingOverwrite
  ∧ startswith "y" "yes" = true
  ∧ overwrite (config (configure_settings plain_path
                         ["English"; "nouns"; "json"; ""; "yes"] registry))
    = false.
Proof. by vm_compute. Qed.

Lemma overwrite_prompt_answer_witness :
  at_state (configure_settings plain_path
              ["English"; "nouns"; "json"; ""] registry) = AwaitingOverwrite
  ∧ at_state (configure_settings plain_path
                (["English"; "nouns"; "json"; ""] ++ ["Y"]) registry)
    = Configured
  ∧ (overwrite (config (configure_settings plain_path
                          (["English"; "nouns"; "json"; ""] ++ ["Y"]) registry))
     = true ↔ "Y" = "" ∨ "Y" = "y" ∨ "Y" = "Y")
  ∧ ("Y" ≠ "" ∧ startswith "y" "Y" = false ∧ startswith "Y" "Y" = false →
     overwrite (config (configure_settings plain_path
                          (["English"; "nouns"; "json"; ""] ++ ["Y"]) registry))
     = false).
Proof.
  split; [reflexivity|].
  apply (overwrite_prompt_answer plain_path
           ["English"; "nouns"; "json"; ""] registry "Y").
  reflexivity.
Defined.

(** C5, the claim as stated fails at the data-type prompt: every token of
    the answer [zzz] is outside the registry, and the session goes from
    the data-type prompt to the language prompt. *)
Lemma empty_data_types_leave_the_prompt :
  at_state (configure_settings plain_path ["English"] registry)
  = AwaitingDataTypes
  ∧ Forall (λ token, token ∉ data_types registry) (strip <$> split "," "zzz")
  ∧ at_state (configure_settings plain_path ["English"; "zzz"] registry)
    = AwaitingLanguages
  ∧ at_state (configure_settings plain_path ["English"; "zzz"] registry)
    ≠ at_state (configure_settings plain_path ["English"] registry).
Proof.
  split; [reflexivity|]. split; [|by vm_compute].
  apply (bool_decide_unpack _). by vm_compute.
Qed.

Lemma empty_selection_restarts_witness :
  (at_state (configure_settings plain_path ["English"] registry)
   = AwaitingDataTypes
   ∧ data_type_selection
       (config (configure_settings plain_path ["English"] registry)) "zzz" = [])
  ∧ at_state (configure_settings plain_path (["English"] ++ ["zzz"]) registry)
    = AwaitingLanguages
  ∧ shown (configure_settings plain_path (["English"] ++ ["zzz"]) registry)
    = shown (configure_settings plain_path ["English"] registry)
      ++ [Rprint NO_DATA_TYPE; Rprint FOLLOW_PROMPTS;
          Prompt ASK_LANGUAGES "English"].
Proof.
  split; [split; reflexivity|].
  apply (proj1 (empty_selection_restarts plain_path registry) ["English"] "zzz").
  right. split; reflexivity.
Defined.

(** C6, the claim as stated fails at the data-type prompt: the answer
    [all,nouns] does not contain [All], its tokens in the registry are
    [nouns] alone, and every data type is selected. *)
Lemma lower_case_all_token_selects_everything :
  at_state (configure_settings plain_path ["English"] registry)
  = AwaitingDataTypes
  ∧ contains "All" "all,nouns" = false
  ∧ filter (λ token, token ∈ data_types registry)
           (strip <$> split "," "all,nouns") = ["nouns"]
  ∧ selected_data_types
      (config (configure_settings plain_path ["English"; "all,nouns"] registry))
    = ["nouns"; "verbs"].
Proof. by vm_compute. Qed.

Lemma selection_keeps_valid_tokens_witness :
  (at_state (configure_settings plain_path [] registry) = AwaitingLanguages
   ∧ contains "All" "French , Klingon,English" = false)
  ∧ selected_languages
      (config (configure_settings plain_path
                 ([] ++ ["French , Klingon,English"]) registry))
    = ["French"; "English"].
Proof.
  split; [split; reflexivity|].
  pose proof (selection_keeps_valid_tokens plain_path [] registry
                "French , Klingon,English"
                (or_introl (conj eq_refl eq_refl))) as [Hsel _].
  exact Hsel.
Defined.

(** The scenario of the specification: French and German, nouns; the
    first export succeeds and the second fails. *)
Example french_succeeds_german_fails :
  let r := run_request nat (returning second_fails)
                       (start french_german_nouns 0%nat) in
  r.1 = Ret ()
  ∧ logged (st_output r.2)
    = [exported "French" "nouns"; failed_export "German" "nouns"].
Proof. by vm_compute. Qed.

(** An exception of [get_data] is not caught: it ends the run. *)
Example interrupted_run :
  let r := run_request unit interrupted (start french_german_nouns ()) in
  r.1 = Raise KeyboardInterrupt
  ∧ length (get_data_calls (st_output r.2)) = 1%nat.
Proof. by vm_compute. Qed.


Lemma run_request_unconfigured_witness :
  (selected_languages (st_config (start registry ())) = []
   ∨ selected_data_types (st_config (start registry ())) = [])
  ∧ (run_request unit quiet (start registry ())).1 = Ret ()
  ∧ st_output (run_request unit quiet (start registry ())).2
    = st_output (start registry ()) ++ [Rprint NOT_CONFIGURED]
  ∧ get_data_calls (st_output (run_request unit quiet (start registry ())).2)
    = get_data_calls (st_output (start registry ()))
  ∧ st_world (run_request unit quiet (start registry ())).2
    = st_world (start registry ())
  ∧ st_config (run_request unit quiet (start registry ())).2
    = st_config (start registry ()).
Proof.
  split; [left; reflexivity|].
  apply (run_request_unconfigured unit quiet (start registry ())).
  left; reflexivity.
Defined.

End OnSamples.

(** ** The command surface *)

Section MainFacts.
Import Py PyStr Main.

Variable W : Type.
Variable extern : string → kwargs → W → result value * W.

Lemma normalise_data_type_spec args data_type :
  args !! "data_type" = Some data_type →
  normalise_data_type args = Ret (<["data_type" := normalised data_type]> args).
Proof.
  intros Hdt. unfold normalise_data_type, attr. rewrite Hdt. csimpl.
  f_equal. destruct data_type as [|b|s|z]; simpl;
    try by rewrite insert_id.
  destruct (String.eqb_spec s "") as [->|Hne]; simpl; [by rewrite insert_id|done].
Qed.

Lemma truthy_normalised data_type :
  truthy (normalised data_type) = truthy data_type.
Proof.
  destruct data_type as [|b|s|z]; try done. simpl. f_equal.
  destruct s as [|c s]; done.
Qed.

(** Without a language or a data type that is a text, the keyword
    arguments of [get_data] cannot be evaluated. *)
Lemma get_data_kwargs_missing args :
  args !! "language" = Some VNone ∨ args !! "data_type" = Some VNone →
  ∃ name, get_data_kwargs args = Raise (AttributeError name).
Proof.
  unfold get_data_kwargs, attr.
  intros [Hl|Hd].
  - rewrite Hl. csimpl. eauto.
  - rewrite Hd. destruct (args !! "language") as [[|b|s|z]|]; csimpl; eauto.
Qed.

(** The first [try] shows nothing but, at most, the call of the
    validator. *)
Lemma validation_output args (st : state W) :
  let r := validation W extern args st in
  output r.2 = output st
  ∨ ∃ kw, output r.2 = output st ++ [Call VALIDATE kw].
Proof.
  unfold validation, attr, invoke, emit.
  destruct (args !! "language") as [language|]; simpl; [|by left].
  destruct (args !! "data_type") as [data_type|]; csimpl.
  - destruct (truthy language); [|destruct (truthy data_type)]; simpl;
      try (by left);
      destruct (extern _ _ (world st)) as [r w']; simpl; right; eauto.
  - destruct (truthy language); by left.
Qed.



(** What [main] does once the validator has been called and has
    returned or raised. *)
Lemma main_validating args w language data_type :
  args !! "language" = Some language →
  args !! "data_type" = Some data_type →
  truthy language = true ∨ truthy data_type = true →
  validation W extern (<["data_type" := normalised data_type]> args) (begin w)
  = invoke W extern VALIDATE
      (Ret [("language", language); ("data_type", normalised data_type)])
      (begin w).
Proof.
  intros Hl Hd Ht. unfold validation, attr.
  rewrite lookup_insert_ne, Hl, lookup_insert_eq by done. csimpl.
  rewrite truthy_normalised.
  destruct (truthy language); [done|]. by destruct Ht as [? | ->].
Qed.


(** The [get] branch without [--interactive] and without one of the two
    flags: evaluating the arguments of [get_data] raises, and [get_data]
    is not called. *)
Lemma dispatch_get_missing args (st : state W) :
  args !! "command" = Some (VStr "get") ∨ args !! "command" = Some (VStr "g") →
  args !! "interactive" = Some (VBool false) →
  args !! "language" = Some VNone ∨ args !! "data_type" = Some VNone →
  ∃ name, dispatch W extern args st = (Raise (AttributeError name), st).
Proof.
  intros Hc Hi Hmissing.
  destruct (get_data_kwargs_missing args Hmissing) as [name Hkw].
  exists name. unfold dispatch, attr. rewrite Hi.
  destruct Hc as [-> | ->]; simpl; unfold invoke; by rewrite Hkw.
Qed.

Lemma validation_result args (st : state W) :
  (∀ kw w0, ∃ v w1, extern VALIDATE kw w0 = (Ret v, w1)) →
  (validation W extern args st).1 = Ret ()
  ∨ ∃ name, (validation W extern args st).1 = Raise (AttributeError name).
Proof.
  intros Hreturns. unfold validation, attr, invoke, emit.
  destruct (args !! "language") as [language|]; simpl; [|eauto].
  destruct (args !! "data_type") as [data_type|]; csimpl.
  - destruct (truthy language); [|destruct (truthy data_type)]; simpl;
      try (by left);
      match goal with |- context [extern VALIDATE ?kw ?w0] =>
        destruct (Hreturns kw w0) as (v & w1 & ->) end; by left.
  - destruct (truthy language); eauto.
Qed.

(** A [get] invocation without [--interactive] whose [language] or
    [data_type] attribute holds [None] never reaches [get_data]: no call
    of it is among the events of [main].  When [main] returns, the
    validator has raised and its message is printed, or [--upgrade] was
    given and the upgrade ran instead; when [--upgrade] is not given and
    the validator returns, an [AttributeError] leaves [main]. *)
Lemma get_missing_flag_reaches_no_get_data args w :
  args !! "command" = Some (VStr "get") ∨ args !! "command" = Some (VStr "g") →
  args !! "interactive" = Some (VBool false) →
  args !! "language" = Some VNone ∨ args !! "data_type" = Some VNone →
  let r := main W extern args (begin w) in
  (∀ kw, ("get_data", kw) ∉ calls (output r.2))
  ∧ (r.1 = Ret () →
     (∃ msg, Print (VALIDATION_FAILED +:+ msg) ∈ output r.2)
     ∨ (∃ upgrade, args !! "upgrade" = Some upgrade ∧ truthy upgrade = true))
  ∧ (args !! "upgrade" = Some (VBool false) →
     (∀ kw w0, ∃ v w1, extern VALIDATE kw w0 = (Ret v, w1)) →
     ∃ name, r.1 = Raise (AttributeError name)).
Proof.
  intros Hc Hi Hmissing. cbv zeta. unfold main.
  destruct (args !! "data_type") as [data_type|] eqn:Hd.
  2:{ unfold normalise_data_type, attr. rewrite Hd. csimpl.
      split; [by intros kw H%elem_of_nil|]. split; [done|]. eauto. }
  rewrite (normalise_data_type_spec _ _ Hd).
  set (args' := <["data_type" := normalised data_type]> args).
  assert (Hc' : args' !! "command" = Some (VStr "get")
                ∨ args' !! "command" = Some (VStr "g")).
  { unfold args'. by rewrite !lookup_insert_ne. }
  assert (Hi' : args' !! "interactive" = Some (VBool false)).
  { unfold args'. by rewrite lookup_insert_ne. }
  assert (Hu' : args' !! "upgrade" = args !! "upgrade").
  { unfold args'. by rewrite lookup_insert_ne. }
  assert (Hmissing' : args' !! "language" = Some VNone
                      ∨ args' !! "data_type" = Some VNone).
  { unfold args'. destruct Hmissing as [Hl|Hdn].
    - left. by rewrite lookup_insert_ne.
    - right. rewrite lookup_insert_eq. by injection Hdn as ->. }
  pose proof (validation_output args' (begin w)) as Hout.
  pose proof (validation_result args' (begin w)) as Hres.
  destruct (validation W extern args' (begin w)) as [rv stv].
  cbn [fst snd output begin] in Hout, Hres.
  assert (Hquiet : ∀ kw, ("get_data", kw) ∉ calls (output stv)).
  { intros kw. destruct Hout as [-> | [kw' ->]]; simpl.
    - apply not_elem_of_nil.
    - intros [=]%list_elem_of_singleton. }
  destruct rv as [u|e].
  - unfold attr. rewrite Hu'.
    destruct (args !! "upgrade") as [upgrade|] eqn:Hup; cbn [fst snd].
    2:{ split; [done|]. split; [done|]. by intros [=]. }
    destruct (truthy upgrade) eqn:Htu.
    + unfold invoke, emit. cbn [world output].
      destruct (extern "upgrade_cli" [] (world stv)) as [r0 w0]; cbn [fst snd output].
      split; [|split].
      * intros kw. unfold calls. rewrite omap_app, elem_of_app.
        intros [Hin|[=]%list_elem_of_singleton]. by apply (Hquiet kw).
      * intros _. right. eauto.
      * intros [= ->]. done.
    + destruct Hc' as [Hcmd|Hcmd]; rewrite Hcmd; simpl;
        destruct (dispatch_get_missing args' stv (or_intror Hcmd) Hi' Hmissing')
          as [name Hdisp] ||
        destruct (dispatch_get_missing args' stv (or_introl Hcmd) Hi' Hmissing')
          as [name Hdisp];
        rewrite Hdisp; cbn [fst snd]; (split; [done|]); (split; [done|]);
        eauto.
  - destruct e; cbn [fst snd output];
      try (split; [done|]; split; [done|]; intros _ Hret;
           destruct (Hres Hret) as [Hr|[nm Hr]]; simplify_eq; by eauto).
    split; [|split].
    + intros kw. unfold emit, calls; cbn [output].
      rewrite omap_app, elem_of_app.
      intros [Hin|Hin%elem_of_nil]; [|done]. by apply (Hquiet kw).
    + intros _. left. exists msg. unfold emit; cbn [output].
      apply elem_of_app. right. by apply list_elem_of_singleton.
    + intros _ Hret. destruct (Hres Hret) as [Hr|[nm Hr]]; simplify_eq.
Qed.

Lemma invoke_Ret_output callee kw (st : state W) :
  output (invoke W extern callee (Ret kw) st).2 = output st ++ [Call callee kw].
Proof. unfold invoke, emit; cbn. by destruct (extern callee kw (world st)). Qed.

Lemma get_data_kwargs_flag_missing args language data_type :
  args !! "language" = Some (optional language) →
  args !! "data_type" = Some (optional data_type) →
  language = None ∨ data_type = None →
  get_data_kwargs args = Raise (AttributeError "lower").
Proof.
  intros Hl Hd Hmissing. unfold get_data_kwargs, attr. rewrite Hl. csimpl.
  destruct language as [l|]; [|done]. csimpl. rewrite Hd.
  by destruct Hmissing as [? | ->].
Qed.

(** C7.  The [get] parser does not require [--language] and
    [--data-type], and [main] does not reject an invocation of [get]
    without [--interactive] that omits one of them.  With both omitted
    and no [--upgrade], nothing is validated, nothing is printed and the
    run ends in the [AttributeError] of calling [lower] on [None], raised
    while the arguments of [get_data] are evaluated and caught by
    nothing; with [--upgrade] the upgrade runs, as for a complete command
    line.  With one of them omitted and a validator that lets the other
    through, the run ends in the same [AttributeError], and still nothing
    is printed. *)
Theorem get_without_flags_is_not_rejected command upgrade language data_type
    output_type output_dir outputs_per_entry overwrite all identifier_case w :
  command = "get" ∨ command = "g" →
  language = None ∨ data_type = None →
  let r := main W extern
             (get_namespace command upgrade language data_type output_type
                output_dir outputs_per_entry overwrite all false
                identifier_case)
             (begin w) in
  (language = None → data_type = None → upgrade = false →
   r = (Raise (AttributeError "lower"), begin w))
  ∧ (language = None → data_type = None → upgrade = true →
     output r.2 = [Call "upgrade_cli" []])
  ∧ (upgrade = false →
     (∀ kw w0, ∃ v w1, extern VALIDATE kw w0 = (Ret v, w1)) →
     r.1 = Raise (AttributeError "lower")
     ∧ (output r.2 = [] ∨ ∃ kw, output r.2 = [Call VALIDATE kw])).
Proof.
  intros Hcommand Hmissing.
  set (args := get_namespace _ _ _ _ _ _ _ _ _ _ _). cbv zeta.
  assert (Hl : args !! "language" = Some (optional language)) by done.
  assert (Hd : args !! "data_type" = Some (optional data_type)) by done.
  unfold main. rewrite (normalise_data_type_spec _ _ Hd).
  set (args' := <["data_type" := normalised (optional data_type)]> args).
  assert (Hl' : args' !! "language" = Some (optional language)) by done.
  assert (Hd' : args' !! "data_type"
                = Some (optional (replace "-" "_" <$> data_type))).
  { unfold args'. rewrite lookup_insert_eq. by destruct data_type. }
  assert (Hu' : attr args' "upgrade" = Ret (VBool upgrade)) by done.
  assert (Hc' : attr args' "command" = Ret (VStr command)) by done.
  assert (Htc : negb (truthy (VStr command)) = false)
    by (by destruct Hcommand as [-> | ->]).
  assert (Hkw : get_data_kwargs args' = Raise (AttributeError "lower")).
  { apply (get_data_kwargs_flag_missing _ _ _ Hl' Hd').
    destruct Hmissing as [-> | ->]; auto. }
  assert (Hdisp : ∀ st, dispatch W extern args' st
                        = (Raise (AttributeError "lower"), st)).
  { intros st. unfold dispatch. rewrite Hc'.
    assert (Hi : attr args' "interactive" = Ret (VBool false)) by done.
    destruct Hcommand as [-> | ->]; cbn [among]; rewrite Hi; cbn [truthy];
      unfold invoke; by rewrite Hkw. }
  split; [|split].
  - intros -> -> ->.
    assert (Hv : validation W extern args' (begin w) = (Ret (), begin w))
      by done.
    rewrite Hv, Hu'. cbn [truthy]. rewrite Hc', Htc, Hdisp. done.
  - intros -> -> ->.
    assert (Hv : validation W extern args' (begin w) = (Ret (), begin w))
      by done.
    rewrite Hv, Hu'. cbn [truthy]. rewrite invoke_Ret_output. done.
  - intros -> Hreturns.
    pose proof (validation_output args' (begin w)) as Hout.
    assert (Hres : (validation W extern args' (begin w)).1 = Ret ()).
    { unfold validation, attr. rewrite Hl', Hd'. csimpl.
      unfold invoke, emit. cbn [begin world output].
      match goal with |- context [extern VALIDATE ?kw ?w0] =>
        destruct (Hreturns kw w0) as (v & w1 & ->) end.
      by destruct (truthy (optional language)),
        (truthy (optional (replace "-" "_" <$> data_type))). }
    destruct (validation W extern args' (begin w)) as [rv stv].
    cbn [fst snd begin output] in *. subst rv.
    rewrite Hu'. cbn [truthy]. rewrite Hc', Htc, Hdisp. cbn [fst snd].
    split; [done|]. destruct Hout as [-> | [kw ->]]; eauto.
Qed.

End MainFacts.

(** ** The Portuguese verbs formatter *)

Section FormatFacts.
Import Py FormatVerbs.

Lemma ltb_lt a b : String.ltb a b = true ↔ OrderedTypeEx.String_as_OT.lt a b.
Proof.
  rewrite <- OrderedTypeEx.String_as_OT.cmp_lt.
  unfold String.ltb, OrderedTypeEx.String_as_OT.cmp.
  by destruct (String.compare a b).
Qed.

Lemma ltb_trans a b c :
  String.ltb a b = true → String.ltb b c = true → String.ltb a c = true.
Proof.
  rewrite !ltb_lt. apply OrderedTypeEx.String_as_OT.lt_trans.
Qed.

Lemma ltb_irrefl a : String.ltb a a = false.
Proof.
  apply not_true_is_false. rewrite ltb_lt. intros H.
  by apply OrderedTypeEx.String_as_OT.lt_not_eq in H.
Qed.

Lemma ltb_total a b :
  String.ltb a b = true ∨ a = b ∨ String.ltb b a = true.
Proof.
  unfold String.ltb. rewrite (String.compare_antisym b a).
  destruct (String.compare a b) eqn:Hc; simpl; auto.
  right. left. by apply String.compare_eq_iff.
Qed.

Section Dict.
Context {V : Type}.
Implicit Types (d : dict V) (k : string) (v : V).

Lemma getitem_setitem k k' v d :
  getitem k' (setitem k v d) = if decide (k = k') then Some v else getitem k' d.
Proof.
  induction d as [|[k0 v0] d IH]; simpl.
  - destruct (String.eqb_spec k k'); by case_decide.
  - destruct (String.eqb_spec k0 k) as [->|Hne]; simpl.
    + destruct (String.eqb_spec k k'); by case_decide.
    + destruct (String.eqb_spec k0 k') as [->|Hne']; [|done].
      by case_decide.
Qed.

Lemma setitem_keys k v d :
  (setitem k v d).*1 = if decide (k ∈ d.*1) then d.*1 else d.*1 ++ [k].
Proof.
  induction d as [|[k0 v0] d IH]; csimpl; [done|].
  destruct (String.eqb_spec k0 k) as [->|Hne]; csimpl.
  - rewrite decide_True; [done|by left].
  - rewrite IH. destruct (decide (k ∈ d.*1)) as [Hin|Hout].
    + rewrite decide_True; [done|by right].
    + rewrite decide_False; [done|].
      by intros [->|]%elem_of_cons.
Qed.

Lemma setitem_NoDup k v d : NoDup d.*1 → NoDup (setitem k v d).*1.
Proof.
  intros Hd. rewrite setitem_keys. case_decide; [done|].
  apply NoDup_app. split; [done|]. split; [|apply NoDup_singleton].
  by intros x Hx ->%list_elem_of_singleton.
Qed.

Lemma setitem_fresh k v d : k ∉ d.*1 → setitem k v d = d ++ [(k, v)].
Proof.
  induction d as [|[k0 v0] d IH]; simpl; [done|].
  intros Hk. destruct (String.eqb_spec k0 k) as [->|Hne].
  - destruct Hk. by left.
  - rewrite IH; [done|]. intros Hin. apply Hk. by right.
Qed.

Lemma getitem_Some_elem k v d : getitem k d = Some v → (k, v) ∈ d.
Proof.
  induction d as [|[k0 v0] d IH]; simpl; [done|].
  destruct (String.eqb_spec k0 k) as [->|Hne].
  - intros [= ->]. by left.
  - intros H. right. by apply IH.
Qed.

Lemma elem_getitem k v d : NoDup d.*1 → (k, v) ∈ d → getitem k d = Some v.
Proof.
  induction d as [|[k0 v0] d IH]; simpl.
  - by intros _ H%elem_of_nil.
  - intros [Hk0 Hd]%NoDup_cons [[= -> ->]|Hin]%elem_of_cons.
    + by rewrite String.eqb_refl.
    + destruct (String.eqb_spec k0 k) as [->|Hne]; [|by apply IH].
      destruct Hk0. apply list_elem_of_fmap. by exists (k, v).
Qed.

(** The sort: a permutation, in increasing order of the keys. *)
Lemma insert_item_perm (x : string * V) l : insert_item x l ≡ₚ x :: l.
Proof.
  induction l as [|y l IH]; simpl; [done|].
  destruct (String.ltb x.1 y.1); [done|]. rewrite IH. apply Permutation_swap.
Qed.

Lemma sorted_items_perm d : sorted_items d ≡ₚ d.
Proof.
  induction d as [|x d IH]; simpl; [done|].
  by rewrite insert_item_perm, IH.
Qed.

Lemma insert_item_sorted (x : string * V) l :
  x.1 ∉ l.*1 → StronglySorted key_lt l → StronglySorted key_lt (insert_item x l).
Proof.
  intros Hx Hl. induction Hl as [|y l Hl IH Hy]; simpl.
  - repeat constructor.
  - destruct (String.ltb x.1 y.1) eqn:Hxy.
    + constructor; [by constructor|]. constructor; [done|].
      eapply Forall_impl; [exact Hy|]. intros z Hz. unfold key_lt in *.
      by eapply ltb_trans.
    + assert (Hyx : key_lt y x).
      { unfold key_lt. destruct (ltb_total x.1 y.1) as [H|[H|H]]; [congruence| |done].
        destruct Hx. rewrite H. by left. }
      constructor.
      * apply IH. intros Hin. apply Hx. by right.
      * rewrite insert_item_perm. by constructor.
Qed.

Lemma sorted_items_sorted d :
  NoDup d.*1 → StronglySorted key_lt (sorted_items d).
Proof.
  induction d as [|x d IH]; simpl; [constructor|].
  intros [Hx Hd]%NoDup_cons. apply insert_item_sorted; [|by apply IH].
  by rewrite (sorted_items_perm d).
Qed.

(** Building a dict from items with distinct keys keeps the items. *)
Lemma OrderedDict_items (items : list (string * V)) :
  NoDup items.*1 → OrderedDict items = items.
Proof.
  unfold OrderedDict.
  assert (H : ∀ d, NoDup (d ++ items).*1 →
            foldl (λ d kv, setitem kv.1 kv.2 d) d items = d ++ items).
  { induction items as [|[k v] items IH]; intros d Hd; simpl.
    - by rewrite app_nil_r.
    - rewrite setitem_fresh.
      + rewrite IH; rewrite <- app_assoc; done.
      + rewrite fmap_app in Hd. apply NoDup_app in Hd as (_ & Hd & _).
        intros Hin. apply (Hd k Hin). by left. }
  intros Hitems. by apply (H []).
Qed.

Lemma setitem_setitem k v v' d : setitem k v (setitem k v' d) = setitem k v d.
Proof.
  induction d as [|[k0 v0] d IH]; simpl.
  - by rewrite String.eqb_refl.
  - destruct (String.eqb_spec k0 k) as [->|Hne]; simpl.
    + by rewrite String.eqb_refl.
    + destruct (String.eqb_spec k0 k); [done|]. by rewrite IH.
Qed.

Lemma setitem2_spec k k2 v (d : dict (dict V)) inner :
  getitem k d = Some inner →
  setitem2 k k2 v d = Ret (setitem k (setitem k2 v inner) d).
Proof.
  induction d as [|[k0 v0] d IH]; simpl; [done|].
  destruct (String.eqb_spec k0 k) as [->|Hne].
  - by intros [= ->].
  - intros H. by rewrite (IH H).
Qed.

Lemma getitem_fmap_key (f : string → V) k (keys : list string) :
  k ∈ keys → getitem k ((λ key, (key, f key)) <$> keys) = Some (f k).
Proof.
  induction keys as [|k0 keys IH]; csimpl.
  - by intros H%elem_of_nil.
  - destruct (String.eqb_spec k0 k) as [->|Hne]; [done|].
    intros [->|Hin]%elem_of_cons; [done|]. by apply IH.
Qed.

End Dict.

(** The inner loop writes the conjugations into the entry of the
    infinitive, one after the other. *)
Lemma for_conjugations_spec verb_vals infinitive conjs d inner :
  verb_vals !! "infinitive" = Some infinitive →
  getitem infinitive d = Some inner →
  for_conjugations verb_vals conjs d
  = Ret (setitem infinitive
           (foldl (λ entry conjugation,
                     setitem conjugation
                             (default "" (verb_vals !! conjugation)) entry)
                  inner conjs) d).
Proof.
  intros Hinf. revert d inner.
  induction conjs as [|conjugation conjs IH]; intros d inner Hget; simpl.
  - f_equal. clear -Hget. induction d as [|[k0 v0] d IHd]; simpl in *; [done|].
    destruct (String.eqb_spec k0 infinitive) as [->|Hne].
    + by injection Hget as ->.
    + by rewrite <- IHd.
  - rewrite Hinf.
    rewrite (setitem2_spec _ _ _ _ _ Hget).
    erewrite IH; [|by rewrite getitem_setitem, decide_True].
    by rewrite setitem_setitem.
Qed.

Lemma fill_entry (verb_vals : row) :
  foldl (λ entry conjugation,
           setitem conjugation (default "" (verb_vals !! conjugation)) entry)
        [] all_conjugations
  = entry_of verb_vals.
Proof. reflexivity. Qed.

(** One turn of the outer loop stores the canonical entry of the row. *)
Lemma for_verbs_cons verb_vals verbs_list d infinitive :
  verb_vals !! "infinitive" = Some infinitive →
  for_verbs (verb_vals :: verbs_list) d
  = for_verbs verbs_list (setitem infinitive (entry_of verb_vals) d).
Proof.
  intros Hinf. cbn [for_verbs]. rewrite Hinf.
  rewrite (for_conjugations_spec _ _ _ _ [] Hinf)
    by (by rewrite getitem_setitem, decide_True).
  by rewrite fill_entry, setitem_setitem.
Qed.

Lemma for_verbs_spec verbs_list d :
  Forall has_infinitive verbs_list →
  ∃ d', for_verbs verbs_list d = Ret d'
        ∧ (NoDup d.*1 → NoDup d'.*1)
        ∧ ∀ k, getitem k d'
               = match latest k verbs_list with
                 | Some verb_vals => Some (entry_of verb_vals)
                 | None => getitem k d
                 end.
Proof.
  intros Hall. revert d.
  induction Hall as [|verb_vals verbs_list [infinitive Hinf] Hall IH]; intros d.
  - exists d. by cbn.
  - rewrite (for_verbs_cons _ _ _ _ Hinf).
    destruct (IH (setitem infinitive (entry_of verb_vals) d))
      as (d' & Hrun & Hnodup & Hget).
    exists d'. split; [done|]. split.
    + intros Hd. by apply Hnodup, setitem_NoDup.
    + intros k. rewrite Hget. cbn [latest].
      destruct (latest k verbs_list); [done|].
      rewrite getitem_setitem, Hinf.
      destruct (decide (infinitive = k)) as [->|Hne].
      * by rewrite decide_True.
      * rewrite decide_False; [done|]. by intros [=].
Qed.

Lemma latest_Some k verbs_list verb_vals :
  latest k verbs_list = Some verb_vals →
  verb_vals ∈ verbs_list ∧ verb_vals !! "infinitive" = Some k.
Proof.
  induction verbs_list as [|first verbs_list IH]; cbn [latest]; [done|].
  destruct (latest k verbs_list) as [later|].
  - intros [= ->]. destruct (IH eq_refl). split; [by right|done].
  - case_decide; [|done]. intros [= ->]. split; [by left|done].
Qed.

Lemma entry_of_keys verb_vals : (entry_of verb_vals).*1 = all_conjugations.
Proof. reflexivity. Qed.

Lemma all_conjugations_NoDup : NoDup all_conjugations.
Proof. apply (bool_decide_unpack _). by vm_compute. Qed.

Lemma latest_is_Some k verbs_list verb_vals :
  verb_vals ∈ verbs_list → verb_vals !! "infinitive" = Some k →
  is_Some (latest k verbs_list).
Proof.
  induction verbs_list as [|first verbs_list IH]; cbn [latest].
  - by intros H%elem_of_nil.
  - intros [->|Hin]%elem_of_cons Hinf.
    + destruct (latest k verbs_list); [done|]. by rewrite decide_True.
    + destruct (IH Hin Hinf) as [later ->]. done.
Qed.

(** C9.  For rows that all have an [infinitive] field the formatter
    returns a mapping (no [KeyError]) whose items are in strictly
    increasing order of the infinitive; every item holds exactly the 24
    conjugation fields, in the order of [all_conjugations], each with the
    text the row has for it or the empty text when the row has none (the
    row being the last one of the list with that infinitive); and the
    infinitive of every row is a key of the mapping. *)
Theorem verbs_formatted_canonical (verbs_list : list row) :
  Forall has_infinitive verbs_list →
  ∃ out,
    verbs_formatted verbs_list = Ret out
    ∧ length all_conjugations = 24%nat
    ∧ NoDup all_conjugations
    ∧ StronglySorted key_lt out
    ∧ (∀ k fields, (k, fields) ∈ out →
         fields.*1 = all_conjugations
         ∧ ∃ verb_vals,
             latest k verbs_list = Some verb_vals
             ∧ verb_vals ∈ verbs_list
             ∧ verb_vals !! "infinitive" = Some k
             ∧ ∀ conjugation, conjugation ∈ all_conjugations →
                 getitem conjugation fields
                 = Some (default "" (verb_vals !! conjugation)))
    ∧ (∀ verb_vals k, verb_vals ∈ verbs_list →
         verb_vals !! "infinitive" = Some k → k ∈ out.*1).
Proof.
  intros Hall.
  destruct (for_verbs_spec verbs_list [] Hall) as (d & Hrun & Hnodup & Hget).
  specialize (Hnodup (NoDup_nil_2)).
  assert (Hkeys : NoDup (sorted_items d).*1).
  { by rewrite (sorted_items_perm d). }
  exists (sorted_items d). unfold verbs_formatted. rewrite Hrun.
  rewrite (OrderedDict_items _ Hkeys).
  split; [done|]. split; [done|]. split; [apply all_conjugations_NoDup|].
  split; [by apply sorted_items_sorted|]. split.
  - intros k fields Hin. rewrite (sorted_items_perm d) in Hin.
    apply (elem_getitem _ _ _ Hnodup) in Hin. rewrite Hget in Hin.
    destruct (latest k verbs_list) as [verb_vals|] eqn:Hlatest; [|done].
    injection Hin as <-. split; [apply entry_of_keys|].
    exists verb_vals. destruct (latest_Some _ _ _ Hlatest) as [Hrow Hinf].
    split; [done|]. split; [done|]. split; [done|].
    intros conjugation Hc. unfold entry_of.
    by rewrite (getitem_fmap_key
                  (λ conjugation, default "" (verb_vals !! conjugation))).
  - intros verb_vals k Hrow Hinf.
    destruct (latest_is_Some _ _ _ Hrow Hinf) as [later Hlatest].
    specialize (Hget k). rewrite Hlatest in Hget.
    apply getitem_Some_elem in Hget. rewrite <- (sorted_items_perm d) in Hget.
    apply list_elem_of_fmap. by exists (k, entry_of later).
Qed.

End FormatFacts.

(** ** The command surface and the formatter on sample data *)

Section MoreSamples.
Import Py PyStr Main FormatVerbs Samples.

Lemma get_without_flags_is_not_rejected_witness :
  ("get" = "get" ∨ "get" = "g")
  ∧ ((None : option string) = None ∨ (None : option string) = None)
  ∧ main unit quiet get_nothing (begin ())
    = (Raise (AttributeError "lower"), begin ()).
Proof.
  split; [left; reflexivity|]. split; [left; reflexivity|].
  exact (proj1 (get_without_flags_is_not_rejected unit quiet "get" false None
                  None (Some "json") None None false None "camel" ()
                  (or_introl eq_refl) (or_introl eq_refl))
               eq_refl eq_refl eq_refl).
Defined.

(** [get --output-type json]: the parser accepts it, and [main] ends with
    the [AttributeError] of [None.lower()], having called nothing. *)
Example get_nothing_raises :
  main unit quiet get_nothing (begin ())
  = (Raise (AttributeError "lower"), begin ()).
Proof. by vm_compute. Qed.



(** The scenario of the specification:
    [get --language Portuguese --data-type verbs --output-type json]. *)
Example get_portuguese_runs_once :
  calls (output (main unit quiet get_portuguese (begin ())).2)
  = [ (VALIDATE, [ ("language", VStr "Portuguese");
                   ("data_type", VStr "proper_nouns") ]);
      ("get_data",
       [ ("language", VStr "portuguese"); ("data_type", VStr "proper_nouns");
         ("output_type", VStr "json"); ("output_dir", VNone);
         ("outputs_per_entry", VNone); ("overwrite", VBool false);
         ("all", VNone); ("identifier_case", VStr "camel") ]) ].
Proof. by vm_compute. Qed.

Lemma verbs_formatted_canonical_witness :
  Forall has_infinitive [verb_ser; verb_amar; verb_ser]
  ∧ ∃ out, verbs_formatted [verb_ser; verb_amar; verb_ser] = Ret out
           ∧ out.*1 = ["amar"; "ser"].
Proof.
  assert (H : Forall has_infinitive [verb_ser; verb_amar; verb_ser]).
  { repeat constructor; by eexists. }
  split; [exact H|].
  destruct (verbs_formatted_canonical [verb_ser; verb_amar; verb_ser] H)
    as (out & Hout & _).
  exists out. split; [exact Hout|].
  assert (Hrun : verbs_formatted [verb_ser; verb_amar; verb_ser]
                 = Ret [("amar", entry_of verb_amar); ("ser", entry_of verb_ser)])
    by (by vm_compute).
  rewrite Hrun in Hout. by injection Hout as <-.
Defined.

(** Without an [infinitive] field the formatter stops with [KeyError]. *)
Example row_without_infinitive :
  verbs_formatted [verb_ser; ∅] = Raise (KeyError "infinitive").
Proof. by vm_compute. Qed.

End MoreSamples.

(* ===================================================================== *)
(** * Further properties                                                  *)
(* ===================================================================== *)

(** ** The configuration session, beyond the selection steps *)

Section SessionFurther.
Import Py PyStr Interactive Settled Samples.

Variable Path : string → string.

Lemma language_selection_subseteq c answer :
  language_selection c answer ⊆ languages c.
Proof.
  unfold language_selection. destruct (contains "All" answer); [done|].
  by intros token [Hin _]%list_elem_of_filter.
Qed.

Lemma data_type_selection_subseteq c answer :
  data_type_selection c answer ⊆ data_types c.
Proof.
  unfold data_type_selection. destruct (contains "All" (capitalize answer)); [done|].
  by intros token [Hin _]%list_elem_of_filter.
Qed.

Lemma answer_prompt_settled s answer :
  settled s → settled (answer_prompt Path s answer).
Proof.
  destruct s as [state c out rest]. unfold settled, answer_prompt; cbn [at_state config].
  destruct state; cbn [react at_state config]; try done.
  - intros _.
    pose proof (language_selection_subseteq c answer) as Hsub.
    destruct (language_selection c answer) as [|l ls] eqn:Hsel; cbn; [done|].
    by split.
  - intros Hl.
    pose proof (data_type_selection_subseteq c answer) as Hsub.
    destruct (data_type_selection c answer) as [|d ds] eqn:Hsel; cbn; [done|].
    split; [done|]. by split.
  - intros [Hl Hd]. destruct (decide (answer ∈ _)) as [Hin|Hout]; cbn; [|done].
    done.
  - intros (Hl & Hd & Ht).
    destruct (String.eqb answer ""); cbn; done.
  - intros (Hl & Hd & Ht). cbn. done.
Qed.

Lemma configure_settings_settled inputs c :
  settled (configure_settings Path inputs c).
Proof.
  induction inputs as [|answer inputs IH] using rev_ind; [done|].
  rewrite answer_prompt_refines. by apply answer_prompt_settled.
Qed.

(** X1.  A configuration that [configure_settings] has returned is
    complete: both selections are non-empty and hold only members of the
    registry lists, the output type is json, csv or tsv, and [configured]
    is set, whatever the configuration was before and however many
    attempts the session took. *)
Theorem configured_session_is_complete inputs c :
  at_state (configure_settings Path inputs c) = Configured →
  let c' := config (configure_settings Path inputs c) in
  selected_languages c' ≠ [] ∧ selected_languages c' ⊆ languages c
  ∧ selected_data_types c' ≠ [] ∧ selected_data_types c' ⊆ data_types c
  ∧ output_type c' ∈ ["json"; "csv"; "tsv"]
  ∧ configured c' = true.
Proof.
  intros Hat. cbv zeta.
  pose proof (configure_settings_settled inputs c) as Hs.
  unfold settled in Hs. rewrite Hat in Hs.
  destruct (configure_settings_registry Path inputs c) as [Hl Hd].
  rewrite Hl, Hd in Hs. destruct Hs as ([? ?] & [? ?] & ? & ?). done.
Qed.

(** X2.  Until the overwrite prompt is answered nothing is final: while
    the session waits at any prompt, [configured] and [overwrite] are the
    values the configuration had when [configure_settings] was called. *)
Theorem unfinished_session_keeps_flags inputs c :
  at_state (configure_settings Path inputs c) ≠ Configured →
  configured (config (configure_settings Path inputs c)) = configured c
  ∧ overwrite (config (configure_settings Path inputs c)) = overwrite c.
Proof.
  induction inputs as [|answer inputs IH] using rev_ind; [done|].
  rewrite answer_prompt_refines. unfold answer_prompt.
  destruct (configure_settings Path inputs c) as [state c1 out rest].
  cbn [at_state config] in *.
  destruct state; cbn [react];
    repeat match goal with
           | |- context [match ?l with [] => _ | _ :: _ => _ end] => destruct l
           | |- context [decide ?P] => destruct (decide P)
           | |- context [String.eqb ?a ?b] => destruct (String.eqb a b)
           end; cbn; intros Hne; try done; by apply IH.
Qed.

(** X3.  At the output-type prompt an answer other than json, csv or tsv
    (sqlite included) prints the warning and asks again at the same
    prompt; the selections are kept, and [config.output_type] holds the
    refused answer in the meantime.  An answer among the three is stored
    and the session moves to the output-directory prompt. *)
Theorem output_type_prompt_answer inputs c answer :
  at_state (configure_settings Path inputs c) = AwaitingOutputType →
  let s := configure_settings Path inputs c in
  let s' := configure_settings Path (inputs ++ [answer]) c in
  output_type (config s') = answer
  ∧ selected_languages (config s') = selected_languages (config s)
  ∧ selected_data_types (config s') = selected_data_types (config s)
  ∧ (answer ∈ ["json"; "csv"; "tsv"] →
     at_state s' = AwaitingOutputDir
     ∧ shown s' = shown s ++ [Prompt (ask_output_dir (config s')) ""])
  ∧ (answer ∉ ["json"; "csv"; "tsv"] →
     at_state s' = AwaitingOutputType
     ∧ shown s' = shown s ++ [Rprint INVALID_OUTPUT_TYPE;
                              Prompt ASK_OUTPUT_TYPE ""]).
Proof.
  intros Hat. cbv zeta. rewrite answer_prompt_refines. unfold answer_prompt.
  rewrite Hat. cbn [react].
  destruct (decide (answer ∈ _)) as [Hin|Hout]; cbn;
    repeat split; try done; by intros [].
Qed.

(** X4.  At the output-directory prompt an empty answer keeps the
    directory the configuration has, any other answer replaces it by the
    path of the answer; either way the session moves to the overwrite
    prompt and nothing else in the configuration changes. *)
Theorem output_dir_prompt_answer inputs c answer :
  at_state (configure_settings Path inputs c) = AwaitingOutputDir →
  let s := configure_settings Path inputs c in
  let s' := configure_settings Path (inputs ++ [answer]) c in
  at_state s' = AwaitingOverwrite
  ∧ output_dir (config s')
    = (if decide (answer = "") then output_dir (config s) else Path answer)
  ∧ set_output_dir (output_dir (config s)) (config s')
    = set_output_dir (output_dir (config s)) (config s)
  ∧ shown s' = shown s ++ [Prompt ASK_OVERWRITE ""].
Proof.
  intros Hat. cbv zeta. rewrite answer_prompt_refines. unfold answer_prompt.
  rewrite Hat. cbn [react].
  destruct (String.eqb_spec answer "") as [->|Hne]; cbn.
  - by rewrite decide_True.
  - by rewrite decide_False.
Qed.

(** X5.  Once [configure_settings] has returned it reads nothing more:
    answers that follow in the script are left unread, and the
    configuration and what was shown are those of the return. *)
Theorem configured_session_reads_no_more inputs c more :
  at_state (configure_settings Path inputs c) = Configured →
  let s := configure_settings Path inputs c in
  let s' := configure_settings Path (inputs ++ more) c in
  at_state s' = Configured
  ∧ config s' = config s
  ∧ shown s' = shown s
  ∧ unread s' = unread s ++ more.
Proof.
  intros Hat. cbv zeta.
  induction more as [|answer more IH] using rev_ind.
  - by rewrite !app_nil_r.
  - rewrite app_assoc, answer_prompt_refines. unfold answer_prompt.
    destruct IH as (-> & Hc & Hs & Hu). cbn.
    by rewrite Hc, Hs, Hu, app_assoc.
Qed.

End SessionFurther.

(** ** The request runner: what it announces *)

Section RunnerFurther.
Import Py Interactive Settled.

Variable W : Type.
Implicit Types (f : string → kwargs → W → value * W)
  (extern : string → kwargs → W → result value * W).

Lemma printed_app out1 out2 : printed (out1 ++ out2) = printed out1 ++ printed out2.
Proof. apply omap_app. Qed.

Lemma for_data_types_printed extern language todo (st : state W) :
  printed (st_output (for_data_types W extern language todo st).2)
  = printed (st_output st).
Proof.
  revert st. induction todo as [|data_type todo IH]; intros st; [done|].
  cbn [for_data_types]. unfold call, emit; cbn [st_config st_world st_output].
  destruct (extern "get_data" _ (st_world st)) as [[v|e] w1].
  - rewrite IH. cbn [st_output]. rewrite !printed_app; cbn.
    by rewrite !app_nil_r.
  - cbn [snd st_output]. rewrite !printed_app; cbn. by rewrite !app_nil_r.
Qed.

Lemma for_languages_printed extern todo (st : state W) :
  printed (st_output (for_languages W extern todo st).2) = printed (st_output st).
Proof.
  revert st. induction todo as [|language todo IH]; intros st; [done|].
  cbn [for_languages].
  pose proof (for_data_types_printed extern language
                (selected_data_types (st_config st)) st) as Hp.
  destruct (for_data_types W extern language _ st) as [[u|e] st1];
    cbn [snd] in *; [|done].
  by rewrite IH.
Qed.

Lemma run_request_printed_settled extern c w text :
  selected_languages c ≠ [] → selected_data_types c ≠ [] →
  text ∈ printed (st_output (run_request W extern (start c w)).2) →
  text = COMPLETED.
Proof.
  intros Hl Hd. unfold run_request, start; cbn [st_config st_output].
  rewrite !bool_decide_eq_false_2 by done. cbn [orb].
  unfold emit; cbn [st_config st_world st_output app].
  match goal with |- context [for_languages W extern ?t ?s] =>
    pose proof (for_languages_printed extern t s) as Hp;
    destruct (for_languages W extern t s) as [[u|e] st1] end;
    cbn [fst snd st_config st_output] in *.
  - destruct (overwrite (st_config st1)); cbn [st_output];
      rewrite !printed_app, Hp; cbn; intros Hin;
      first [ by apply list_elem_of_singleton in Hin | by inversion Hin ].
  - rewrite printed_app, Hp. cbn. intros Hin. by inversion Hin.
Qed.

(** X6.  What [run_request] prints depends on the lists and on
    [overwrite] alone, never on how the exports went: with an empty list
    the error; otherwise the completion message when the run returns and
    [overwrite] is set (even if every export failed), and nothing when
    [overwrite] is not set (even if every export succeeded) or when an
    exception of [get_data] ends the run. *)
Theorem run_request_completion_notice extern c w :
  let r := run_request W extern (start c w) in
  printed (st_output r.2)
  = if bool_decide (selected_languages c = [])
       || bool_decide (selected_data_types c = [])
    then [NOT_CONFIGURED]
    else match r.1 with
         | Ret _ => if overwrite c then [COMPLETED] else []
         | Raise _ => []
         end.
Proof.
  cbv zeta. unfold run_request, start; cbn [st_config st_output].
  destruct (bool_decide _ || bool_decide _); [done|].
  unfold emit; cbn [st_config st_world st_output app].
  match goal with |- context [for_languages W extern ?t ?s] =>
    pose proof (for_languages_printed extern t s) as Hp;
    pose proof (for_languages_config W extern t s) as Hc;
    destruct (for_languages W extern t s) as [[u|e] st1] end;
    cbn [fst snd st_config st_output] in *.
  - rewrite Hc. destruct (overwrite c); cbn [st_output];
      rewrite !printed_app, Hp; done.
  - rewrite printed_app, Hp. done.
Qed.

Lemma advanced_app out1 out2 : advanced (out1 ++ out2) = (advanced out1 + advanced out2)%nat.
Proof. unfold advanced. by rewrite omap_app, sum_list_with_app. Qed.

Lemma announced_app out1 out2 :
  announced (out1 ++ out2) = (announced out1 + announced out2)%nat.
Proof. unfold announced. by rewrite omap_app, sum_list_with_app. Qed.

Lemma replay_advanced f c items w :
  advanced (replay f c items w).1 = length items.
Proof.
  revert w. induction items as [|item items IH]; intros w; [done|].
  cbn [replay]. destruct (f "get_data" _ w) as [v w1]. specialize (IH w1).
  destruct (replay f c items w1) as [out w2]. cbn [fst] in *.
  rewrite advanced_app, IH. done.
Qed.

Lemma replay_announced f c items w : announced (replay f c items w).1 = 0%nat.
Proof.
  revert w. induction items as [|item items IH]; intros w; [done|].
  cbn [replay]. destruct (f "get_data" _ w) as [v w1]. specialize (IH w1).
  destruct (replay f c items w1) as [out w2]. cbn [fst] in *.
  rewrite announced_app, IH. done.
Qed.

(** X7.  When every [get_data] call returns, the progress bar is advanced
    exactly as far as the total it was opened with, the number of work
    items, whether the exports succeed or fail. *)
Theorem run_request_progress_is_complete f c w :
  let out := st_output (run_request W (returning f) (start c w)).2 in
  advanced out = announced out
  ∧ advanced out = length (work_items c).
Proof.
  cbv zeta. rewrite (run_request_returning W).
  destruct (bool_decide (selected_languages c = [])) eqn:Hl;
    [|destruct (bool_decide (selected_data_types c = [])) eqn:Hd];
    cbn [orb snd st_output].
  - apply bool_decide_eq_true in Hl. by rewrite (work_items_no_language).
  - apply bool_decide_eq_true in Hd. by rewrite work_items_no_data_type.
  - rewrite !advanced_app, !announced_app, replay_advanced, replay_announced.
    rewrite <- work_items_length.
    destruct (overwrite c); cbn; lia.
Qed.

End RunnerFurther.

(** ** The command surface: exceptions, upgrade and the arguments passed on *)

Section MainFurther.
Import Py PyStr Main CommandLines.

Variable W : Type.
Variable extern : string → kwargs → W → result value * W.

Lemma invoke_Ret callee kw (st : state W) :
  invoke W extern callee (Ret kw) st
  = ((extern callee kw (world st)).1 ≫= (λ _, Ret ()),
     {| world := (extern callee kw (world st)).2;
        output := output st ++ [Call callee kw] |}).
Proof. unfold invoke, emit; cbn. by destruct (extern callee kw (world st)). Qed.

(** X8.  Only [ValueError] is handled around the validator: when it
    raises any other exception (an interrupt, for one), that exception
    leaves [main] and nothing else is called or printed. *)
Theorem validator_exception_escapes args w language data_type e w' :
  args !! "language" = Some language →
  args !! "data_type" = Some data_type →
  truthy language = true ∨ truthy data_type = true →
  (∀ msg, e ≠ ValueError msg) →
  extern VALIDATE [("language", language); ("data_type", normalised data_type)] w
  = (Raise e, w') →
  main W extern args (begin w)
  = (Raise e,
     {| world := w';
        output := [Call VALIDATE [("language", language);
                                  ("data_type", normalised data_type)]] |}).
Proof.
  intros Hl Hd Ht He Hv. unfold main.
  rewrite (normalise_data_type_spec _ _ Hd).
  rewrite (main_validating W extern _ w _ _ Hl Hd Ht), invoke_Ret.
  cbn [begin world output app]. rewrite Hv. cbn.
  destruct e; try done. by destruct (He msg).
Qed.

Lemma calls_app out1 out2 : calls (out1 ++ out2) = calls out1 ++ calls out2.
Proof. apply omap_app. Qed.

Lemma validation_calls args (st : state W) :
  ∀ callee kw,
    (callee, kw) ∈ calls (output (validation W extern args st).2) →
    (callee, kw) ∈ calls (output st) ∨ callee = VALIDATE.
Proof.
  intros callee kw.
  destruct (validation_output W extern args st) as [-> | [kw' ->]]; [by left|].
  rewrite calls_app, elem_of_app. intros [?|[= -> _]%list_elem_of_singleton]; auto.
Qed.

(** X9.  [--upgrade] goes before every subcommand: when it is set, the
    only functions [main] can call are the validator and [upgrade_cli];
    the subcommand named on the command line is not run. *)
Theorem upgrade_runs_no_subcommand args w upgrade :
  args !! "upgrade" = Some upgrade →
  truthy upgrade = true →
  ∀ callee kw,
    (callee, kw) ∈ calls (output (main W extern args (begin w)).2) →
    callee = VALIDATE ∨ callee = "upgrade_cli".
Proof.
  intros Hu Htu callee kw. unfold main.
  destruct (normalise_data_type args) as [args'|e] eqn:Hn;
    [|by intros H%elem_of_nil].
  assert (Hu' : args' !! "upgrade" = Some upgrade).
  { unfold normalise_data_type, attr in Hn.
    destruct (args !! "data_type") as [[| |s|]|]; cbn in Hn; try (by injection Hn as <-);
      [|done].
    destruct (negb (s =? "")); injection Hn as <-; [|done].
    by rewrite lookup_insert_ne. }
  pose proof (validation_calls args' (begin w) callee kw) as Hv.
  destruct (validation W extern args' (begin w)) as [[u|e] stv];
    cbn [fst snd] in *.
  - unfold attr. rewrite Hu', Htu, invoke_Ret. cbn [snd output].
    rewrite calls_app, elem_of_app.
    intros [Hin|[= -> _]%list_elem_of_singleton]; [|by right].
    destruct (Hv Hin) as [H%elem_of_nil|]; [done|by left].
  - assert (Hin : (callee, kw)
                  ∈ calls (output (match e with
                                   | ValueError msg =>
                                       (Ret (), emit W (Print (VALIDATION_FAILED +:+ msg)) stv)
                                   | _ => (Raise e, stv)
                                   end).2) →
                  callee = VALIDATE ∨ callee = "upgrade_cli").
    { destruct e; cbn [snd]; try (intros Hin; destruct (Hv Hin) as [H%elem_of_nil|]; [done|by left]).
      unfold emit; cbn [output]. rewrite calls_app, elem_of_app.
      intros [Hin|Hin%elem_of_nil]; [|done].
      destruct (Hv Hin) as [H%elem_of_nil|]; [done|by left]. }
    destruct e; exact Hin.
Qed.

Lemma dispatch_output_shape args (st : state W) :
  ∃ more, output (dispatch W extern args st).2 = output st ++ more
          ∧ (more = [] ∨ more = [PrintHelp] ∨ ∃ callee kw, more = [Call callee kw]).
Proof.
  unfold dispatch.
  destruct (attr args "command") as [command|e]; cbn [snd];
    [|exists []; rewrite app_nil_r; auto].
  repeat match goal with
         | |- context [if ?b then _ else _] => destruct b
         | |- context [match attr ?a ?n with _ => _ end] =>
             destruct (attr a n); cbn [snd]
         end;
    try (exists []; rewrite app_nil_r; by auto);
    try (unfold emit; cbn [snd output]; by eauto);
    match goal with |- context [invoke W extern ?c ?k st] =>
      destruct k as [kw|e];
      [rewrite invoke_Ret; cbn [snd output];
       eexists; split; [reflexivity|]; right; right; by eauto
      |cbn [invoke snd]; exists []; rewrite app_nil_r; auto]
    end.
Qed.

(** X10.  An interrupt during a subcommand never leaves [main]: when the
    validator returns and [--upgrade] is not set, [main] does not raise
    [KeyboardInterrupt] whatever the called function does, and whenever
    the interruption message is shown [main] has returned normally. *)
Theorem subcommand_interrupt_is_caught args w :
  (∀ kw w0, ∃ v w1, extern VALIDATE kw w0 = (Ret v, w1)) →
  args !! "upgrade" = Some (VBool false) →
  let r := main W extern args (begin w) in
  r.1 ≠ Raise KeyboardInterrupt
  ∧ (Rprint INTERRUPTED ∈ output r.2 → r.1 = Ret ()).
Proof.
  intros Hreturns Hu r.
  assert (Hr : r = main W extern args (begin w)) by done. clearbody r.
  unfold main in Hr.
  destruct (normalise_data_type args) as [args'|e] eqn:Hn.
  2:{ subst r. split; [|by intros H%elem_of_nil].
      unfold normalise_data_type, attr in Hn.
      destruct (args !! "data_type"); cbn in Hn; [done|]. by injection Hn as <-. }
  assert (Hu' : args' !! "upgrade" = Some (VBool false)).
  { unfold normalise_data_type, attr in Hn.
    destruct (args !! "data_type") as [[| |s|]|]; cbn in Hn;
      try (by injection Hn as <-); [|done].
    destruct (negb (s =? "")); injection Hn as <-; [|done].
    by rewrite lookup_insert_ne. }
  pose proof (validation_output W extern args' (begin w)) as Hout.
  pose proof (validation_result W extern args' (begin w) Hreturns) as Hres.
  destruct (validation W extern args' (begin w)) as [rv stv].
  cbn [fst snd begin output] in Hout, Hres.
  assert (Hquiet : ∀ more, (∀ e, e ∈ more → e ≠ Rprint INTERRUPTED) →
                     Rprint INTERRUPTED ∉ output stv ++ more).
  { intros more Hmore [Hin|Hin]%elem_of_app; [|by apply (Hmore _ Hin)].
    destruct Hout as [Heq | [kw Heq]]; rewrite Heq in Hin.
    - by apply elem_of_nil in Hin.
    - cbn in Hin. by apply list_elem_of_singleton in Hin. }
  assert (Hquiet0 : Rprint INTERRUPTED ∉ output stv).
  { rewrite <- (app_nil_r (output stv)). apply Hquiet.
    by intros ? ?%elem_of_nil. }
  destruct Hres as [-> | [name ->]]; [|by subst r].
  unfold attr in Hr. rewrite Hu' in Hr. cbn [truthy] in Hr.
  destruct (args' !! "command") as [command|]; [|by subst r].
  destruct (truthy command); cbn [negb] in Hr.
  2:{ subst r. split; [done|]. intros Hin. cbn in Hin.
      destruct (Hquiet [PrintHelp]); [|done].
      by intros ? ->%list_elem_of_singleton. }
  destruct (dispatch_output_shape args' stv) as (more & Hmore & Hshape).
  destruct (dispatch W extern args' stv) as [[u|e] st1]; cbn [fst snd] in *.
  - subst r. by destruct u.
  - assert (Hno : Rprint INTERRUPTED ∉ output st1).
    { rewrite Hmore. apply Hquiet. intros ev Hev ->.
      destruct Hshape as [-> | [-> | (c & k & ->)]];
        [by apply elem_of_nil in Hev
        |by apply list_elem_of_singleton in Hev
        |by apply list_elem_of_singleton in Hev]. }
    destruct e; subst r; cbn [fst snd]; split; done.
Qed.

(** X11.  What reaches [get_data] from the command line: for [get] (or
    [g]) without [--interactive], with a language and a data type of
    ASCII characters, the validator is given the language as typed and
    the data type with hyphens replaced; [get_data] is then called once
    with both lower-cased (the data type also with the underscores) and
    with the other options as parsed. *)
Theorem get_passes_normalised_arguments command l d output_type output_dir
    outputs_per_entry overwrite all identifier_case w v w1 :
  command = "get" ∨ command = "g" →
  l ≠ "" →
  is_ascii l = true → is_ascii d = true →
  extern VALIDATE [("language", VStr l);
                   ("data_type", VStr (replace "-" "_" d))] w = (Ret v, w1) →
  calls (output (main W extern
                   (get_namespace command false (Some l) (Some d) output_type
                      output_dir outputs_per_entry overwrite all false
                      identifier_case)
                   (begin w)).2)
  = [ (VALIDATE, [("language", VStr l);
                  ("data_type", VStr (replace "-" "_" d))]);
      ("get_data",
       [ ("language", VStr (lower l));
         ("data_type", VStr (lower (replace "-" "_" d)));
         ("output_type", optional output_type);
         ("output_dir", optional output_dir);
         ("outputs_per_entry",
            match outputs_per_entry with Some n => VInt n | None => VNone end);
         ("overwrite", VBool overwrite);
         ("all", match all with Some b => VBool b | None => VNone end);
         ("identifier_case", VStr identifier_case) ]) ].
Proof.
  intros Hcommand Hl _ _ Hv.
  set (args := get_namespace _ _ _ _ _ _ _ _ _ _ _).
  assert (Hlang : args !! "language" = Some (VStr l)) by done.
  assert (Hdt : args !! "data_type" = Some (VStr d)) by done.
  assert (Ht : truthy (VStr l) = true ∨ truthy (VStr d) = true).
  { left. cbn. by destruct (String.eqb_spec l ""). }
  unfold main. rewrite (normalise_data_type_spec _ _ Hdt).
  rewrite (main_validating W extern _ w _ _ Hlang Hdt Ht), invoke_Ret.
  cbn [begin world output app normalised]. rewrite Hv. cbn [fst snd mbind result_bind].
  set (args' := <["data_type" := VStr (replace "-" "_" d)]> args).
  assert (Hget : get_data_kwargs args'
                 = Ret [ ("language", VStr (lower l));
                         ("data_type", VStr (lower (replace "-" "_" d)));
                         ("output_type", optional output_type);
                         ("output_dir", optional output_dir);
                         ("outputs_per_entry",
                            match outputs_per_entry with
                            | Some n => VInt n | None => VNone end);
                         ("overwrite", VBool overwrite);
                         ("all", match all with
                                 | Some b => VBool b | None => VNone end);
                         ("identifier_case", VStr identifier_case) ]) by done.
  assert (Hdisp : ∀ st, dispatch W extern args' st
                        = invoke W extern "get_data" (get_data_kwargs args') st).
  { intros st. unfold dispatch. destruct Hcommand as [-> | ->]; done. }
  assert (Hup : attr args' "upgrade" = Ret (VBool false)) by done.
  assert (Hcmd : attr args' "command" = Ret (VStr command)) by done.
  rewrite Hup, Hcmd. cbn [truthy].
  assert (Htc : negb (command =? "") = true) by (by destruct Hcommand as [-> | ->]).
  rewrite Htc. cbn [negb]. rewrite Hdisp, Hget, invoke_Ret. cbn [world output].
  destruct (extern "get_data" _ w1) as [[v2|[]] w2]; done.
Qed.

(** X12.  [total] copes with omitted flags where [get] does not.  For
    [total] (or [t]) without [--interactive] and [--upgrade], with
    [--language] and [--data-type] each given (in ASCII characters) or
    omitted, and a validator that returns: the validator is called
    exactly when one of the two is a non-empty text, with the language as
    typed and the data type with hyphens replaced; [total_wrapper] is
    then called once, with the language and the data type lower-cased, or
    [None] for the one that was omitted, and with the parsed [--all]. *)
Theorem total_passes_optional_arguments command language data_type all w :
  command = "total" ∨ command = "t" →
  ascii_option language = true → ascii_option data_type = true →
  (∀ kw w0, ∃ v w1, extern VALIDATE kw w0 = (Ret v, w1)) →
  let data_type' := replace "-" "_" <$> data_type in
  calls (output (main W extern
                   (total_namespace command false language data_type all false)
                   (begin w)).2)
  = (if truthy (optional language) || truthy (optional data_type)
     then [ (VALIDATE, [ ("language", optional language);
                         ("data_type", optional data_type') ]) ]
     else [])
    ++ [ ("total_wrapper",
          [ ("language",
               match language with Some s => VStr (lower s) | None => VNone end);
            ("data_type",
               match data_type' with Some s => VStr (lower s) | None => VNone end);
            ("all_bool",
               match all with Some b => VBool b | None => VNone end) ]) ].
Proof.
  intros Hcommand _ _ Hreturns data_type'.
  set (args := total_namespace _ _ _ _ _ _).
  assert (Hl : args !! "language" = Some (optional language)) by done.
  assert (Hd : args !! "data_type" = Some (optional data_type)) by done.
  unfold main. rewrite (normalise_data_type_spec _ _ Hd).
  set (args' := <["data_type" := normalised (optional data_type)]> args).
  assert (Hl' : args' !! "language" = Some (optional language)) by done.
  assert (Hd' : args' !! "data_type" = Some (optional data_type')).
  { unfold args'. rewrite lookup_insert_eq. by destruct data_type. }
  assert (Htd : truthy (optional data_type') = truthy (optional data_type)).
  { destruct data_type as [[|b d]|]; done. }
  assert (Hup : attr args' "upgrade" = Ret (VBool false)) by done.
  assert (Hcmd : attr args' "command" = Ret (VStr command)) by done.
  assert (Htc : negb (truthy (VStr command)) = false)
    by (by destruct Hcommand as [-> | ->]).
  assert (Hkw : total_wrapper_kwargs args'
                = Ret [ ("language",
                           match language with
                           | Some s => VStr (lower s) | None => VNone end);
                        ("data_type",
                           match data_type' with
                           | Some s => VStr (lower s) | None => VNone end);
                        ("all_bool",
                           match all with
                           | Some b => VBool b | None => VNone end) ]).
  { unfold total_wrapper_kwargs, attr. rewrite Hl', Hd'.
    assert (Hall : args' !! "all"
                   = Some (match all with Some b => VBool b | None => VNone end))
      by done.
    rewrite Hall. by destruct language, data_type. }
  assert (Hdisp : ∀ st, dispatch W extern args' st
                        = invoke W extern "total_wrapper"
                            (total_wrapper_kwargs args') st).
  { intros st. unfold dispatch. rewrite Hcmd.
    assert (Hi : attr args' "interactive" = Ret (VBool false)) by done.
    destruct Hcommand as [-> | ->]; cbn [among]; by rewrite Hi. }
  assert (Hval : ∃ stv,
            validation W extern args' (begin w) = (Ret (), stv)
            ∧ calls (output stv)
              = if truthy (optional language) || truthy (optional data_type)
                then [ (VALIDATE, [ ("language", optional language);
                                    ("data_type", optional data_type') ]) ]
                else []).
  { unfold validation, attr. rewrite Hl', Hd'. csimpl. rewrite Htd.
    unfold invoke, emit. cbn [begin world output].
    match goal with |- context [extern VALIDATE ?kw ?w0] =>
      destruct (Hreturns kw w0) as (v & w1 & ->) end.
    destruct (truthy (optional language)), (truthy (optional data_type));
      cbn [orb]; eexists; (split; [reflexivity|done]). }
  destruct Hval as (stv & -> & Hcalls).
  rewrite Hup. cbn [truthy]. rewrite Hcmd, Htc, Hdisp, Hkw.
  rewrite invoke_Ret.
  destruct (extern "total_wrapper" _ (world stv)) as [[v2|[]] w2];
    cbn [fst snd mbind result_bind output emit];
    rewrite ?calls_app, Hcalls; cbn; by rewrite ?app_nil_r.
Qed.

(** X13.  The help text needs the attributes of a subcommand: [main]
    prints it only for a namespace that has [data_type], [language],
    [upgrade] and [command]; for the namespace of a command line without
    subcommand it raises [AttributeError] at the first line that reads
    [args.data_type], before the upgrade and the help. *)
Theorem help_needs_subcommand_attributes args w :
  (PrintHelp ∈ output (main W extern args (begin w)).2 →
   is_Some (args !! "data_type") ∧ is_Some (args !! "language")
   ∧ is_Some (args !! "upgrade") ∧ is_Some (args !! "command"))
  ∧ ∀ upgrade,
      main W extern (bare_namespace upgrade) (begin w)
      = (Raise (AttributeError "data_type"), begin w).
Proof.
  split; [|done].
  set (r := main W extern args (begin w)).
  assert (Hr : r = main W extern args (begin w)) by done. clearbody r.
  unfold main in Hr. intros Hhelp.
  destruct (normalise_data_type args) as [args'|e] eqn:Hn.
  2:{ subst r. by apply elem_of_nil in Hhelp. }
  assert (Hdt : is_Some (args !! "data_type")).
  { unfold normalise_data_type, attr in Hn. by destruct (args !! "data_type"). }
  assert (Hsame : ∀ name, name ≠ "data_type" → args' !! name = args !! name).
  { intros name Hne. unfold normalise_data_type, attr in Hn.
    destruct (args !! "data_type") as [[| |s|]|]; cbn in Hn;
      try (by injection Hn as <-); [|done].
    destruct (negb (s =? "")); injection Hn as <-; [|done].
    by rewrite lookup_insert_ne. }
  pose proof (validation_output W extern args' (begin w)) as Hout.
  cbn [begin output] in Hout.
  assert (Hl : (validation W extern args' (begin w)).1 = Ret () →
               is_Some (args !! "language")).
  { rewrite <- (Hsame "language") by done. unfold validation, attr.
    by destruct (args' !! "language"). }
  destruct (validation W extern args' (begin w)) as [rv stv].
  cbn [fst snd] in *.
  assert (Hquiet : PrintHelp ∉ output stv).
  { destruct Hout as [-> | [kw ->]]; [apply not_elem_of_nil|].
    by intros [=]%list_elem_of_singleton. }
  destruct rv as [u|e].
  2:{ destruct e; subst r; cbn [snd] in Hhelp; try done.
      unfold emit in Hhelp; cbn [output] in Hhelp.
      apply elem_of_app in Hhelp as [?|[=]%list_elem_of_singleton]. done. }
  destruct u. specialize (Hl eq_refl).
  unfold attr in Hr. rewrite !Hsame in Hr by done.
  destruct (args !! "upgrade") as [upgrade|]; [|by subst r].
  destruct (truthy upgrade).
  { rewrite invoke_Ret in Hr. subst r. cbn [snd output] in Hhelp.
    apply elem_of_app in Hhelp as [?|[=]%list_elem_of_singleton]. done. }
  destruct (args !! "command") as [command|]; [|by subst r].
  done.
Qed.

End MainFurther.

(** ** The formatter: errors, order of the rows and fields not read *)

Section FormatFurther.
Import Py FormatVerbs Rows.

Lemma for_verbs_missing verbs_list d :
  Exists (λ verb_vals : row, verb_vals !! "infinitive" = None) verbs_list →
  for_verbs verbs_list d = Raise (KeyError "infinitive").
Proof.
  intros Hex. revert d.
  induction verbs_list as [|verb_vals verbs_list IH]; intros d.
  - by apply Exists_nil in Hex.
  - destruct (verb_vals !! "infinitive") as [infinitive|] eqn:Hinf.
    + rewrite (for_verbs_cons _ _ _ _ Hinf). apply IH.
      apply Exists_cons in Hex as [Hhead|Htail]; [congruence|done].
    + cbn [for_verbs]. by rewrite Hinf.
Qed.

(** X14.  The formatter fails exactly when a row has no [infinitive]
    field: it then raises [KeyError] for that key, wherever the row
    stands in the list and whatever the other rows hold; otherwise it
    returns a mapping. *)
Theorem verbs_formatted_fails_without_infinitive (verbs_list : list row) :
  verbs_formatted verbs_list = Raise (KeyError "infinitive")
  ↔ Exists (λ verb_vals : row, verb_vals !! "infinitive" = None) verbs_list.
Proof.
  split.
  - intros Hraise.
    destruct (decide (Forall has_infinitive verbs_list)) as [Hall|Hnot].
    + destruct (for_verbs_spec verbs_list [] Hall) as (d & Hrun & _).
      unfold verbs_formatted in Hraise. by rewrite Hrun in Hraise.
    + apply not_Forall_Exists in Hnot; [|apply _].
      eapply Exists_impl; [exact Hnot|]. intros verb_vals Hno. cbn in Hno.
      unfold has_infinitive in Hno. destruct (verb_vals !! "infinitive"); [|done].
      destruct Hno. by eexists.
  - intros Hex. unfold verbs_formatted. by rewrite (for_verbs_missing _ _ Hex).
Qed.

Lemma entry_of_ext (r1 r2 : row) :
  (∀ key, key ∈ all_conjugations → r1 !! key = r2 !! key) →
  entry_of r1 = entry_of r2.
Proof.
  intros Hsame. unfold entry_of. apply list_fmap_ext.
  intros i key Hkey. rewrite (Hsame key); [done|].
  by apply list_elem_of_lookup_2 in Hkey.
Qed.

(** X15.  The formatter reads the infinitive and the 24 conjugation
    fields of a row and nothing else: two lists of rows that agree, row
    by row, on these fields give the same result, whatever else the rows
    hold. *)
Theorem verbs_formatted_ignores_other_fields (rows1 rows2 : list row) :
  Forall2 same_read_fields rows1 rows2 →
  verbs_formatted rows1 = verbs_formatted rows2.
Proof.
  intros Hsame. unfold verbs_formatted.
  assert (Hrun : ∀ d, for_verbs rows1 d = for_verbs rows2 d).
  { induction Hsame as [|r1 r2 rows1 rows2 Hrow Hrows IH]; intros d; [done|].
    pose proof (Hrow "infinitive" ltac:(by left)) as Hinf.
    destruct (r1 !! "infinitive") as [infinitive|] eqn:H1.
    - rewrite (for_verbs_cons r1 _ _ _ H1).
      rewrite (for_verbs_cons r2 _ _ infinitive) by done.
      rewrite (entry_of_ext r1 r2); [apply IH|].
      intros key Hkey. apply Hrow. by right.
    - cbn [for_verbs]. by rewrite H1, <- Hinf. }
  by rewrite Hrun.
Qed.

Lemma getitem_is_Some {V} k (d : dict V) : is_Some (getitem k d) ↔ k ∈ d.*1.
Proof.
  induction d as [|[k0 v0] d IH]; csimpl.
  - split; [by intros [? ?]|by intros ?%elem_of_nil].
  - destruct (String.eqb_spec k0 k) as [->|Hne].
    + split; [intros _; by left|by eexists].
    + rewrite IH. split; [by right|].
      by intros [->|]%elem_of_cons.
Qed.

Lemma latest_is_Some_iff k verbs_list :
  is_Some (latest k verbs_list) ↔ k ∈ infinitives verbs_list.
Proof.
  unfold infinitives. rewrite list_elem_of_omap. split.
  - intros [verb_vals Hlatest].
    destruct (latest_Some _ _ _ Hlatest). by exists verb_vals.
  - intros (verb_vals & Hin & Hinf). by eapply latest_is_Some.
Qed.

(** What the formatter returns on rows that all have an infinitive. *)
Lemma verbs_formatted_items (verbs_list : list row) :
  Forall has_infinitive verbs_list →
  ∃ out, verbs_formatted verbs_list = Ret out
         ∧ StronglySorted key_lt out
         ∧ NoDup out.*1
         ∧ (∀ k, k ∈ out.*1 ↔ k ∈ infinitives verbs_list)
         ∧ (∀ k fields, (k, fields) ∈ out
              ↔ ∃ verb_vals, latest k verbs_list = Some verb_vals
                             ∧ fields = entry_of verb_vals).
Proof.
  intros Hall.
  destruct (for_verbs_spec verbs_list [] Hall) as (d & Hrun & Hnodup & Hget).
  specialize (Hnodup (NoDup_nil_2)).
  assert (Hkeys : NoDup (sorted_items d).*1) by (by rewrite (sorted_items_perm d)).
  exists (sorted_items d). unfold verbs_formatted.
  rewrite Hrun, (OrderedDict_items _ Hkeys).
  split; [done|]. split; [by apply sorted_items_sorted|]. split; [done|]. split.
  - intros k. rewrite (sorted_items_perm d), <- getitem_is_Some, Hget.
    rewrite <- latest_is_Some_iff.
    destruct (latest k verbs_list); cbn; split; try done; by eexists.
  - intros k fields. rewrite (sorted_items_perm d). split.
    + intros Hin%(elem_getitem _ _ _ Hnodup). rewrite Hget in Hin.
      destruct (latest k verbs_list) as [verb_vals|]; [|done].
      injection Hin as <-. by exists verb_vals.
    + intros (verb_vals & Hlatest & ->). apply getitem_Some_elem.
      by rewrite Hget, Hlatest.
Qed.

(** X16.  The mapping has one item for each distinct infinitive: its keys
    are the infinitives of the rows without repetition, so rows that
    share an infinitive are merged into one item. *)
Theorem verbs_formatted_one_item_per_infinitive (verbs_list : list row) :
  Forall has_infinitive verbs_list →
  ∃ out, verbs_formatted verbs_list = Ret out
         ∧ out.*1 ≡ₚ remove_dups (infinitives verbs_list)
         ∧ length out = length (remove_dups (infinitives verbs_list)).
Proof.
  intros Hall.
  destruct (verbs_formatted_items verbs_list Hall)
    as (out & Hrun & _ & Hnodup & Hkeys & _).
  exists out. split; [done|].
  assert (Hperm : out.*1 ≡ₚ remove_dups (infinitives verbs_list)).
  { apply NoDup_Permutation; [done|apply NoDup_remove_dups|].
    intros k. by rewrite Hkeys, elem_of_remove_dups. }
  split; [done|]. by rewrite <- Hperm, length_fmap.
Qed.

Lemma infinitives_cons (verb_vals : row) verbs_list :
  infinitives (verb_vals :: verbs_list)
  = match verb_vals !! "infinitive" with
    | Some k => k :: infinitives verbs_list
    | None => infinitives verbs_list
    end.
Proof. reflexivity. Qed.

Lemma latest_unique k verbs_list verb_vals :
  NoDup (infinitives verbs_list) →
  verb_vals ∈ verbs_list → verb_vals !! "infinitive" = Some k →
  latest k verbs_list = Some verb_vals.
Proof.
  induction verbs_list as [|first verbs_list IH].
  - by intros _ H%elem_of_nil.
  - rewrite infinitives_cons. cbn [latest].
    intros Hnodup [->|Hin]%elem_of_cons Hinf.
    + rewrite Hinf in Hnodup. apply NoDup_cons in Hnodup as [Hfresh _].
      destruct (latest k verbs_list) as [later|] eqn:Hlater.
      * destruct Hfresh. apply latest_is_Some_iff. by eexists.
      * by rewrite decide_True.
    + assert (Htail : NoDup (infinitives verbs_list)).
      { destruct (first !! "infinitive");
          [by apply NoDup_cons in Hnodup as [_ ?]|done]. }
      by rewrite (IH Htail Hin Hinf).
Qed.

Lemma key_lt_asym {V} (x y : string * V) : key_lt x y → key_lt y x → x = y.
Proof.
  unfold key_lt. intros Hxy Hyx.
  pose proof (ltb_trans _ _ _ Hxy Hyx) as H. by rewrite ltb_irrefl in H.
Qed.

(** X17.  For rows with distinct infinitives the result does not depend
    on the order in which the rows were queried: two lists that are
    permutations of each other are formatted to the same mapping. *)
Theorem verbs_formatted_order_independent (rows1 rows2 : list row) :
  rows1 ≡ₚ rows2 →
  Forall has_infinitive rows1 →
  NoDup (infinitives rows1) →
  ∃ out, verbs_formatted rows1 = Ret out ∧ verbs_formatted rows2 = Ret out.
Proof.
  intros Hperm Hall1 Hnodup1.
  assert (Hall2 : Forall has_infinitive rows2) by (by rewrite <- Hperm).
  assert (Hnodup2 : NoDup (infinitives rows2)).
  { unfold infinitives in *. by rewrite <- Hperm. }
  destruct (verbs_formatted_items rows1 Hall1)
    as (out1 & Hrun1 & Hsorted1 & Hk1 & _ & Hitems1).
  destruct (verbs_formatted_items rows2 Hall2)
    as (out2 & Hrun2 & Hsorted2 & Hk2 & _ & Hitems2).
  exists out1. split; [done|]. rewrite Hrun2. f_equal. symmetry.
  apply (StronglySorted_unique_strong key_lt); try done.
  - intros x1 x2 _ _. apply key_lt_asym.
  - apply NoDup_Permutation;
      [by apply NoDup_fmap_1 in Hk1|by apply NoDup_fmap_1 in Hk2|].
    intros [k fields]. rewrite Hitems1, Hitems2.
    split; intros (verb_vals & Hlatest & ->); exists verb_vals; (split; [|done]).
    + destruct (latest_Some _ _ _ Hlatest) as [Hin Hinf].
      apply latest_unique; [done|by rewrite <- Hperm|done].
    + destruct (latest_Some _ _ _ Hlatest) as [Hin Hinf].
      apply latest_unique; [done|by rewrite Hperm|done].
Qed.

End FormatFurther.

(** ** The totals request and the menus *)

Section MenuFurther.
Import Py PyStr Interactive Settled Menu MenuReading.

Variable Path : string → string.
Variable W : Type.
Variable extern : string → kwargs → W → result value * W.
Variable total_wrapper :
  list string → list string → bool → W → result value * W.
Variable version_message : string.

Lemma lstrip_blank_bounded n :
  ∀ text, (String.length text ≤ n)%nat → blank (lstrip text) → blank text.
Proof.
  unfold blank. induction n as [n IH] using lt_wf_ind. intros text Hn.
  destruct text as [|b0 s1]; [done|]. cbn [lstrip].
  destruct (is_space b0) eqn:H0.
  { intros Hb. cbn in *. constructor; [by left|].
    apply (IH (String.length s1)); [lia|lia|done]. }
  destruct s1 as [|b1 s2]; [done|].
  destruct (is_space2 b0 b1) eqn:H1.
  { intros Hb. cbn in *. unfold is_space2 in H1.
    apply andb_true_iff in H1 as [Hb0%Nat.eqb_eq Hb1%orb_true_iff].
    constructor; [right; lia|]. constructor.
    - right. destruct Hb1 as [Hb1%Nat.eqb_eq|Hb1%Nat.eqb_eq]; lia.
    - apply (IH (String.length s2)); [lia|lia|done]. }
  destruct s2 as [|b2 s3]; [done|].
  destruct (is_space3 b0 b1 b2) eqn:H2; [|done].
  intros Hb. cbn in *. unfold is_space3 in H2.
  assert (128 ≤ nat_of_ascii b0 ∧ 128 ≤ nat_of_ascii b1
          ∧ 128 ≤ nat_of_ascii b2)%nat as (? & ? & ?).
  { repeat match goal with
           | H : _ || _ = true |- _ => apply orb_true_iff in H as [H|H]
           | H : _ && _ = true |- _ => apply andb_true_iff in H as [? H]
           | H : (_ =? _)%nat = true |- _ => apply Nat.eqb_eq in H
           | H : (_ <=? _)%nat = true |- _ => apply Nat.leb_le in H
           end; lia. }
  constructor; [by right|]. constructor; [by right|]. constructor; [by right|].
  apply (IH (String.length s3)); [lia|lia|done].
Qed.

Lemma rstrip_empty text : rstrip text = "" → lstrip text = "".
Proof.
  destruct text as [|b text]; [done|]. cbn [rstrip].
  by destruct (String.eqb_spec (lstrip (String b text)) "").
Qed.

Lemma strip_empty_blank text : strip text = "" → blank text.
Proof.
  unfold strip. intros Hr%rstrip_empty.
  apply (lstrip_blank_bounded (String.length text)); [done|].
  apply (lstrip_blank_bounded (String.length (lstrip text))); [done|].
  rewrite Hr. constructor.
Qed.

Lemma blank_byte_is_not b other :
  is_space b = true ∨ (128 ≤ nat_of_ascii b)%nat →
  is_space other = false → (nat_of_ascii other < 128)%nat →
  Ascii.eqb other b = false.
Proof.
  intros Hb Ho Hlt. destruct (Ascii.eqb_spec other b) as [->|]; [|done].
  destruct Hb; [congruence|lia].
Qed.

Lemma blank_contains_All text : blank text → contains "All" text = false.
Proof.
  unfold blank. induction text as [|ch text IH]; [done|].
  cbn [list_ascii_of_string contains startswith].
  intros [Hs Hrest]%Forall_cons. rewrite (IH Hrest), orb_false_r.
  rewrite (blank_byte_is_not ch "A" Hs); [done|done|].
  vm_compute. lia.
Qed.

Lemma blank_lower text : blank text → lower text = text.
Proof.
  unfold blank. induction text as [|ch text IH]; cbn; [done|].
  intros [Hs Hrest]%Forall_cons. rewrite (IH Hrest). f_equal.
  unfold lower_char, is_upper. unfold is_space in Hs.
  destruct (65 <=? nat_of_ascii ch)%nat eqn:H1;
    destruct (nat_of_ascii ch <=? 90)%nat eqn:H2; cbn; try done.
  apply Nat.leb_le in H1, H2.
  destruct Hs as [Hs|Hs]; [|lia].
  apply orb_true_iff in Hs as [[H3 H4]%andb_true_iff | [H3 H4]%andb_true_iff];
    apply Nat.leb_le in H3, H4; lia.
Qed.

Lemma blank_capitalize text : blank text → capitalize text = text.
Proof.
  destruct text as [|ch text]; [done|]. unfold blank; cbn.
  intros [Hs Hrest]%Forall_cons. rewrite (blank_lower text Hrest). f_equal.
  unfold upper_char, is_lower. unfold is_space in Hs.
  destruct (97 <=? nat_of_ascii ch)%nat eqn:H1;
    destruct (nat_of_ascii ch <=? 122)%nat eqn:H2; cbn; try done.
  apply Nat.leb_le in H1, H2.
  destruct Hs as [Hs|Hs]; [|lia].
  apply orb_true_iff in Hs as [[H3 H4]%andb_true_iff | [H3 H4]%andb_true_iff];
    apply Nat.leb_le in H3, H4; lia.
Qed.

Lemma blank_split text : blank text → split "," text = [text].
Proof.
  unfold blank. induction text as [|ch text IH]; [done|].
  cbn [list_ascii_of_string split].
  intros [Hs Hrest]%Forall_cons. rewrite (IH Hrest).
  assert (Hne : Ascii.eqb "," ch = false).
  { apply blank_byte_is_not; [done|done|]. vm_compute. lia. }
  rewrite Ascii.eqb_sym, Hne. done.
Qed.

(** *** [request_total_lexeme] *)

Lemma total_languages_answer_blank c answer :
  strip answer = "" → total_languages_answer c answer = c.
Proof.
  intros Hb. unfold total_languages_answer.
  by rewrite (blank_contains_All _ (strip_empty_blank _ Hb)), Hb.
Qed.

Lemma total_data_types_answer_blank c answer :
  strip answer = "" → total_data_types_answer c answer = c.
Proof.
  intros Hb. unfold total_data_types_answer.
  pose proof (strip_empty_blank _ Hb) as Hbl.
  by rewrite (blank_capitalize _ Hbl), (blank_contains_All _ Hbl), Hb.
Qed.

Lemma same_outside_selections_trans c1 c2 c3 :
  same_outside_selections c1 c2 → same_outside_selections c2 c3 →
  same_outside_selections c1 c3.
Proof.
  unfold same_outside_selections.
  intros (? & ? & ? & ? & ? & ?) (? & ? & ? & ? & ? & ?).
  repeat split; congruence.
Qed.

Lemma total_languages_answer_fields c answer :
  let c' := total_languages_answer c answer in
  same_outside_selections c c'
  ∧ selected_data_types c' = selected_data_types c
  ∧ (selected_languages c ⊆ languages c → selected_languages c' ⊆ languages c).
Proof.
  cbv zeta. unfold total_languages_answer, same_outside_selections.
  destruct (contains "All" answer); [by cbn|].
  destruct (negb _); cbn; [|done].
  repeat split; try done. by intros _ token [Hin _]%list_elem_of_filter.
Qed.

Lemma total_data_types_answer_fields c answer :
  let c' := total_data_types_answer c answer in
  same_outside_selections c c'
  ∧ selected_languages c' = selected_languages c
  ∧ (selected_data_types c ⊆ data_types c →
     selected_data_types c' ⊆ data_types c).
Proof.
  cbv zeta. unfold total_data_types_answer, same_outside_selections.
  destruct (contains "All" (capitalize answer)); [by cbn|].
  destruct (negb _); cbn; [|done].
  repeat split; try done. by intros _ token [Hin _]%list_elem_of_filter.
Qed.

Lemma request_total_lexeme_bounded n :
  ∀ inputs, (length inputs ≤ n)%nat → ∀ c,
    let s := request_total_lexeme inputs c in
    same_outside_selections c (lx_config s)
    ∧ (lx_state s = LexemeReturned →
       selected_languages (lx_config s) ≠ []
       ∧ selected_data_types (lx_config s) ≠ [])
    ∧ (selected_languages c ⊆ languages c →
       selected_languages (lx_config s) ⊆ languages c)
    ∧ (selected_data_types c ⊆ data_types c →
       selected_data_types (lx_config s) ⊆ data_types c)
    ∧ (length (lx_unread s) ≤ length inputs)%nat
    ∧ Forall (λ e, match e with
                   | Prompt _ _ => True
                   | Rprint text => text = NO_LANGUAGE ∨ text = NO_DATA_TYPE
                   | _ => False
                   end) (lx_shown s).
Proof.
  induction n as [n IH] using lt_wf_ind. intros inputs Hn c. cbv zeta.
  destruct inputs as [|l inputs]; cbn [request_total_lexeme].
  { cbn. repeat split; try done. by repeat constructor. }
  destruct (total_languages_answer_fields c l) as (Hk1 & Hd1 & Hs1).
  set (c1 := total_languages_answer c l) in *.
  assert (Hreg1 : languages c1 = languages c ∧ data_types c1 = data_types c).
  { destruct Hk1 as (? & ? & _). done. }
  destruct Hreg1 as [Hrl1 Hrd1].
  destruct (selected_languages c1) as [|l1 ls1] eqn:Hsel1.
  { cbn in Hn.
    destruct (IH (length inputs) ltac:(lia) inputs ltac:(lia) c1)
      as (Hk & Hret & Hsl & Hsd & Hlen & Hev).
    cbn [lx_after lx_state lx_config lx_shown lx_unread].
    split; [by eapply same_outside_selections_trans|].
    split; [done|].
    split; [intros _; rewrite <- Hrl1; apply Hsl; rewrite Hsel1; set_solver|].
    split; [intros Hsub; rewrite <- Hrd1; apply Hsd; by rewrite Hd1, Hrd1|].
    split; [cbn; lia|].
    apply Forall_app. split; [|done].
    cbn. repeat first [apply Forall_nil_2 | apply Forall_cons_2]; auto. }
  destruct inputs as [|d inputs].
  { cbn [lx_state lx_config lx_shown lx_unread].
    split; [done|]. split; [done|].
    split; [by rewrite Hsel1|].
    split; [by rewrite Hd1|].
    split; [cbn; lia|].
    cbn. repeat first [apply Forall_nil_2 | apply Forall_cons_2]; auto. }
  destruct (total_data_types_answer_fields c1 d) as (Hk2 & Hl2 & Hs2).
  set (c2 := total_data_types_answer c1 d) in *.
  assert (Hreg2 : languages c2 = languages c1 ∧ data_types c2 = data_types c1).
  { destruct Hk2 as (? & ? & _). done. }
  destruct Hreg2 as [Hrl2 Hrd2].
  destruct (selected_data_types c2) as [|d1 ds1] eqn:Hsel2.
  { cbn in Hn.
    destruct (IH (length inputs) ltac:(lia) inputs ltac:(lia) c2)
      as (Hk & Hret & Hsl & Hsd & Hlen & Hev).
    cbn [lx_after lx_state lx_config lx_shown lx_unread].
    split.
    { eapply same_outside_selections_trans; [exact Hk1|].
      by eapply same_outside_selections_trans. }
    split; [done|].
    split.
    { intros Hsub. rewrite <- Hrl1, <- Hrl2. apply Hsl.
      rewrite Hl2, Hsel1, Hrl2, Hrl1. by apply Hs1. }
    split.
    { intros _. rewrite <- Hrd1, <- Hrd2. apply Hsd. rewrite Hsel2. set_solver. }
    split; [cbn; lia|].
    apply Forall_app. split; [|done].
    cbn. repeat first [apply Forall_nil_2 | apply Forall_cons_2]; auto. }
  cbn [lx_state lx_config lx_shown lx_unread].
  split; [by eapply same_outside_selections_trans|].
  split; [by rewrite Hl2, Hsel1, Hsel2|].
  split; [intros Hsub; rewrite Hl2, Hsel1; by apply Hs1|].
  split.
  { intros Hsub. rewrite Hsel2, <- Hrd1. apply Hs2. by rewrite Hd1, Hrd1. }
  split; [cbn; lia|].
  cbn. repeat first [apply Forall_nil_2 | apply Forall_cons_2]; auto.
Qed.

(** X18.  In [request_total_lexeme] an answer of white space alone
    assigns nothing: the selection made before stands and, when it is not
    empty, the function goes on to the next step as if it had been typed
    again.  In [configure_settings] the same answer empties the selection
    (the registry holds no empty name) and the session starts over. *)
Theorem blank_answer_keeps_total_selection c answer :
  strip answer = "" →
  total_languages_answer c answer = c
  ∧ total_data_types_answer c answer = c
  ∧ (selected_languages c ≠ [] →
     lx_state (request_total_lexeme [answer] c) = LexemeDataTypes
     ∧ lx_config (request_total_lexeme [answer] c) = c)
  ∧ (selected_languages c ≠ [] → selected_data_types c ≠ [] →
     lx_state (request_total_lexeme [answer; answer] c) = LexemeReturned
     ∧ lx_config (request_total_lexeme [answer; answer] c) = c)
  ∧ ("" ∉ languages c →
     selected_languages (Interactive.config (configure_settings Path [answer] c))
     = []
     ∧ at_state (configure_settings Path [answer] c) = AwaitingLanguages).
Proof.
  intros Hb.
  pose proof (total_languages_answer_blank c answer Hb) as Hl.
  pose proof (total_data_types_answer_blank c answer Hb) as Hd.
  split; [done|]. split; [done|]. split; [|split].
  - intros Hne. cbn [request_total_lexeme]. rewrite Hl.
    by destruct (selected_languages c).
  - intros Hnl Hnd. cbn [request_total_lexeme]. rewrite Hl.
    destruct (selected_languages c); [done|]. rewrite Hd.
    by destruct (selected_data_types c).
  - intros Hno. cbn [configure_settings].
    assert (Hsel : language_selection c answer = []).
    { unfold language_selection.
      pose proof (strip_empty_blank _ Hb) as Hbl.
      rewrite (blank_contains_All _ Hbl), (blank_split _ Hbl). cbn.
      rewrite Hb. by rewrite decide_False. }
    cbn [selected_languages set_selected_languages]. rewrite Hsel. done.
Qed.

(** X19.  When [request_total_lexeme] returns, both selections are
    non-empty; it changes nothing of the configuration but the two
    selections, however many times it started over; and selections that
    were within the registry lists before are within them after. *)
Theorem request_total_lexeme_returns_selections inputs c :
  lx_state (request_total_lexeme inputs c) = LexemeReturned →
  let c' := lx_config (request_total_lexeme inputs c) in
  selected_languages c' ≠ [] ∧ selected_data_types c' ≠ []
  ∧ same_outside_selections c c'
  ∧ (selected_languages c ⊆ languages c →
     selected_languages c' ⊆ languages c)
  ∧ (selected_data_types c ⊆ data_types c →
     selected_data_types c' ⊆ data_types c).
Proof.
  intros Hret. cbv zeta.
  destruct (request_total_lexeme_bounded (length inputs) inputs ltac:(done) c)
    as (Hk & Hne & Hsl & Hsd & _ & _).
  destruct (Hne Hret). done.
Qed.


(** *** The menus *)

Lemma shown_in_app tr1 tr2 : shown_in (tr1 ++ tr2) = shown_in tr1 ++ shown_in tr2.
Proof. apply omap_app. Qed.

Lemma shown_in_fmap out : shown_in (Shown <$> out) = out.
Proof.
  unfold shown_in. induction out as [|e out IH]; [done|]. csimpl. by rewrite IH.
Qed.

Lemma harmless_shown c0 out (tr : list Menu.event) :
  Forall (harmless c0) tr → Forall (λ e, harmless c0 (Shown e)) out →
  Forall (harmless c0) (tr ++ (Shown <$> out)).
Proof.
  intros Htr Hout. apply Forall_app. split; [done|]. by apply Forall_fmap.
Qed.

Lemma react_harmless c0 state c answer :
  Forall (λ e, harmless c0 (Shown e)) (react Path state c answer).2.
Proof.
  destruct state; cbn [react];
    repeat match goal with
           | |- context [match ?l with [] => _ | _ :: _ => _ end] => destruct l
           | |- context [decide ?P] => destruct (decide P)
           end; cbn [snd display_summary];
    repeat first [apply Forall_nil_2 | apply Forall_cons_2]; by cbn.
Qed.

Lemma configure_settings_harmless c0 inputs c :
  Forall (λ e, harmless c0 (Shown e)) (shown (configure_settings Path inputs c)).
Proof.
  induction inputs as [|answer inputs IH] using rev_ind.
  - cbn. repeat first [apply Forall_nil_2 | apply Forall_cons_2]; by cbn.
  - rewrite answer_prompt_refines. unfold answer_prompt.
    pose proof (react_harmless c0 (at_state (configure_settings Path inputs c))
                  (Interactive.config (configure_settings Path inputs c)) answer)
      as Hr.
    destruct (at_state (configure_settings Path inputs c)); try done;
      destruct (react Path _ _ answer) as [[s' c'] out];
      cbn [shown snd] in *; apply Forall_app; by split.
Qed.

Lemma configure_settings_unread_length inputs c :
  (length (unread (configure_settings Path inputs c)) ≤ length inputs)%nat.
Proof.
  induction inputs as [|answer inputs IH] using rev_ind; [done|].
  rewrite answer_prompt_refines. unfold answer_prompt. rewrite !length_app.
  destruct (at_state (configure_settings Path inputs c));
    try (destruct (react Path _ _ answer) as [[s' c'] out]; cbn; lia).
  cbn [unread]. rewrite length_app. cbn. lia.
Qed.

Lemma lexeme_request_facts c0 inputs (st : Menu.state W) :
  let r := lexeme_request W inputs st in
  (length (rest r) ≤ length inputs)%nat
  ∧ (Forall (harmless c0) (trace st) → Forall (harmless c0) (trace (final r)))
  ∧ stopped r ≠ OutOfTurns.
Proof.
  cbv zeta. unfold lexeme_request.
  destruct (request_total_lexeme_bounded (length inputs) inputs ltac:(done)
              (Menu.config st)) as (_ & _ & _ & _ & Hlen & Hev).
  assert (Hh : Forall (λ e, harmless c0 (Shown e))
                      (lx_shown (request_total_lexeme inputs (Menu.config st)))).
  { eapply Forall_impl; [exact Hev|]. intros [] He; cbn in *; try done.
    by destruct He as [-> | ->]. }
  destruct (lx_state _); cbn [stop_at rest final stopped show trace length];
    (split; [lia|]); (split; [|done]); intros Htr; by apply harmless_shown.
Qed.

Lemma request_total_lexeme_loop_facts c0 turns :
  ∀ inputs (st : Menu.state W),
    let r := request_total_lexeme_loop W total_wrapper turns inputs st in
    ((length inputs < turns)%nat → stopped r ≠ OutOfTurns)
    ∧ (Forall (harmless c0) (trace st) → Forall (harmless c0) (trace (final r))).
Proof.
  induction turns as [|turns IH]; intros inputs st; cbv zeta.
  { cbn. split; [lia|done]. }
  cbn [request_total_lexeme_loop].
  destruct inputs as [|choice inputs].
  { cbn. split; [done|]. intros Htr. apply Forall_app. split; [done|].
    by repeat constructor. }
  assert (Hemit : Forall (harmless c0) (trace st) →
                  Forall (harmless c0)
                    (trace (Menu.emit W (Select WHAT_TO_DO LEXEME_CHOICES) st))).
  { intros Htr. cbn. apply Forall_app. split; [done|]. by repeat constructor. }
  destruct (negb (offered LEXEME_CHOICES choice)); [by cbn|].
  destruct (String.eqb choice "run").
  { cbn [Menu.emit Menu.config world trace].
    destruct (total_wrapper _ _ _ _) as [[v|e] w1];
      cbn [stop_at stopped final trace Menu.emit];
      (split; [done|]); intros Htr;
      rewrite ?Forall_app; repeat split; try done; by repeat constructor. }
  destruct (String.eqb choice "exit"); [by cbn|].
  match goal with |- context [lexeme_request W inputs ?s] =>
    destruct (lexeme_request_facts c0 inputs s) as (Hlen & Hh & Hstop);
    destruct (lexeme_request W inputs s) as [how st1 rest1] end.
  cbn [stopped final rest] in *.
  destruct how; try (split; [done|]; intros Htr; by apply Hh, Hemit).
  destruct (IH rest1 st1) as [Hturns Htrace].
  split.
  - intros Hlt. cbn in Hlt. apply Hturns. lia.
  - intros Htr. by apply Htrace, Hh, Hemit.
Qed.


Lemma work_items_elem c item :
  item ∈ work_items c →
  item.1 ∈ selected_languages c ∧ item.2 ∈ selected_data_types c.
Proof.
  unfold work_items. intros (language & Hitem & Hl)%list_elem_of_bind.
  apply list_elem_of_bind in Hitem as (data_type & Hitem & Hd).
  apply list_elem_of_singleton in Hitem as ->. done.
Qed.

Lemma runner_output_harmless c0 c w :
  kept c0 c → configured c = true →
  Forall (λ e, harmless c0 (Shown e))
         (st_output (run_request W extern (start c w)).2).
Proof.
  intros (Hl & Hd & Hc) Hconf.
  destruct (Hc Hconf) as ([Hnl Hsl] & [Hnd Hsd] & Ht).
  apply Forall_forall. intros e Hin. destruct e as [text| | | | | |callee kw| | |];
    try done; cbn.
  - assert (Hp : text ∈ printed (st_output (run_request W extern (start c w)).2)).
    { apply list_elem_of_omap. by exists (Rprint text). }
    by rewrite (run_request_printed_settled W extern c w text Hnl Hnd Hp).
  - intros ->.
    assert (Hk : kw ∈ get_data_calls
                        (st_output (run_request W extern (start c w)).2)).
    { apply list_elem_of_omap. by exists (Call "get_data" kw). }
    destruct (run_request_calls_prefix W extern c w) as [more Hall].
    assert (Hin' : kw ∈ (λ item, get_data_kwargs c item.1 item.2) <$> work_items c).
    { rewrite Hall. apply elem_of_app. by left. }
    apply list_elem_of_fmap in Hin' as (item & -> & Hitem).
    apply work_items_elem in Hitem as [H1 H2].
    exists item.1, item.2, c. rewrite <- Hl, <- Hd. auto.
Qed.

Lemma runner_request_facts c0 inputs (st : Menu.state W) :
  let r := runner_request W extern inputs st in
  stopped r ≠ OutOfTurns
  ∧ Menu.config (final r) = Menu.config st
  ∧ rest r = inputs
  ∧ (kept c0 (Menu.config st) → configured (Menu.config st) = true →
     Forall (harmless c0) (trace st) → Forall (harmless c0) (trace (final r))).
Proof.
  cbv zeta. unfold runner_request.
  pose proof (runner_output_harmless c0 (Menu.config st) (world st)) as Hh.
  pose proof (run_request_config W extern
                (start (Menu.config st) (world st))) as Hc.
  unfold start in *.
  destruct (run_request W extern _) as [[u|e] st1];
    cbn [fst snd stop_at stopped final rest show trace Menu.config] in *;
    repeat split; try done; intros; apply harmless_shown; auto.
Qed.

Lemma see_list_languages_facts c0 inputs (st : Menu.state W) :
  let r := see_list_languages W extern inputs st in
  stopped r ≠ OutOfTurns
  ∧ (Forall (harmless c0) (trace st) → Forall (harmless c0) (trace (final r))).
Proof.
  cbv zeta. unfold see_list_languages.
  destruct inputs as [|choice inputs].
  { cbn. split; [done|]. intros Htr. apply Forall_app. split; [done|].
    by repeat constructor. }
  destruct (negb _).
  { cbn. split; [done|]. intros Htr. apply Forall_app. split; [done|].
    by repeat constructor. }
  repeat match goal with
         | |- context [String.eqb choice ?x] => destruct (String.eqb choice x)
         end;
    cbn [Menu.emit world trace Menu.config];
    try destruct (extern _ _ _) as [[v|e] w1];
    cbn [stop_at stopped final trace Menu.emit]; (split; [done|]); intros Htr;
    rewrite ?Forall_app; repeat split; try done;
    repeat first [apply Forall_nil_2 | apply Forall_cons_2]; by cbn.
Qed.

Lemma configure_is_offered c : offered (main_choices c) "configure" = true.
Proof.
  unfold main_choices.
  by destruct (bool_decide _ && bool_decide _), (configured c).
Qed.

Lemma run_is_offered c :
  offered (main_choices c) "run" = true ↔
  configured c = true
  ∧ ¬ (selected_languages c = [] ∧ selected_data_types c = []).
Proof.
  clear Path extern total_wrapper version_message W.
  unfold main_choices.
  destruct (bool_decide (selected_languages c = [])) eqn:Hl;
    destruct (bool_decide (selected_data_types c = [])) eqn:Hd;
    destruct (configured c); cbn [andb];
    try apply bool_decide_eq_true in Hl; try apply bool_decide_eq_true in Hd;
    try apply bool_decide_eq_false in Hl; try apply bool_decide_eq_false in Hd;
    match goal with
    | |- ?b = true ↔ _ => let v := eval vm_compute in b in change b with v
    end;
    (split;
     [ intros Ho; first [discriminate Ho | split; [done|tauto]]
     | intros [Hc Hne]; first [done | tauto] ]).
Qed.

Lemma settings_request_facts c0 inputs (st : Menu.state W) :
  let r := settings_request Path W inputs st in
  stopped r ≠ OutOfTurns
  ∧ (length (rest r) ≤ length inputs)%nat
  ∧ (Forall (harmless c0) (trace st) → Forall (harmless c0) (trace (final r)))
  ∧ (stopped r = Returned →
     languages (Menu.config st) = languages c0 →
     data_types (Menu.config st) = data_types c0 →
     kept c0 (Menu.config (final r))).
Proof.
  cbv zeta. unfold settings_request.
  pose proof (configure_settings_harmless c0 inputs (Menu.config st)) as Hh.
  pose proof (configure_settings_unread_length inputs (Menu.config st)) as Hlen.
  pose proof (configure_settings_settled Path inputs (Menu.config st)) as Hs.
  destruct (configure_settings_registry Path inputs (Menu.config st)) as [Hrl Hrd].
  unfold settled in Hs.
  destruct (at_state (configure_settings Path inputs (Menu.config st)));
    cbn [stop_at stopped final rest show trace Menu.config length];
    (split; [done|]); (split; [lia|]);
    (split; [intros Htr; by apply harmless_shown|]); try done.
  intros _ Hl Hd. destruct Hs as (Hsl & Hsd & Ht & Hc).
  split; [congruence|]. split; [congruence|]. intros _. done.
Qed.

Lemma main_menu_facts c0 turns :
  ∀ inputs (st : Menu.state W),
    let r := main_menu Path W extern total_wrapper turns inputs st in
    ((length inputs < turns)%nat → stopped r ≠ OutOfTurns)
    ∧ (kept c0 (Menu.config st) → Forall (harmless c0) (trace st) →
       Forall (harmless c0) (trace (final r))).
Proof.
  induction turns as [|turns IH]; intros inputs st; cbv zeta.
  { cbn. split; [lia|done]. }
  cbn [main_menu].
  assert (Hemit : Forall (harmless c0) (trace st) →
                  Forall (harmless c0)
                    (trace (Menu.emit W (Select WHAT_TO_DO
                                           (main_choices (Menu.config st))) st))).
  { intros Htr. cbn. apply Forall_app. split; [done|]. by repeat constructor. }
  destruct inputs as [|choice inputs]; [by cbn|].
  destruct (offered (main_choices (Menu.config st)) choice) eqn:Hoff;
    cbn [negb]; [|by cbn].
  destruct (String.eqb_spec choice "configure") as [->|_].
  { match goal with |- context [settings_request Path W inputs ?s] =>
      destruct (settings_request_facts c0 inputs s) as (Hstop & Hlen & Hh & Hk);
      destruct (settings_request Path W inputs s) as [how st1 rest1] end.
    cbn [stopped final rest] in *.
    destruct how; try (split; [done|]; intros Hkept Htr; by apply Hh, Hemit).
    destruct (IH rest1 st1) as [Hturns Htrace].
    split.
    - intros Hlt. cbn in Hlt. apply Hturns. lia.
    - intros Hkept Htr. apply Htrace; [|by apply Hh, Hemit].
      destruct Hkept as (? & ? & _). by apply Hk. }
  destruct (String.eqb_spec choice "total") as [->|_].
  { match goal with |- context [lexeme_request W inputs ?s] =>
      destruct (lexeme_request_facts c0 inputs s) as (Hlen & Hh & Hstop);
      destruct (lexeme_request W inputs s) as [how st1 rest1] end.
    cbn [stopped final rest] in *.
    destruct how; try (split; [done|]; intros Hkept Htr; by apply Hh, Hemit).
    destruct (request_total_lexeme_loop_facts c0 (S (length rest1)) rest1 st1)
      as [Hturns Htrace].
    split.
    - intros _. apply Hturns. lia.
    - intros Hkept Htr. by apply Htrace, Hh, Hemit. }
  destruct (String.eqb_spec choice "languages") as [->|_].
  { match goal with |- context [see_list_languages W extern inputs ?s] =>
      destruct (see_list_languages_facts c0 inputs s) as (Hstop & Hh) end.
    split; [done|]. intros Hkept Htr. by apply Hh, Hemit. }
  destruct (String.eqb_spec choice "run") as [->|_].
  { apply run_is_offered in Hoff as [Hconf Hne].
    match goal with |- context [runner_request W extern inputs ?s] =>
      destruct (runner_request_facts c0 inputs s) as (Hstop & Hc & Hrest & Hh);
      destruct (runner_request W extern inputs s) as [how st1 rest1] end.
    cbn [stopped final rest Menu.emit Menu.config] in *.
    destruct how; cbn [stop_at stopped final trace Menu.emit];
      (split; [done|]); intros Hkept Htr;
      rewrite ?Forall_app; repeat split;
      try (apply Hh; [done|done|by apply Hemit]);
      by repeat constructor. }
  cbn [stop_at stopped final trace Menu.emit]. split; [done|].
  intros Hkept Htr. rewrite !Forall_app. repeat split; try done;
    by repeat constructor.
Qed.


Lemma harmless_printed c0 (tr : list Menu.event) :
  Forall (harmless c0) tr → NOT_CONFIGURED ∉ printed (shown_in tr).
Proof.
  intros Hh (e & He & Hf)%list_elem_of_omap.
  destruct e; try discriminate. injection Hf as ->.
  apply list_elem_of_omap in He as (e' & He' & Hf').
  destruct e'; try discriminate. injection Hf' as ->.
  by apply (proj1 (Forall_forall _ _) Hh) in He'.
Qed.

Lemma harmless_get_data_calls c0 (tr : list Menu.event) kw :
  Forall (harmless c0) tr → kw ∈ get_data_calls (shown_in tr) →
  registry_export c0 kw.
Proof.
  intros Hh (e & He & Hf)%list_elem_of_omap.
  destruct e as [| | | | | |callee kw'| | |]; try discriminate.
  destruct (String.eqb_spec callee "get_data") as [->|]; [|discriminate].
  injection Hf as ->.
  apply list_elem_of_omap in He as (e' & He' & Hf').
  destruct e'; try discriminate. injection Hf' as ->.
  apply (proj1 (Forall_forall _ _) Hh) in He'. by apply He'.
Qed.

(** X20.  Interactive mode never runs a request that is not settled.
    Started on a configuration that is not marked configured (the one the
    module builds is not), whatever is answered at the menus and the
    prompts: the error of [run_request] is never printed, and every
    [get_data] call exports a language and a data type of the registry
    in json, csv or tsv.  The main menu offers "run" only once
    [configure_settings] has returned, and what it returns is complete.
    The bound on the number of turns is never reached. *)
Theorem interactive_mode_requests_are_settled inputs c w :
  (configured c = true → complete c) →
  let r := start_interactive_mode Path W extern total_wrapper version_message
             inputs (loaded c w) in
  stopped r ≠ OutOfTurns
  ∧ (NOT_CONFIGURED ∉ printed (shown_in (trace (final r))))
  ∧ (∀ kw, kw ∈ get_data_calls (shown_in (trace (final r))) →
           registry_export c kw).
Proof.
  intros Hc. cbv zeta. unfold start_interactive_mode.
  match goal with |- context [main_menu _ _ _ _ ?t ?i ?s] =>
    destruct (main_menu_facts c t i s) as [Hturns Htrace] end.
  split; [apply Hturns; lia|].
  match type of Htrace with _ → _ → ?P => assert (Hh : P) end.
  { apply Htrace; [split; [done|]; split; [done|]; exact Hc|].
    cbn. apply Forall_cons_2; [|apply Forall_nil_2].
    unfold harmless, WELCOME. by cbn. }
  split; [by eapply harmless_printed|].
  intros kw. by apply harmless_get_data_calls.
Qed.


(** One turn of the loops, choice by choice. *)
Lemma main_menu_configure ext turns inputs (st : Menu.state W) :
  main_menu Path W ext total_wrapper (S turns) ("configure" :: inputs) st
  = let r := settings_request Path W inputs
               (Menu.emit W (Select WHAT_TO_DO (main_choices (Menu.config st)))
                          st) in
    match stopped r with
    | Returned => main_menu Path W ext total_wrapper turns (rest r) (final r)
    | _ => r
    end.
Proof. cbn [main_menu]. by rewrite configure_is_offered. Qed.

Lemma main_menu_total ext turns inputs (st : Menu.state W) :
  offered (main_choices (Menu.config st)) "total" = true →
  main_menu Path W ext total_wrapper (S turns) ("total" :: inputs) st
  = let r := lexeme_request W inputs
               (Menu.emit W (Select WHAT_TO_DO (main_choices (Menu.config st)))
                          st) in
    match stopped r with
    | Returned =>
        request_total_lexeme_loop W total_wrapper (S (length (rest r)))
                                  (rest r) (final r)
    | _ => r
    end.
Proof. intros Hoff. cbn [main_menu]. by rewrite Hoff. Qed.

Lemma main_menu_languages ext turns inputs (st : Menu.state W) :
  offered (main_choices (Menu.config st)) "languages" = true →
  main_menu Path W ext total_wrapper (S turns) ("languages" :: inputs) st
  = see_list_languages W ext inputs
      (Menu.emit W (Select WHAT_TO_DO (main_choices (Menu.config st))) st).
Proof. intros Hoff. cbn [main_menu]. by rewrite Hoff. Qed.

Lemma main_menu_run ext turns inputs (st : Menu.state W) :
  offered (main_choices (Menu.config st)) "run" = true →
  main_menu Path W ext total_wrapper (S turns) ("run" :: inputs) st
  = let r := runner_request W ext inputs
               (Menu.emit W (Select WHAT_TO_DO (main_choices (Menu.config st)))
                          st) in
    match stopped r with
    | Returned =>
        stop_at W Returned (Menu.emit W (Shown (Rprint MESSAGE)) (final r))
                (rest r)
    | _ => r
    end.
Proof. intros Hoff. cbn [main_menu]. by rewrite Hoff. Qed.

Lemma request_total_lexeme_loop_run turns inputs (st : Menu.state W) :
  request_total_lexeme_loop W total_wrapper (S turns) ("run" :: inputs) st
  = let st1 := Menu.emit W (Select WHAT_TO_DO LEXEME_CHOICES) st in
    let c := Menu.config st in
    let st2 := Menu.emit W (TotalWrapper (selected_languages c)
                                         (selected_data_types c) false) st1 in
    match total_wrapper (selected_languages c) (selected_data_types c) false
                        (world st) with
    | (Raise e, w) =>
        stop_at W (Raised e)
          {| Menu.config := c; world := w; trace := trace st2 |} inputs
    | (Ret _, w) =>
        stop_at W Returned
          (Menu.emit W (Shown (Rprint MESSAGE))
             {| Menu.config := set_selected_data_types []
                                 (set_selected_languages [] c);
                world := w; trace := trace st2 |})
          inputs
    end.
Proof. reflexivity. Qed.

Lemma total_calls_app tr1 tr2 :
  total_calls (tr1 ++ tr2) = total_calls tr1 ++ total_calls tr2.
Proof. apply omap_app. Qed.

Lemma total_calls_shown out : total_calls (Shown <$> out) = [].
Proof. unfold total_calls. by induction out as [|e out IH]. Qed.

Lemma list_calls_app tr1 tr2 :
  list_calls (tr1 ++ tr2) = list_calls tr1 ++ list_calls tr2.
Proof. apply omap_app. Qed.

Lemma configure_settings_straight c l d t dir o more :
  language_selection c l ≠ [] → data_type_selection c d ≠ [] →
  t ∈ ["json"; "csv"; "tsv"] →
  let c4 := set_output_type t
              (set_selected_data_types (data_type_selection c d)
                 (set_selected_languages (language_selection c l) c)) in
  let c5 := if String.eqb dir "" then c4 else set_output_dir (Path dir) c4 in
  let s := configure_settings Path (l :: d :: t :: dir :: o :: more) c in
  at_state s = Configured
  ∧ Interactive.config s
    = set_configured true (set_overwrite (overwrite_choice o) c5)
  ∧ unread s = more
  ∧ get_data_calls (shown s) = [].
Proof.
  intros Hl Hd Ht. cbv zeta. cbn [configure_settings].
  cbn [selected_languages set_selected_languages].
  destruct (language_selection c l) as [|l1 ls] eqn:Hsl; [done|].
  change (data_type_selection (set_selected_languages (l1 :: ls) c) d)
    with (data_type_selection c d).
  cbn [selected_data_types set_selected_data_types].
  destruct (data_type_selection c d) as [|d1 ds] eqn:Hsd; [done|].
  unfold output_type_onwards. cbn [output_type_loop].
  cbn [output_type set_output_type]. rewrite decide_True by done.
  unfold output_dir_onwards, after. cbn [at_state Interactive.config unread shown].
  by repeat split.
Qed.

Lemma settings_request_straight c l d t dir o more (st : Menu.state W) :
  Menu.config st = c →
  language_selection c l ≠ [] → data_type_selection c d ≠ [] →
  t ∈ ["json"; "csv"; "tsv"] →
  let c4 := set_output_type t
              (set_selected_data_types (data_type_selection c d)
                 (set_selected_languages (language_selection c l) c)) in
  let c5 := if String.eqb dir "" then c4 else set_output_dir (Path dir) c4 in
  ∃ out,
    settings_request Path W (l :: d :: t :: dir :: o :: more) st
    = stop_at W Returned
        {| Menu.config := set_configured true
                            (set_overwrite (overwrite_choice o) c5);
           world := world st; trace := trace st ++ (Shown <$> out) |}
        more
    ∧ get_data_calls out = [].
Proof.
  intros <- Hl Hd Ht c4 c5. unfold settings_request.
  destruct (configure_settings_straight (Menu.config st) l d t dir o more
              Hl Hd Ht) as (Hat & Hc & Hun & Hcalls).
  fold c4 c5 in Hc.
  destruct (configure_settings Path _ (Menu.config st))
    as [state cfg out unread0].
  cbn [at_state Interactive.config unread shown] in *. subst state cfg unread0.
  exists out. split; [reflexivity|exact Hcalls].
Qed.

Lemma runner_request_returning f inputs (st : Menu.state W) :
  ∃ out w',
    runner_request W (returning f) inputs st
    = stop_at W Returned
        {| Menu.config := Menu.config st; world := w';
           trace := trace st ++ (Shown <$> out) |}
        inputs
    ∧ get_data_calls out
      = (λ item, get_data_kwargs (Menu.config st) item.1 item.2)
          <$> work_items (Menu.config st).
Proof.
  unfold runner_request.
  pose proof (run_request_returning_calls W f (Menu.config st) (world st))
    as Hexports.
  pose proof (run_request_config W (returning f)
                (start (Menu.config st) (world st))) as Hcfg.
  pose proof (run_request_returning W f (Menu.config st) (world st)) as Hret.
  unfold start in *.
  destruct (run_request W (returning f) _) as [res st2].
  assert (Hres : res = Ret ()).
  { destruct (bool_decide _ || bool_decide _); by injection Hret. }
  subst res. cbn [fst snd] in *. destruct st2 as [c2 w2 out2].
  cbn [st_config st_world st_output] in *. subst c2.
  exists out2, w2. split; [reflexivity|exact Hexports].
Qed.

(** X21.  Configure, then run: from the main menu, the answers of one
    pass through [configure_settings] followed by the choice "run" export
    every selected language with every selected data type once, languages
    outside, with the output type, directory and overwrite flag just
    entered; the mode then takes its leave and reads nothing more. *)
Theorem configure_then_run f c w l d t dir o more :
  language_selection c l ≠ [] → data_type_selection c d ≠ [] →
  t ∈ ["json"; "csv"; "tsv"] →
  let c4 := set_output_type t
              (set_selected_data_types (data_type_selection c d)
                 (set_selected_languages (language_selection c l) c)) in
  let c5 := if String.eqb dir "" then c4 else set_output_dir (Path dir) c4 in
  let c' := set_configured true (set_overwrite (overwrite_choice o) c5) in
  let r := start_interactive_mode Path W (returning f) total_wrapper
             version_message
             ("configure" :: l :: d :: t :: dir :: o :: "run" :: more)
             (loaded c w) in
  stopped r = Returned
  ∧ rest r = more
  ∧ Menu.config (final r) = c'
  ∧ get_data_calls (shown_in (trace (final r)))
    = (language ← language_selection c l;
       data_type ← data_type_selection c d;
       [[ ("language", VStr language);
          ("data_type", VStr data_type);
          ("output_type", VStr t);
          ("output_dir",
             VStr (if String.eqb dir "" then output_dir c else Path dir));
          ("overwrite", VBool (overwrite_choice o));
          ("interactive", VBool true) ]])
  ∧ last (trace (final r)) = Some (Shown (Rprint MESSAGE)).
Proof.
  intros Hl Hd Ht c4 c5 c' r. subst r. unfold start_interactive_mode.
  cbn [length]. rewrite main_menu_configure. cbv zeta.
  match goal with |- context [settings_request Path W _ ?s] =>
    destruct (settings_request_straight c l d t dir o ("run" :: more) s
                eq_refl Hl Hd Ht) as (out1 & -> & Hcalls1) end.
  fold c4 c5 c'. cbn [stop_at stopped final rest].
  assert (Hrun : offered (main_choices c') "run" = true).
  { apply run_is_offered. split; [done|]. intros [Hno _]. apply Hl.
    subst c' c5 c4. by destruct (String.eqb dir ""). }
  rewrite main_menu_run by exact Hrun. cbv zeta.
  match goal with |- context [runner_request W (returning f) more ?s] =>
    destruct (runner_request_returning f more s) as (out2 & w2 & -> & Hcalls2)
  end.
  cbn [stop_at stopped final rest Menu.emit Menu.config world trace loaded].
  split; [done|]. split; [done|]. split; [done|]. split.
  - rewrite !shown_in_app, !shown_in_fmap, !get_data_calls_app.
    rewrite Hcalls1, Hcalls2.
    change (get_data_calls (shown_in [Shown (Rprint MESSAGE)]))
      with (@nil kwargs).
    rewrite app_nil_r. cbn [app Menu.config Menu.emit].
    rewrite (fmap_work_items (get_data_kwargs c') c').
    subst c' c5 c4. by destruct (String.eqb dir "").
  - apply last_snoc.
Qed.

Lemma lexeme_request_straight l d more (st : Menu.state W) :
  let c1 := total_languages_answer (Menu.config st) l in
  let c2 := total_data_types_answer c1 d in
  selected_languages c1 ≠ [] → selected_data_types c2 ≠ [] →
  ∃ out,
    lexeme_request W (l :: d :: more) st
    = stop_at W Returned
        {| Menu.config := c2; world := world st;
           trace := trace st ++ (Shown <$> out) |}
        more
    ∧ get_data_calls out = [].
Proof.
  intros c1 c2 Hl Hd. unfold lexeme_request. cbn [request_total_lexeme].
  fold c1. destruct (selected_languages c1) as [|l1 ls] eqn:Hsl; [done|].
  fold c2. destruct (selected_data_types c2) as [|d1 ds] eqn:Hsd; [done|].
  cbn [lx_state lx_config lx_shown lx_unread].
  eexists. split; reflexivity.
Qed.

(** X22.  Totals: from the main menu, "total", a language answer, a
    data-type answer and "run" call [total_wrapper] once, with the two
    selections and [all_bool=False], and [get_data] never.  When the call
    returns both selections are emptied and the mode takes its leave;
    when it raises, the exception leaves the mode and the selections
    stand. *)
Theorem total_then_run c w l d more :
  let c1 := total_languages_answer c l in
  let c2 := total_data_types_answer c1 d in
  let r := start_interactive_mode Path W extern total_wrapper version_message
             ("total" :: l :: d :: "run" :: more) (loaded c w) in
  offered (main_choices c) "total" = true →
  selected_languages c1 ≠ [] → selected_data_types c2 ≠ [] →
  total_calls (trace (final r))
  = [(selected_languages c2, selected_data_types c2, false)]
  ∧ get_data_calls (shown_in (trace (final r))) = []
  ∧ rest r = more
  ∧ match (total_wrapper (selected_languages c2) (selected_data_types c2)
                         false w).1 with
    | Ret _ =>
        stopped r = Returned
        ∧ Menu.config (final r)
          = set_selected_data_types [] (set_selected_languages [] c2)
        ∧ last (trace (final r)) = Some (Shown (Rprint MESSAGE))
    | Raise e => stopped r = Raised e ∧ Menu.config (final r) = c2
    end.
Proof.
  intros c1 c2 r Hoff Hl Hd. subst r. unfold start_interactive_mode.
  cbn [length]. rewrite main_menu_total by exact Hoff. cbv zeta.
  match goal with |- context [lexeme_request W _ ?s] =>
    destruct (lexeme_request_straight l d ("run" :: more) s Hl Hd)
      as (out1 & -> & Hcalls1) end.
  cbn [stop_at stopped final rest length Menu.emit Menu.config world trace
       loaded].
  fold c1 c2. rewrite request_total_lexeme_loop_run. cbv zeta.
  cbn [Menu.emit Menu.config world trace].
  destruct (total_wrapper (selected_languages c2) (selected_data_types c2)
                          false w) as [[v|e] w1];
    cbn [fst stop_at stopped final rest Menu.emit Menu.config world trace];
    (split; [by rewrite !total_calls_app, total_calls_shown|]);
    (split;
     [by rewrite !shown_in_app, !shown_in_fmap, !get_data_calls_app, Hcalls1|]);
    (split; [reflexivity|]).
  - split; [reflexivity|]. split; [reflexivity|]. apply last_snoc.
  - by split.
Qed.

(** X23.  Lists: from the main menu, "languages" and any of the three
    choices of [see_list_languages] call [list_wrapper] once, with one
    keyword set to [True] and no other; the mode ends there, without the
    leave-taking message, and the configuration is as it was. *)
Theorem list_choice_calls_list_wrapper c w choice more :
  let r := start_interactive_mode Path W extern total_wrapper version_message
             ("languages" :: choice :: more) (loaded c w) in
  offered (main_choices c) "languages" = true →
  choice ∈ LIST_CHOICES.*2 →
  ∃ key,
    (choice, key) ∈ [ ("all_languages", "all_bool");
                      ("languages_for_data_type", "data_type");
                      ("data_types_for_language", "language") ]
    ∧ list_calls (trace (final r)) = [[(key, VBool true)]]
    ∧ printed (shown_in (trace (final r))) = [WELCOME version_message]
    ∧ Menu.config (final r) = c
    ∧ rest r = more
    ∧ stopped r
      = match (extern "list_wrapper" [(key, VBool true)] w).1 with
        | Ret _ => Returned
        | Raise e => Raised e
        end.
Proof.
  intros r Hoff Hin. subst r. unfold start_interactive_mode.
  cbn [length]. rewrite main_menu_languages by exact Hoff.
  unfold see_list_languages.
  assert (Hoffered : offered LIST_CHOICES choice = true)
    by by apply bool_decide_eq_true.
  rewrite Hoffered. cbn [negb].
  cbn [Menu.emit Menu.config world trace loaded].
  cbn [LIST_CHOICES fmap list_fmap snd] in Hin.
  apply elem_of_cons in Hin as [->|Hin]; [|apply elem_of_cons in Hin as [->|Hin];
    [|apply list_elem_of_singleton in Hin as ->]].
  - exists "all_bool". split; [by left|].
    change (String.eqb "all_languages" "all_languages") with true. cbv iota.
    by destruct (extern "list_wrapper" [("all_bool", VBool true)] w)
      as [[v|e] w1].
  - exists "data_type". split; [by right; left|].
    change (String.eqb "languages_for_data_type" "all_languages") with false.
    change (String.eqb "languages_for_data_type" "languages_for_data_type")
      with true. cbv iota.
    by destruct (extern "list_wrapper" [("data_type", VBool true)] w)
      as [[v|e] w1].
  - exists "language". split; [by right; right; left|].
    change (String.eqb "data_types_for_language" "all_languages") with false.
    change (String.eqb "data_types_for_language" "languages_for_data_type")
      with false.
    change (String.eqb "data_types_for_language" "data_types_for_language")
      with true. cbv iota.
    by destruct (extern "list_wrapper" [("language", VBool true)] w)
      as [[v|e] w1].
Qed.

End MenuFurther.

(** ** The further properties on samples *)

Section SessionSamples.
Import Py PyStr Interactive Settled Samples Scenarios.

Lemma configured_session_is_complete_witness :
  at_state (configure_settings plain_path english_nouns registry) = Configured
  ∧ selected_languages
      (config (configure_settings plain_path english_nouns registry)) ≠ []
  ∧ selected_languages
      (config (configure_settings plain_path english_nouns registry))
    ⊆ languages registry.
Proof.
  split; [reflexivity|].
  destruct (configured_session_is_complete plain_path english_nouns registry
              eq_refl) as (H1 & H2 & _).
  split; [exact H1|exact H2].
Defined.

Lemma unfinished_session_keeps_flags_witness :
  at_state (configure_settings plain_path ["English"; "nouns"] registry)
  ≠ Configured
  ∧ configured
      (config (configure_settings plain_path ["English"; "nouns"] registry))
    = configured registry
  ∧ overwrite
      (config (configure_settings plain_path ["English"; "nouns"] registry))
    = overwrite registry.
Proof.
  assert (H : at_state (configure_settings plain_path ["English"; "nouns"]
                          registry) ≠ Configured) by (vm_compute; discriminate).
  split; [exact H|].
  exact (unfinished_session_keeps_flags plain_path ["English"; "nouns"]
           registry H).
Defined.

Lemma output_type_prompt_answer_witness :
  at_state (configure_settings plain_path ["English"; "nouns"] registry)
  = AwaitingOutputType
  ∧ output_type
      (config (configure_settings plain_path (["English"; "nouns"] ++ ["sqlite"])
                 registry))
    = "sqlite".
Proof.
  split; [reflexivity|].
  destruct (output_type_prompt_answer plain_path ["English"; "nouns"] registry
              "sqlite" eq_refl) as (H & _).
  exact H.
Defined.

Lemma output_dir_prompt_answer_witness :
  at_state (configure_settings plain_path ["English"; "nouns"; "json"] registry)
  = AwaitingOutputDir
  ∧ at_state (configure_settings plain_path
                (["English"; "nouns"; "json"] ++ ["exports"]) registry)
    = AwaitingOverwrite.
Proof.
  split; [reflexivity|].
  destruct (output_dir_prompt_answer plain_path ["English"; "nouns"; "json"]
              registry "exports" eq_refl) as (H & _).
  exact H.
Defined.

Lemma configured_session_reads_no_more_witness :
  at_state (configure_settings plain_path english_nouns registry) = Configured
  ∧ unread (configure_settings plain_path (english_nouns ++ ["run"]) registry)
    = unread (configure_settings plain_path english_nouns registry) ++ ["run"].
Proof.
  split; [reflexivity|].
  destruct (configured_session_reads_no_more plain_path english_nouns registry
              ["run"] eq_refl) as (_ & _ & _ & H).
  exact H.
Defined.

End SessionSamples.

Section MainSamples.
Import Py PyStr Main CommandLines Samples Scenarios.

Lemma validator_exception_escapes_witness :
  (get_portuguese !! "language" = Some (VStr "Portuguese")
   ∧ get_portuguese !! "data_type" = Some (VStr "proper-nouns")
   ∧ (truthy (VStr "Portuguese") = true ∨ truthy (VStr "proper-nouns") = true)
   ∧ (∀ msg, KeyboardInterrupt ≠ ValueError msg))
  ∧ main unit interrupted get_portuguese (begin ())
    = (Raise KeyboardInterrupt,
       {| world := ();
          output := [Call VALIDATE [("language", VStr "Portuguese");
                                    ("data_type", VStr "proper_nouns")]] |}).
Proof.
  assert (H : ∀ msg, KeyboardInterrupt ≠ ValueError msg) by (intros msg; discriminate).
  split; [repeat split; try reflexivity; [left; reflexivity|exact H]|].
  exact (validator_exception_escapes unit interrupted get_portuguese ()
           (VStr "Portuguese") (VStr "proper-nouns") KeyboardInterrupt ()
           eq_refl eq_refl (or_introl eq_refl) H eq_refl).
Defined.

Lemma upgrade_runs_no_subcommand_witness :
  (get_upgrade !! "upgrade" = Some (VBool true) ∧ truthy (VBool true) = true)
  ∧ ∀ callee kw,
      (callee, kw) ∈ calls (output (main unit quiet get_upgrade (begin ())).2) →
      callee = VALIDATE ∨ callee = "upgrade_cli".
Proof.
  split; [split; reflexivity|].
  exact (upgrade_runs_no_subcommand unit quiet get_upgrade () (VBool true)
           eq_refl eq_refl).
Defined.

Lemma subcommand_interrupt_is_caught_witness :
  ((∀ kw w0, ∃ v w1, interrupted_export VALIDATE kw w0 = (Ret v, w1))
   ∧ get_portuguese !! "upgrade" = Some (VBool false))
  ∧ (main unit interrupted_export get_portuguese (begin ())).1
    ≠ Raise KeyboardInterrupt.
Proof.
  assert (H : ∀ kw w0, ∃ v w1, interrupted_export VALIDATE kw w0 = (Ret v, w1)).
  { intros kw w0. exists VNone, w0. reflexivity. }
  split; [split; [exact H|reflexivity]|].
  exact (proj1 (subcommand_interrupt_is_caught unit interrupted_export
                  get_portuguese () H eq_refl)).
Defined.

Lemma get_passes_normalised_arguments_witness :
  (("get" = "get" ∨ "get" = "g") ∧ "Portuguese" ≠ ""
   ∧ is_ascii "Portuguese" = true ∧ is_ascii "proper-nouns" = true)
  ∧ calls (output (main unit quiet get_portuguese (begin ())).2)
    = [ (VALIDATE, [("language", VStr "Portuguese");
                    ("data_type", VStr "proper_nouns")]);
        ("get_data",
         [ ("language", VStr "portuguese");
           ("data_type", VStr "proper_nouns");
           ("output_type", VStr "json");
           ("output_dir", VNone);
           ("outputs_per_entry", VNone);
           ("overwrite", VBool false);
           ("all", VNone);
           ("identifier_case", VStr "camel") ]) ].
Proof.
  assert (H : "Portuguese" ≠ "") by discriminate.
  split; [split; [left; reflexivity|]; split; [exact H|]; split; reflexivity|].
  exact (get_passes_normalised_arguments unit quiet "get" "Portuguese"
           "proper-nouns" (Some "json") None None false None "camel" () VNone ()
           (or_introl eq_refl) H eq_refl eq_refl eq_refl).
Defined.

Lemma total_passes_optional_arguments_witness :
  (("total" = "total" ∨ "total" = "t")
   ∧ ascii_option (Some "Portuguese") = true
   ∧ ascii_option None = true
   ∧ (∀ kw w0, ∃ v w1, quiet VALIDATE kw w0 = (Ret v, w1)))
  ∧ calls (output (main unit quiet
                     (total_namespace "total" false (Some "Portuguese") None
                        (Some true) false)
                     (begin ())).2)
    = [ (VALIDATE, [("language", VStr "Portuguese"); ("data_type", VNone)]);
        ("total_wrapper",
         [ ("language", VStr "portuguese"); ("data_type", VNone);
           ("all_bool", VBool true) ]) ].
Proof.
  assert (H : ∀ kw w0, ∃ v w1, quiet VALIDATE kw w0 = (Ret v, w1)).
  { intros kw w0. exists VNone, w0. reflexivity. }
  split; [split; [left; reflexivity|]; split; [reflexivity|];
          split; [reflexivity|exact H]|].
  exact (total_passes_optional_arguments unit quiet "total" (Some "Portuguese")
           None (Some true) () (or_introl eq_refl) eq_refl eq_refl H).
Defined.

End MainSamples.

Section FormatSamples.
Import Py FormatVerbs Rows Samples Scenarios.

Lemma verbs_formatted_ignores_other_fields_witness :
  Forall2 same_read_fields [verb_ser] [verb_ser_bare]
  ∧ verbs_formatted [verb_ser] = verbs_formatted [verb_ser_bare].
Proof.
  assert (H : Forall2 same_read_fields [verb_ser] [verb_ser_bare]).
  { constructor; [|constructor]. intros key Hin.
    repeat (apply elem_of_cons in Hin as [->|Hin]; [reflexivity|]).
    by apply elem_of_nil in Hin. }
  split; [exact H|].
  exact (verbs_formatted_ignores_other_fields [verb_ser] [verb_ser_bare] H).
Defined.

Lemma verbs_formatted_one_item_per_infinitive_witness :
  Forall has_infinitive [verb_ser; verb_amar; verb_ser]
  ∧ ∃ out, verbs_formatted [verb_ser; verb_amar; verb_ser] = Ret out
           ∧ length out = 2%nat.
Proof.
  assert (H : Forall has_infinitive [verb_ser; verb_amar; verb_ser]).
  { repeat constructor; by eexists. }
  split; [exact H|].
  destruct (verbs_formatted_one_item_per_infinitive
              [verb_ser; verb_amar; verb_ser] H) as (out & Hout & _ & Hlen).
  exists out. split; [exact Hout|exact Hlen].
Defined.

Lemma verbs_formatted_order_independent_witness :
  ([verb_ser; verb_amar] ≡ₚ [verb_amar; verb_ser]
   ∧ Forall has_infinitive [verb_ser; verb_amar]
   ∧ NoDup (infinitives [verb_ser; verb_amar]))
  ∧ ∃ out, verbs_formatted [verb_ser; verb_amar] = Ret out
           ∧ verbs_formatted [verb_amar; verb_ser] = Ret out.
Proof.
  assert (Hp : [verb_ser; verb_amar] ≡ₚ [verb_amar; verb_ser])
    by apply perm_swap.
  assert (Hi : Forall has_infinitive [verb_ser; verb_amar]).
  { repeat constructor; by eexists. }
  assert (Hn : NoDup (infinitives [verb_ser; verb_amar])).
  { change (NoDup ["ser"; "amar"]).
    apply NoDup_cons. split; [|apply NoDup_singleton].
    intros Hin. apply list_elem_of_singleton in Hin. discriminate Hin. }
  split; [by repeat split|].
  exact (verbs_formatted_order_independent [verb_ser; verb_amar]
           [verb_amar; verb_ser] Hp Hi Hn).
Defined.

End FormatSamples.

Section MenuSamples.
Import Py PyStr Interactive Settled Menu MenuReading Samples Scenarios.

Lemma blank_answer_keeps_total_selection_witness :
  strip (" " +:+ NO_BREAK_SPACE) = ""
  ∧ total_languages_answer french_german_nouns (" " +:+ NO_BREAK_SPACE)
    = french_german_nouns
  ∧ total_data_types_answer french_german_nouns (" " +:+ NO_BREAK_SPACE)
    = french_german_nouns.
Proof.
  split; [reflexivity|].
  destruct (blank_answer_keeps_total_selection plain_path french_german_nouns
              (" " +:+ NO_BREAK_SPACE) eq_refl) as (H1 & H2 & _).
  split; [exact H1|exact H2].
Defined.

(** White space outside ASCII is trimmed as Python trims it: a token
    followed by a no-break space, or set between em spaces, is the
    registry's name. *)
Example wide_spaces_are_trimmed :
  strip ("English" +:+ NO_BREAK_SPACE) = "English"
  ∧ language_selection registry ("English" +:+ NO_BREAK_SPACE) = ["English"]
  ∧ language_selection registry
      (EM_SPACE +:+ "French" +:+ EM_SPACE +:+ "," +:+ NO_BREAK_SPACE
       +:+ "English")
    = ["French"; "English"]
  ∧ at_state (configure_settings plain_path ["English" +:+ NO_BREAK_SPACE]
                registry)
    = AwaitingDataTypes.
Proof. repeat split; by vm_compute. Qed.

Lemma request_total_lexeme_returns_selections_witness :
  lx_state (request_total_lexeme ["English"; "nouns"] registry) = LexemeReturned
  ∧ selected_languages
      (lx_config (request_total_lexeme ["English"; "nouns"] registry)) ≠ []
  ∧ selected_data_types
      (lx_config (request_total_lexeme ["English"; "nouns"] registry)) ≠ [].
Proof.
  split; [reflexivity|].
  destruct (request_total_lexeme_returns_selections ["English"; "nouns"]
              registry eq_refl) as (H1 & H2 & _).
  split; [exact H1|exact H2].
Defined.

Lemma interactive_mode_requests_are_settled_witness :
  (configured registry = true → complete registry)
  ∧ stopped (start_interactive_mode plain_path unit quiet quiet_totals VERSION
               ("configure" :: english_nouns ++ ["run"]) (loaded registry ()))
    ≠ OutOfTurns
  ∧ (NOT_CONFIGURED
     ∉ printed
         (shown_in
            (trace
               (final
                  (start_interactive_mode plain_path unit quiet quiet_totals
                     VERSION ("configure" :: english_nouns ++ ["run"])
                     (loaded registry ())))))).
Proof.
  assert (H : configured registry = true → complete registry)
    by (intros Hc; discriminate Hc).
  split; [exact H|].
  destruct (interactive_mode_requests_are_settled plain_path unit quiet
              quiet_totals VERSION ("configure" :: english_nouns ++ ["run"])
              registry () H) as (H1 & H2 & _).
  split; [exact H1|exact H2].
Defined.

Lemma configure_then_run_witness :
  (language_selection registry "English" ≠ []
   ∧ data_type_selection registry "nouns" ≠ []
   ∧ "json" ∈ ["json"; "csv"; "tsv"])
  ∧ stopped (start_interactive_mode plain_path unit (returning succeeding)
               quiet_totals VERSION
               ["configure"; "English"; "nouns"; "json"; ""; "Y"; "run"]
               (loaded registry ()))
    = Returned
  ∧ get_data_calls
      (shown_in
         (trace
            (final
               (start_interactive_mode plain_path unit (returning succeeding)
                  quiet_totals VERSION
                  ["configure"; "English"; "nouns"; "json"; ""; "Y"; "run"]
                  (loaded registry ())))))
    = [ [ ("language", VStr "English"); ("data_type", VStr "nouns");
          ("output_type", VStr "json");
          ("output_dir", VStr "scribe_data_json_export");
          ("overwrite", VBool true); ("interactive", VBool true) ] ].
Proof.
  assert (Hl : language_selection registry "English" ≠ [])
    by (vm_compute; discriminate).
  assert (Hd : data_type_selection registry "nouns" ≠ [])
    by (vm_compute; discriminate).
  assert (Ht : "json" ∈ ["json"; "csv"; "tsv"]) by constructor.
  split; [by repeat split|].
  destruct (configure_then_run plain_path unit quiet_totals VERSION succeeding
              registry () "English" "nouns" "json" "" "Y" [] Hl Hd Ht)
    as (H1 & _ & _ & H4 & _).
  split; [exact H1|exact H4].
Defined.

Lemma total_then_run_witness :
  (offered (main_choices registry) "total" = true
   ∧ selected_languages (total_languages_answer registry "English") ≠ []
   ∧ selected_data_types
       (total_data_types_answer (total_languages_answer registry "English")
          "nouns") ≠ [])
  ∧ total_calls
      (trace (final (start_interactive_mode plain_path unit quiet quiet_totals
                       VERSION ["total"; "English"; "nouns"; "run"]
                       (loaded registry ()))))
    = [(["English"], ["nouns"], false)].
Proof.
  assert (Hl : selected_languages (total_languages_answer registry "English")
               ≠ []) by (vm_compute; discriminate).
  assert (Hd : selected_data_types
                 (total_data_types_answer
                    (total_languages_answer registry "English") "nouns") ≠ [])
    by (vm_compute; discriminate).
  split; [by repeat split|].
  destruct (total_then_run plain_path unit quiet quiet_totals VERSION registry
              () "English" "nouns" [] eq_refl Hl Hd) as (H & _).
  exact H.
Defined.

Lemma list_choice_calls_list_wrapper_witness :
  (offered (main_choices registry) "languages" = true
   ∧ "all_languages" ∈ LIST_CHOICES.*2)
  ∧ ∃ key,
      list_calls
        (trace (final (start_interactive_mode plain_path unit quiet
                         quiet_totals VERSION ["languages"; "all_languages"]
                         (loaded registry ()))))
      = [[(key, VBool true)]].
Proof.
  assert (Hin : "all_languages" ∈ LIST_CHOICES.*2) by constructor.
  split; [by split|].
  destruct (list_choice_calls_list_wrapper plain_path unit quiet quiet_totals
              VERSION registry () "all_languages" [] eq_refl Hin)
    as (key & _ & H & _).
  exists key. exact H.
Defined.

End MenuSamples.
